(** * ATS resume scorer: a shallow embedding of the scoring core

    The development follows the Python sources

      - [app/utils/text_cleaner.py]   (module [TextCleaner])
      - [app/services/extractor.py]   (module [Extractor])
      - [app/services/parser.py]      (module [Parser])
      - [app/services/scorer.py]      (modules [Scorer], [ScorerFloat])

    Modelling conventions.

    - In module [Scorer] a Python [float] is an exact rational of [Q] and
      [round(x, k)] is rounding of the exact value to the nearest multiple
      of [10^-k], ties to the even neighbour: the scores are the values of
      the scoring formulas over the rationals.  The program computes in
      binary64, so where an inexact sum or product lies next to a rounding
      tie or a threshold its value can differ from the exact one in the
      last digit kept ([round(0.35, 1)] is 0.3 in binary64 and 0.4 over
      the rationals).  [Scorer] is used for bounds, order and relations
      between outputs, which the rounding of the single operations does
      not change.  NaN does not occur in the functions modelled there; a
      duration literal too long for a float is a large rational and takes
      the same branch as Python's infinity.
    - In module [ScorerFloat] a Python [float] is a binary64 number, a
      primitive float: [normalize_score] and the relevance estimator are
      modelled there operation by operation, for the properties that fix
      the value returned.  NaN and the infinities are floats like the
      others.
    - A Python [str] is a list of characters; a character is a code point
      below 256 ([ascii]), classified as Python classifies the Latin-1
      block.  On these [str.lower] keeps the length of a text; properties
      that depend on it say so.
    - A [dict] read only through [.get] is an association list; [None] is
      [option]'s [None].
    - The calls into pdfminer, python-docx, scikit-learn and the embedding
      model are parameters of the model: functions that return a value or
      raise. *)

From Stdlib Require Import ZArith NArith QArith Qround Lqa Lia Bool.
From Stdlib Require Import Ascii String DecimalString List.
From Stdlib Require Import Floats.
From Stdlib Require Uint63.
Import ListNotations.

Set Implicit Arguments.

(** A decimal float literal stands for the nearest binary64 number. *)
Set Warnings "-inexact-float".

Close Scope Q_scope.

(* ================================================================= *)
(** * Part I: the embedding                                           *)
(* ================================================================= *)

(** ** Python numbers *)

Module Py.

Local Open Scope Q_scope.

(** Strict comparison of two floats, as a boolean. *)
Definition ltb (x y : Q) : bool := negb (Qle_bool y x).

(** [min(a, b)] keeps its first argument unless the second is strictly
    smaller; [max(a, b)] keeps it unless the second is strictly larger. *)
Definition min (a b : Q) : Q := if ltb b a then b else a.
Definition max (a b : Q) : Q := if ltb a b then b else a.

(** Nearest integer, ties to even. *)
Definition round_half_even (x : Q) : Z :=
  let f := Qfloor x in
  match Qcompare (x - inject_Z f) (1 # 2) with
  | Lt => f
  | Gt => (f + 1)%Z
  | Eq => if Z.even f then f else (f + 1)%Z
  end.

(** [round(x, ndigits)] for a non-negative number of digits. *)
Definition round (x : Q) (ndigits : nat) : Q :=
  let p := inject_Z (10 ^ Z.of_nat ndigits) in
  inject_Z (round_half_even (x * p)) / p.

(** *** Strings *)

Definition str : Type := list ascii.

(** A string literal. *)
Definition lit (x : string) : str := list_ascii_of_string x.

Definition code (c : ascii) : N := N_of_ascii c.

Definition in_range (lo hi : N) (c : ascii) : bool :=
  (N.leb lo (code c) && N.leb (code c) hi)%bool.

(** [str.isspace], which is also the class [\s] of [re] and the separator
    set of [str.split()] and [str.strip()]: TAB..CR, FS..US, space, NEL and
    the no-break space. *)
Definition isspace (c : ascii) : bool :=
  (in_range 9 13 c || in_range 28 32 c
   || N.eqb (code c) 133 || N.eqb (code c) 160)%bool.

(** The class [\d]: below 256 the decimal digits are [0-9]. *)
Definition isdigit (c : ascii) : bool := in_range 48 57 c.

(** [str.isalnum] on the Latin-1 block. *)
Definition isalnum (c : ascii) : bool :=
  (in_range 48 57 c || in_range 65 90 c || in_range 97 122 c
   || N.eqb (code c) 170 || N.eqb (code c) 178 || N.eqb (code c) 179
   || N.eqb (code c) 181 || N.eqb (code c) 185 || N.eqb (code c) 186
   || in_range 188 190 c || in_range 192 214 c || in_range 216 246 c
   || in_range 248 255 c)%bool.

(** The class [\w]: alphanumeric or underscore. *)
Definition isword (c : ascii) : bool :=
  (isalnum c || N.eqb (code c) 95)%bool.

(** The range [a-z]. *)
Definition is_a_z (c : ascii) : bool := in_range 97 122 c.

(** [str.lower] on one character: [A-Z] and the upper-case letters of the
    Latin-1 supplement move 32 code points up. *)
Definition lower_char (c : ascii) : ascii :=
  if (in_range 65 90 c || in_range 192 214 c || in_range 216 222 c)%bool
  then ascii_of_N (code c + 32) else c.

Definition lower (s : str) : str := map lower_char s.

Definition str_eqb (a b : str) : bool :=
  if list_eq_dec ascii_dec a b then true else false.

(** [s.startswith(p)] *)
Fixpoint startswith (p s : str) : bool :=
  match p, s with
  | [], _ => true
  | _ :: _, [] => false
  | a :: p', b :: s' => (Ascii.eqb a b && startswith p' s')%bool
  end.

(** [sub in s] *)
Fixpoint contains (sub s : str) : bool :=
  (startswith sub s ||
   match s with
   | [] => false
   | _ :: t => contains sub t
   end)%bool.

(** [any(x in text for x in xs)] and [sum(1 for x in xs if x in text)] *)
Definition any_in (xs : list str) (text : str) : bool :=
  existsb (fun x => contains x text) xs.

Definition count_in (xs : list str) (text : str) : nat :=
  List.length (filter (fun x => contains x text) xs).

(** [s.count(sub)] for a non-empty [sub]: occurrences that do not
    overlap, from the left.  [skip] characters of a counted occurrence are
    still to be passed over. *)
Fixpoint count_skip (sub s : str) (skip : nat) : nat :=
  match s with
  | [] => 0
  | _ :: t =>
      match skip with
      | S n => count_skip sub t n
      | O => if startswith sub s
             then S (count_skip sub t (List.length sub - 1))
             else count_skip sub t 0
      end
  end.

Definition count (s sub : str) : nat := count_skip sub s 0.

(** [sep.join(xs)] *)
Fixpoint join (sep : str) (xs : list str) : str :=
  match xs with
  | [] => []
  | [x] => x
  | x :: rest => x ++ sep ++ join sep rest
  end.

(** [s.split()]: the maximal runs of characters that are not white space.
    [cur] is the run being read, kept in reverse. *)
Fixpoint split_acc (cur : str) (s : str) : list str :=
  match s with
  | [] => match cur with [] => [] | _ => [rev cur] end
  | c :: t =>
      if isspace c
      then match cur with
           | [] => split_acc [] t
           | _ => rev cur :: split_acc [] t
           end
      else split_acc (c :: cur) t
  end.

Definition split (s : str) : list str := split_acc [] s.

(** [s.lstrip()], [s.rstrip()], [s.strip()] *)
Fixpoint lstrip (s : str) : str :=
  match s with
  | c :: t => if isspace c then lstrip t else s
  | [] => []
  end.

Fixpoint rstrip (s : str) : str :=
  match s with
  | [] => []
  | c :: t =>
      match rstrip t with
      | [] => if isspace c then [] else [c]
      | r => c :: r
      end
  end.

Definition strip (s : str) : str := rstrip (lstrip s).

(** [s[a:b]] for [0 <= a <= b] *)
Definition slice (s : str) (a b : nat) : str := firstn (b - a) (skipn a s).

(** Distinct elements, for [len(set(xs))]. *)
Definition distinct (xs : list str) : list str :=
  nodup (list_eq_dec ascii_dec) xs.

(** [str(n)] for a non-negative integer. *)
Definition str_of_nat (n : nat) : str :=
  lit (NilZero.string_of_uint (Nat.to_uint n)).

(** [float(m)] for a text [m] of the shape [digits], [digits.] or
    [digits.digits], as the duration patterns capture it. *)
Definition digit_value (c : ascii) : Z := Z.of_N (code c - 48).

Definition int_of_digits (ds : str) : Z :=
  fold_left (fun acc c => (10 * acc + digit_value c)%Z) ds 0%Z.

Fixpoint before_dot (m : str) : str :=
  match m with
  | [] => []
  | c :: t => if Ascii.eqb c "." then [] else c :: before_dot t
  end.

Fixpoint after_dot (m : str) : str :=
  match m with
  | [] => []
  | c :: t => if Ascii.eqb c "." then t else after_dot t
  end.

Definition float_of_str (m : str) : Q :=
  let frac := after_dot m in
  inject_Z (int_of_digits (before_dot m))
  + inject_Z (int_of_digits frac)
    / inject_Z (10 ^ Z.of_nat (List.length frac)).

(** The line boundaries of [str.splitlines] below 256: LF, VT, FF, CR,
    FS, GS, RS and NEL. *)
Definition is_linebreak (c : ascii) : bool :=
  (in_range 10 13 c || in_range 28 30 c || N.eqb (code c) 133)%bool.

(** [s.splitlines()]: the lines without their boundaries; CR LF is one
    boundary, and a boundary at the very end opens no further line.
    [cur] is the line being read, in reverse. *)
Fixpoint splitlines_acc (cur : str) (s : str) : list str :=
  match s with
  | [] => match cur with [] => [] | _ => [rev cur] end
  | c :: t =>
      if is_linebreak c then
        match t with
        | d :: t' =>
            if (N.eqb (code c) 13 && N.eqb (code d) 10)%bool
            then rev cur :: splitlines_acc [] t'
            else rev cur :: splitlines_acc [] t
        | [] => rev cur :: splitlines_acc [] t
        end
      else splitlines_acc (c :: cur) t
  end.

Definition splitlines (s : str) : list str := splitlines_acc [] s.

(** Upper-case and lower-case characters of the Latin-1 block, as
    [str.isupper] and [str.islower] see them. *)
Definition is_upper_char (c : ascii) : bool :=
  (in_range 65 90 c || in_range 192 214 c || in_range 216 222 c)%bool.

Definition is_lower_char (c : ascii) : bool :=
  (in_range 97 122 c || N.eqb (code c) 170 || N.eqb (code c) 181
   || N.eqb (code c) 186 || in_range 223 246 c || in_range 248 255 c)%bool.

(** [s.isupper()]: some upper-case character and no lower-case one. *)
Definition isupper (s : str) : bool :=
  (existsb is_upper_char s && negb (existsb is_lower_char s))%bool.

(** [s.endswith(p)] *)
Definition endswith (p s : str) : bool := startswith (rev p) (rev s).

End Py.

(** ** The part of Python's [re] the sources use

    A backtracking matcher: alternatives are tried in order, repetition is
    greedy, and the first way of matching that lets the rest of the
    pattern succeed is the match, as in [re].  Every pattern of the
    sources consumes at least one character. *)

Module Re.

Import Py.

Inductive regex : Type :=
| Eps : regex                          (* the empty pattern *)
| Cls : (ascii -> bool) -> regex       (* one character of a class *)
| Seq : regex -> regex -> regex        (* r1 r2 *)
| Alt : regex -> regex -> regex        (* r1|r2 *)
| Star : regex -> regex                (* r*, greedy *)
| Grp : regex -> regex                 (* (r), the capturing group *)
| Bnd : regex.                         (* \b *)

Definition Chr (c : ascii) : regex := Cls (Ascii.eqb c).
Definition Plus (r : regex) : regex := Seq r (Star r).
Definition Opt (r : regex) : regex := Alt r Eps.

Fixpoint Lit (s : str) : regex :=
  match s with
  | [] => Eps
  | c :: t => Seq (Chr c) (Lit t)
  end.

Fixpoint Alts (rs : list regex) : regex :=
  match rs with
  | [] => Cls (fun _ => false)
  | [r] => r
  | r :: rest => Alt r (Alts rest)
  end.

(** [r{n,}] *)
Fixpoint AtLeast (n : nat) (r : regex) : regex :=
  match n with
  | O => Star r
  | S n' => Seq r (AtLeast n' r)
  end.

(** [\b] holds where exactly one of the neighbouring characters is a word
    character; the ends of the text count as non-word. *)
Definition word_before (prev : option ascii) : bool :=
  match prev with Some c => isword c | None => false end.

Definition word_after (s : str) : bool :=
  match s with c :: _ => isword c | [] => false end.

Definition at_boundary (prev : option ascii) (s : str) : bool :=
  xorb (word_before prev) (word_after s).

(** [run r prev s g k] matches [r] at the head of [s], where [prev] is the
    character before [s] and [g] the text of the group so far, and hands
    the character before the rest, the rest and the group to [k]; when [k]
    fails the next way of matching [r] is tried.  A repetition over a text
    of [n] characters iterates at most [n] times, an iteration that
    consumes nothing is not taken. *)
Fixpoint run (A : Type) (r : regex) (prev : option ascii) (s : str)
    (g : option str) (k : option ascii -> str -> option str -> option A)
    {struct r} : option A :=
  match r with
  | Eps => k prev s g
  | Cls p =>
      match s with
      | c :: t => if p c then k (Some c) t g else None
      | [] => None
      end
  | Seq a b => run a prev s g (fun prev' s' g' => run b prev' s' g' k)
  | Alt a b =>
      match run a prev s g k with
      | Some x => Some x
      | None => run b prev s g k
      end
  | Star a =>
      (fix loop (n : nat) (prev : option ascii) (s : str) (g : option str)
         {struct n} : option A :=
         match n with
         | O => k prev s g
         | S n' =>
             match run a prev s g
                     (fun prev' s' g' =>
                        if Nat.ltb (List.length s') (List.length s)
                        then loop n' prev' s' g' else None) with
             | Some x => Some x
             | None => k prev s g
             end
         end) (List.length s) prev s g
  | Grp a =>
      run a prev s g
        (fun prev' s' _ =>
           k prev' s' (Some (firstn (List.length s - List.length s') s)))
  | Bnd => if at_boundary prev s then k prev s g else None
  end.

(** A match: the matched text and the text of the group, if it took part. *)
Record found : Type := Found { whole : str; group : option str }.

(** The match of [r] that starts at the head of [s], with the number of
    characters it spans. *)
Definition match_here (r : regex) (prev : option ascii) (s : str)
  : option (nat * found) :=
  run r prev s None
    (fun _ s' g =>
       let n := List.length s - List.length s' in
       Some (n, Found (firstn n s) g)).

(** [re.search(r, s)]: the leftmost match, with its start and end. *)
Fixpoint search_from (r : regex) (prev : option ascii) (s : str) (pos : nat)
  : option (nat * nat * found) :=
  match match_here r prev s with
  | Some (n, m) => Some (pos, pos + n, m)
  | None =>
      match s with
      | [] => None
      | c :: t => search_from r (Some c) t (S pos)
      end
  end.

Definition search (r : regex) (s : str) : option (nat * nat * found) :=
  search_from r None s 0.

(** [re.finditer(r, s)]: the matches from left to right, none overlapping
    an earlier one.  [skip] characters of the last match are still to be
    passed over. *)
Fixpoint finditer_from (r : regex) (prev : option ascii) (s : str)
    (skip : nat) : list found :=
  match s with
  | [] => []
  | c :: t =>
      match skip with
      | S n => finditer_from r (Some c) t n
      | O =>
          match match_here r prev s with
          | Some (n, m) => m :: finditer_from r (Some c) t (n - 1)
          | None => finditer_from r (Some c) t 0
          end
      end
  end.

Definition finditer (r : regex) (s : str) : list found :=
  finditer_from r None s 0.

(** [re.findall(r, s)] for a pattern without a group, and for a pattern
    with one group. *)
Definition findall (r : regex) (s : str) : list str :=
  map whole (finditer r s).

Definition findall_group (r : regex) (s : str) : list str :=
  map (fun m => match group m with Some g => g | None => [] end)
      (finditer r s).

(** [re.sub(r, repl, s)] for a literal replacement. *)
Fixpoint sub_from (r : regex) (repl : str) (prev : option ascii) (s : str)
    (skip : nat) : str :=
  match s with
  | [] => []
  | c :: t =>
      match skip with
      | S n => sub_from r repl (Some c) t n
      | O =>
          match match_here r prev s with
          | Some (S n, _) => repl ++ sub_from r repl (Some c) t n
          | _ => c :: sub_from r repl (Some c) t 0
          end
      end
  end.

Definition sub (r : regex) (repl : str) (s : str) : str :=
  sub_from r repl None s 0.

(** [re.split(r, s)] for a pattern without a group: the pieces of [s]
    between the matches.  [cur] is the piece being read, in reverse. *)
Fixpoint re_split_from (r : regex) (prev : option ascii) (s : str)
    (skip : nat) (cur : str) : list str :=
  match s with
  | [] => [rev cur]
  | c :: t =>
      match skip with
      | S n => re_split_from r (Some c) t n cur
      | O =>
          match match_here r prev s with
          | Some (S n, _) => rev cur :: re_split_from r (Some c) t n []
          | _ => re_split_from r (Some c) t 0 (c :: cur)
          end
      end
  end.

Definition re_split (r : regex) (s : str) : list str :=
  re_split_from r None s 0 [].

End Re.

(** ** text_cleaner.py *)

Module TextCleaner.

Import Py Re.

(** [word in stop_words] *)
Definition in_set (w : str) (xs : list str) : bool :=
  existsb (str_eqb w) xs.

(** [clean_text(text, stop_words)].  The stop words are a set of strings
    or [None]; only its truth value (non-empty) and membership are used,
    so the set is given by a list of its elements. *)
Definition clean_text (text : str) (stop_words : option (list str)) : str :=
  match text with
  | [] => []
  | _ :: _ =>
      (* text.lower() *)
      let text := lower text in
      (* re.sub("[^a-z\s]", " ", text) *)
      let text :=
        sub (Cls (fun c => negb (is_a_z c || isspace c))) (lit " ") text in
      (* re.sub("\s+", " ", text).strip() *)
      let text := strip (sub (Plus (Cls isspace)) (lit " ") text) in
      match stop_words with
      | Some ((_ :: _) as stop_words) =>
          join (lit " ")
               (filter (fun word => negb (in_set word stop_words))
                       (split text))
      | _ => text
      end
  end.

(** [detect_formatting_risks(text)] *)
Definition detect_formatting_risks (text : str) : list str :=
  let risks := @nil str in
  let lines :=
    filter (fun ln => match strip ln with [] => false | _ => true end)
           (splitlines text) in
  match lines with
  | [] => risks ++ [lit "Empty or unreadable document"]
  | _ :: _ =>
      let all_caps :=
        filter (fun ln => (isupper (strip ln)
                           && Nat.ltb 10 (List.length (strip ln)))%bool)
               lines in
      let all_caps_ratio :=
        (inject_Z (Z.of_nat (List.length all_caps))
         / inject_Z (Z.of_nat (Nat.max 1 (List.length lines))))%Q in
      if Py.ltb 0.2%Q all_caps_ratio
      then risks ++ [lit "Excessive ALL-CAPS lines"]
      else risks
  end.

(** [normalize_whitespace(text)] *)
Definition normalize_whitespace (text : str) : str :=
  match text with
  | [] => []
  | _ :: _ =>
      let text := sub (Plus (Cls isspace)) (lit " ") text in
      strip text
  end.

(** The class of [remove_special_characters]: everything but the ASCII
    letters and digits, white space and the characters of [keep_chars]
    (which [re.escape] makes literal inside the class). *)
Definition is_special (keep_chars : str) (c : ascii) : bool :=
  negb (is_a_z c || in_range 65 90 c || in_range 48 57 c || isspace c
        || existsb (Ascii.eqb c) keep_chars).

(** [remove_special_characters(text, keep_chars)] *)
Definition remove_special_characters (text keep_chars : str) : str :=
  match text with
  | [] => []
  | _ :: _ => sub (Cls (is_special keep_chars)) (lit " ") text
  end.

End TextCleaner.

(** ** extractor.py *)

Module Extractor.

Import Py Re.

(** The literal of [KNOWN_SKILLS], in source order.  It is a set: an
    element written twice is there once, and the order in which Python
    visits it is unspecified; the scorer only counts the skills found. *)
Definition KNOWN_SKILLS_literal : list string := [
  (* Programming Languages *)
  "python"; "java"; "javascript"; "typescript"; "c"; "c++"; "c#"; "go";
  "golang"; "rust"; "ruby"; "php"; "swift"; "kotlin"; "scala"; "r";
  "matlab"; "perl"; "lua"; "haskell"; "elixir"; "clojure"; "dart";
  "objective-c"; "assembly"; "fortran"; "cobol"; "visual basic"; "vb.net";
  "f#"; "groovy"; "julia";
  (* Web Frontend *)
  "html"; "html5"; "css"; "css3"; "sass"; "scss"; "less"; "tailwind";
  "tailwindcss"; "bootstrap"; "react"; "reactjs"; "react.js"; "angular";
  "angularjs"; "vue"; "vuejs"; "vue.js"; "svelte"; "nextjs"; "next.js";
  "nuxt"; "nuxtjs"; "gatsby"; "jquery"; "webpack"; "vite"; "parcel";
  "rollup"; "babel"; "redux"; "mobx"; "zustand"; "graphql"; "apollo";
  "material-ui"; "mui"; "chakra"; "ant design"; "styled-components";
  (* Web Backend *)
  "node"; "nodejs"; "node.js"; "express"; "expressjs"; "fastify"; "koa";
  "nestjs"; "django"; "flask"; "fastapi"; "spring"; "spring boot";
  "springboot"; "rails"; "ruby on rails"; "laravel"; "symfony"; "asp.net";
  ".net"; "dotnet"; ".net core"; "gin"; "echo"; "fiber"; "actix"; "rocket";
  "phoenix"; "phoenix framework";
  (* Databases *)
  "sql"; "mysql"; "postgresql"; "postgres"; "mongodb"; "sqlite"; "oracle";
  "redis"; "cassandra"; "dynamodb"; "elasticsearch"; "mariadb"; "couchdb";
  "neo4j"; "firestore"; "firebase"; "supabase"; "prisma"; "sequelize";
  "typeorm"; "mongoose"; "knex"; "influxdb"; "timescaledb"; "cockroachdb";
  "planetscale";
  (* Cloud & DevOps *)
  "aws"; "amazon web services"; "azure"; "gcp"; "google cloud";
  "google cloud platform"; "docker"; "kubernetes"; "k8s"; "terraform";
  "ansible"; "jenkins"; "circleci"; "github actions"; "gitlab ci";
  "travis ci"; "argo"; "helm"; "istio"; "prometheus"; "grafana"; "datadog";
  "splunk"; "new relic"; "cloudformation"; "pulumi"; "vagrant"; "packer";
  "consul"; "vault"; "nomad"; "serverless"; "lambda"; "ec2"; "s3"; "rds";
  "cloudfront"; "route53"; "elastic beanstalk"; "ecs"; "eks"; "fargate";
  "cloudwatch";
  (* Data & ML *)
  "machine learning"; "ml"; "deep learning"; "neural networks";
  "tensorflow"; "pytorch"; "keras"; "scikit-learn"; "sklearn"; "pandas";
  "numpy"; "scipy"; "matplotlib"; "seaborn"; "plotly"; "jupyter";
  "jupyter notebook"; "data science"; "data analysis"; "data engineering";
  "etl"; "spark"; "apache spark"; "pyspark"; "hadoop"; "hive"; "kafka";
  "airflow"; "dbt"; "snowflake"; "bigquery"; "redshift"; "databricks";
  "nlp"; "natural language processing"; "computer vision"; "opencv"; "llm";
  "langchain"; "hugging face"; "transformers"; "bert"; "gpt"; "openai";
  "rag";
  (* Mobile *)
  "android"; "ios"; "react native"; "flutter"; "xamarin"; "ionic";
  "cordova"; "swiftui"; "uikit"; "jetpack compose"; "android studio";
  "xcode";
  (* Testing *)
  "jest"; "mocha"; "chai"; "jasmine"; "playwright"; "cypress"; "selenium";
  "pytest"; "unittest"; "junit"; "testng"; "mockito"; "rspec"; "enzyme";
  "testing library"; "puppeteer"; "webdriver"; "postman"; "insomnia"; "k6";
  "locust"; "jmeter"; "load testing"; "unit testing";
  "integration testing"; "e2e testing";
  (* Version Control & Collaboration *)
  "git"; "github"; "gitlab"; "bitbucket"; "svn"; "mercurial"; "jira";
  "confluence"; "trello"; "asana"; "slack"; "notion"; "linear"; "figma";
  "sketch"; "adobe xd";
  (* Methodologies *)
  "agile"; "scrum"; "kanban"; "devops"; "devsecops"; "ci/cd"; "cicd";
  "tdd"; "bdd"; "microservices"; "soa"; "rest"; "restful"; "api"; "apis";
  "oauth"; "jwt"; "sso"; "saml"; "oidc"; "graphql"; "grpc"; "websocket";
  "websockets";
  (* Other *)
  "linux"; "unix"; "bash"; "shell"; "powershell"; "windows server";
  "nginx"; "apache"; "iis"; "rabbitmq"; "zeromq"; "celery"; "cron";
  "systemd"; "embedded"; "iot"; "raspberry pi"; "arduino"; "mqtt";
  "blockchain"; "solidity"; "web3"; "rust"; "wasm"; "webassembly";
  "electron"; "tauri"; "pwa"
]%string.

Definition KNOWN_SKILLS : list str := distinct (map lit KNOWN_SKILLS_literal).

(** [normalize_skill(skill)] *)
Definition normalize_skill (skill : str) : str :=
  match skill with
  | [] => []
  | _ :: _ =>
      let normalized := strip (lower skill) in
      sub (Plus (Cls isspace)) (lit " ") normalized
  end.

(** [deduplicate_skills(skills)]; [seen] is the set built by the loop. *)
Fixpoint deduplicate_loop (seen : list str) (skills : list str) : list str :=
  match skills with
  | [] => []
  | skill :: rest =>
      let normalized := normalize_skill skill in
      match normalized with
      | _ :: _ =>
          if TextCleaner.in_set normalized seen
          then deduplicate_loop seen rest
          else skill :: deduplicate_loop (normalized :: seen) rest
      | [] => deduplicate_loop seen rest
      end
  end.

Definition deduplicate_skills (skills : list str) : list str :=
  deduplicate_loop [] skills.

(** The pattern "\b" + re.escape(skill) + "\b" *)
Definition skill_pattern (skill : str) : regex :=
  Seq Bnd (Seq (Lit skill) Bnd).

(** [extract_skills_from_resume(text)] *)
Definition extract_skills_from_resume (text : str) : list str :=
  match text with
  | [] => []
  | _ :: _ =>
      let text_lower := lower text in
      let found_skills :=
        flat_map
          (fun skill =>
             match search (skill_pattern skill) text_lower with
             | Some (start, stop, _) => [slice text start stop]
             | None => []
             end)
          KNOWN_SKILLS in
      deduplicate_skills found_skills
  end.

(** The delimiters of a skills section: newline, comma, semicolon and
    pipe.  The bullet of the pattern is no code point below 256. *)
Definition is_delimiter (c : ascii) : bool :=
  (N.eqb (code c) 10 || Ascii.eqb c "," || Ascii.eqb c ";"
   || Ascii.eqb c "|")%bool.

(** [extract_skills_from_section(section_text)] *)
Definition extract_skills_from_section (section_text : option str)
  : list str :=
  match section_text with
  | Some ((_ :: _) as section_text) =>
      let tokens := re_split (Plus (Cls is_delimiter)) section_text in
      flat_map
        (fun t =>
           let s := strip t in
           if (Nat.leb 2 (List.length s) && Nat.leb (List.length s) 60)%bool
           then [s] else [])
        tokens
  | _ => []
  end.

(** The class of the keyword pattern: a word character, a dot, a hyphen
    or a plus. *)
Definition is_keyword_char (c : ascii) : bool :=
  (isword c || Ascii.eqb c "." || Ascii.eqb c "-" || Ascii.eqb c "+")%bool.

(** [extract_keywords(text, min_length, max_length)] *)
Definition extract_keywords (text : str) (min_length max_length : Z)
  : list str :=
  match text with
  | [] => []
  | _ :: _ =>
      let words := findall (Plus (Cls is_keyword_char)) text in
      filter
        (fun word =>
           (Z.leb min_length (Z.of_nat (List.length word))
            && Z.leb (Z.of_nat (List.length word)) max_length)%bool)
        words
  end.

End Extractor.

(** ** parser.py *)

Module Parser.

Import Py Re.

(** The dictionary [{'email': _, 'phone': _}]. *)
Record contact_info : Type := ContactInfo {
  email : option str;
  phone : option str
}.

(** "[\w\.-]+@[\w\.-]+" *)
Definition email_re : regex :=
  let part :=
    Plus (Cls (fun c => isword c || Ascii.eqb c "." || Ascii.eqb c "-")) in
  Seq part (Seq (Chr "@") part).

(** "(\+?\d[\d\s\-()]{6,}\d)" *)
Definition phone_re : regex :=
  let inner :=
    Cls (fun c => isdigit c || isspace c || Ascii.eqb c "-"
                  || Ascii.eqb c "(" || Ascii.eqb c ")") in
  Grp (Seq (Opt (Chr "+"))
           (Seq (Cls isdigit) (Seq (AtLeast 6 inner) (Cls isdigit)))).

(** [m.group(0) if m else None] *)
Definition group0 (m : option (nat * nat * found)) : option str :=
  match m with
  | Some (_, _, f) => Some (whole f)
  | None => None
  end.

(** [extract_contact_info(text)] *)
Definition extract_contact_info (text : str) : contact_info :=
  let email := search email_re text in
  let phone := search phone_re text in
  ContactInfo (group0 email) (group0 phone).

(** What a call into pdfminer or python-docx does: it returns a value or
    raises an exception, of which the callers read the message [str(e)]
    only. *)
Inductive outcome (A : Type) : Type :=
| Returns : A -> outcome A
| Raises : str -> outcome A.

Arguments Raises {A} _.

Section SafeExtract.

(** The uploaded bytes, pdfminer's [extract_text] on them, and the texts
    of the paragraphs of [docx.Document] on them. *)
Variable bytes : Type.
Variable extract_text_from_pdf : bytes -> outcome (option str).
Variable docx_paragraphs : bytes -> outcome (list str).

(** [extract_text_from_docx_bytes(data)]; an exception is raised again. *)
Definition extract_text_from_docx_bytes (data : bytes) : outcome str :=
  match docx_paragraphs data with
  | Returns full_text => Returns (join ["010"%char] full_text)
  | Raises e => Raises e
  end.

(** [safe_extract_text(file_bytes, filename)].  Each parser is called
    inside its own [try], which catches every exception it raises, so the
    outer handler is never entered. *)
Definition safe_extract_text (file_bytes : bytes) (filename : str)
  : str * list str :=
  let errors := @nil str in
  let text := Some (@nil ascii) in
  let lower := Py.lower filename in
  let '(text, errors) :=
    if endswith (lit ".pdf") lower then
      match extract_text_from_pdf file_bytes with
      | Returns t => (t, errors)
      | Raises e => (text, errors ++ [lit "PDF parsing error: " ++ e])
      end
    else if (endswith (lit ".docx") lower || endswith (lit ".doc") lower)%bool
    then
      match extract_text_from_docx_bytes file_bytes with
      | Returns t => (Some t, errors)
      | Raises e => (text, errors ++ [lit "DOCX parsing error: " ++ e])
      end
    else (text, errors ++ [lit "Unsupported file extension"]) in
  (* text = text or '' *)
  let text := match text with Some t => t | None => [] end in
  (text, errors).

End SafeExtract.

End Parser.

(** ** scorer.py *)

Module Scorer.

Import Py Re.

Local Open Scope Q_scope.

Definition lits (xs : list string) : list str := map lit xs.

(** [(?:w1|w2|...)] *)
Definition Words (xs : list string) : regex := Alts (map Lit (lits xs)).

(** A value is true when it is a non-empty string. *)
Definition truthy (v : option str) : bool :=
  match v with
  | Some (_ :: _) => true
  | _ => false
  end.

Definition nonempty (s : str) : bool :=
  match s with
  | [] => false
  | _ :: _ => true
  end.

(** [float(n)] for an integer count. *)
Definition of_nat (n : nat) : Q := inject_Z (Z.of_nat n).

(** [_score_education(education_text, full_text)] *)
Definition _score_education (education_text full_text : str) : Q :=
  if (negb (nonempty education_text)
      && negb (contains (lit "education") full_text))%bool
  then 0.0
  else
    let text := lower (education_text ++ lit " " ++ full_text) in
    let score := 2.0 in
    let score :=
      if any_in (lits ["ph.d"; "phd"; "doctorate"; "doctoral"]%string) text
      then score + 5.0
      else if any_in (lits ["master"; "m.s."; "m.sc"; "mba"; "m.tech";
                            "mtech"]%string) text
      then score + 4.0
      else if any_in (lits ["bachelor"; "b.s."; "b.sc"; "b.tech"; "btech";
                            "b.e."; "undergraduate"]%string) text
      then score + 3.0
      else if any_in (lits ["diploma"; "associate"; "certificate"]%string) text
      then score + 1.5
      else score in
    let relevant_fields :=
      lits ["computer science"; "software"; "engineering";
            "information technology"; "data science";
            "artificial intelligence"; "machine learning"; "mathematics";
            "electrical"; "electronics"; "cs"; "cse"; "it"; "ece"]%string in
    let score :=
      if any_in relevant_fields text then score + 1.5 else score in
    let top_schools :=
      lits ["mit"; "stanford"; "iit"; "nit"; "iiit"; "bits"; "harvard";
            "berkeley"; "carnegie mellon"; "georgia tech"; "caltech";
            "oxford"; "cambridge"]%string in
    let score :=
      if any_in top_schools text then score + 1.0 else score in
    Py.min 10.0 score.

(** The two duration patterns, each with its source text, which the loop
    inspects; written with blanks between the tokens they are
    "( \d+ \.? \d* ) \s* (?: years? | yrs? )" and
    "( \d+ \.? \d* ) \s* (?: months? | mos? )".  The source text is put
    together from two pieces. *)
Definition number_group : regex :=
  Grp (Seq (Plus (Cls isdigit)) (Seq (Opt (Chr ".")) (Star (Cls isdigit)))).

Definition duration_patterns : list (str * regex) :=
  [ (lit "(\d+\.?\d*" ++ lit ")\s*(?:years?|yrs?)",
     Seq number_group
         (Seq (Star (Cls isspace))
              (Alt (Seq (Lit (lit "year")) (Opt (Chr "s")))
                   (Seq (Lit (lit "yr")) (Opt (Chr "s"))))));
    (lit "(\d+\.?\d*" ++ lit ")\s*(?:months?|mos?)",
     Seq number_group
         (Seq (Star (Cls isspace))
              (Alt (Seq (Lit (lit "month")) (Opt (Chr "s")))
                   (Seq (Lit (lit "mo")) (Opt (Chr "s")))))) ].

(** The months summed by the two nested loops over the patterns and their
    matches. *)
Definition duration_months (text : str) : Q :=
  fold_left
    (fun total_months (pattern : str * regex) =>
       fold_left
         (fun total_months m =>
            let val := float_of_str m in
            if (contains (lit "year") (fst pattern)
                || contains (lit "yr") (fst pattern))%bool
            then total_months + val * 12
            else total_months + val)
         (findall_group (snd pattern) text) total_months)
    duration_patterns 0.

(** "20[12]\d" *)
Definition year_re : regex :=
  Seq (Lit (lit "20"))
      (Seq (Cls (fun c => Ascii.eqb c "1" || Ascii.eqb c "2"))
           (Cls isdigit)).

(** "\d+%|\$\d+[kmb]?|\d+\s*(?:users|customers|...|developers)" *)
Definition metrics_re : regex :=
  Alts [ Seq (Plus (Cls isdigit)) (Chr "%");
         Seq (Chr "$")
             (Seq (Plus (Cls isdigit))
                  (Opt (Cls (fun c => Ascii.eqb c "k" || Ascii.eqb c "m"
                                      || Ascii.eqb c "b"))));
         Seq (Plus (Cls isdigit))
             (Seq (Star (Cls isspace))
                  (Words ["users"; "customers"; "clients"; "projects";
                          "applications"; "team"; "engineers";
                          "developers"]%string)) ].

(** [_score_experience(experience_text, full_text)] *)
Definition _score_experience (experience_text full_text : str) : Q :=
  if (negb (nonempty experience_text)
      && negb (contains (lit "experience") full_text))%bool
  then 0.0
  else
    let text := lower (experience_text ++ lit " " ++ full_text) in
    let score := 0.0 in
    let total_months := duration_months text in
    let '(score, found_duration) :=
      if Qle_bool 6 total_months then (score + 4.0, true)
      else if Qle_bool 3 total_months then (score + 3.0, true)
      else if Qle_bool 1 total_months then (score + 2.0, true)
      else (score, false) in
    let score :=
      if found_duration then score
      else
        let years := findall year_re text in
        let distinct_years := List.length (distinct years) in
        if (2 <=? distinct_years)%nat then score + 4.0
        else if ((distinct_years =? 1)%nat
                 && (contains (lit "present") text
                     || contains (lit "current") text))%bool
        then score + 4.0
        else if (distinct_years =? 1)%nat then score + 2.5
        else if (200 <? List.length text)%nat then score + 1.0
        else score in
    let action_verbs :=
      lits ["led"; "developed"; "implemented"; "designed"; "architected";
            "built"; "managed"; "created"; "optimized"; "improved";
            "reduced"; "increased"; "delivered"; "launched"; "mentored";
            "scaled"; "automated"; "integrated"; "deployed"; "spearheaded";
            "established"; "transformed"; "pioneered"]%string in
    let action_count := count_in action_verbs text in
    let score := score + Py.min 2.5 (of_nat action_count * 0.35) in
    let metrics := findall metrics_re text in
    let score := score + Py.min 2.0 (of_nat (List.length metrics) * 0.4) in
    let seniority :=
      lits ["senior"; "lead"; "principal"; "staff"; "architect"; "manager";
            "director"; "head"; "vp"; "cto"; "ceo"]%string in
    let seniority_count := count_in seniority text in
    let score := score + Py.min 1.0 (of_nat seniority_count * 0.5) in
    let top_companies :=
      lits ["google"; "amazon"; "microsoft"; "meta"; "facebook"; "apple";
            "netflix"; "uber"; "airbnb"; "stripe"; "linkedin"; "twitter";
            "salesforce"; "adobe"]%string in
    let score :=
      if any_in top_companies text then score + 0.5 else score in
    Py.min 10.0 (Py.round score 1).

(** [_score_skills(skill_count, skills_list)]; the list is not read. *)
Definition _score_skills (skill_count : Z) (skills_list : list str) : Q :=
  if (skill_count =? 0)%Z then 0.0
  else if (skill_count <=? 5)%Z
  then Py.round (2.0 + inject_Z skill_count * 0.2) 1
  else if (skill_count <=? 15)%Z
  then Py.round (3.0 + inject_Z (skill_count - 5) * 0.4) 1
  else if (skill_count <? 25)%Z
  then Py.round (7.0 + inject_Z (skill_count - 15) * 0.3) 1
  else 10.0.

(** "\d+\s*(?:users|downloads|stars|forks|views)|deployed|production|live" *)
Definition impact_re : regex :=
  Alts [ Seq (Plus (Cls isdigit))
             (Seq (Star (Cls isspace))
                  (Words ["users"; "downloads"; "stars"; "forks"; "views"]%string));
         Lit (lit "deployed"); Lit (lit "production"); Lit (lit "live") ].

(** [_score_projects(projects_text, full_text)] *)
Definition _score_projects (projects_text full_text : str) : Q :=
  let project_indicators :=
    lits ["github.com"; "project:"; "built a"; "created a"; "developed a";
          "hackathon"]%string in
  if (negb (nonempty projects_text)
      && negb (any_in project_indicators full_text))%bool
  then 0.0
  else
    let text :=
      if nonempty projects_text
      then projects_text ++ lit " " ++ full_text
      else full_text in
    let text_lower := lower text in
    let score := 2.0 in
    let tech_indicators :=
      lits ["react"; "node"; "python"; "javascript"; "typescript"; "java";
            "golang"; "rust"; "aws"; "docker"; "kubernetes"; "mongodb";
            "postgresql"; "api"; "machine learning"; "tensorflow";
            "pytorch"; "database"; "microservices"]%string in
    let tech_count := count_in tech_indicators text_lower in
    let score := score + Py.min 3.0 (of_nat tech_count * 0.5) in
    let impact_patterns := findall impact_re text_lower in
    let score :=
      score + Py.min 2.0 (of_nat (List.length impact_patterns) * 0.5) in
    let links :=
      lits ["github.com"; "gitlab.com"; "bitbucket"; "herokuapp"; "vercel";
            "netlify"; "http://"; "https://"]%string in
    let link_count := count_in links text_lower in
    let score := score + Py.min 2.0 (of_nat link_count * 0.7) in
    let project_words := count text_lower (lit "project") in
    let score :=
      if (3 <=? project_words)%nat then score + 1.0
      else if (2 <=? project_words)%nat then score + 0.5
      else score in
    Py.min 10.0 score.

(** [_score_contact(contact, full_text)] *)
Definition _score_contact (contact : Parser.contact_info) (full_text : str)
  : Q :=
  let score := 0.0 in
  let score :=
    if truthy (Parser.email contact) then score + 3.0 else score in
  let score :=
    if truthy (Parser.phone contact) then score + 2.0 else score in
  let score :=
    if (contains (lit "linkedin.com") full_text
        || contains (lit "linkedin") full_text)%bool
    then score + 2.0 else score in
  let score :=
    if (contains (lit "github.com") full_text
        || contains (lit "github") full_text)%bool
    then score + 2.0 else score in
  let portfolio_indicators :=
    lits ["portfolio"; "website"; ".com/"; ".io/"; "vercel.app";
          "netlify.app"]%string in
  let score :=
    if any_in portfolio_indicators full_text then score + 1.0 else score in
  Py.min 10.0 score.

(** "\d+%|\$\d+|\d+\s*(?:users|customers|...|applications)" *)
Definition numbers_re : regex :=
  Alts [ Seq (Plus (Cls isdigit)) (Chr "%");
         Seq (Chr "$") (Plus (Cls isdigit));
         Seq (Plus (Cls isdigit))
             (Seq (Star (Cls isspace))
                  (Words ["users"; "customers"; "engineers"; "developers";
                          "team"; "projects"; "applications"]%string)) ].

(** [_compute_experience_depth(experience_section, full_text)] *)
Definition _compute_experience_depth (experience_section full_text : str)
  : Q :=
  let text_to_analyze :=
    if nonempty experience_section then experience_section else full_text in
  let text_lower := lower text_to_analyze in
  let score := 0.0 in
  let action_verbs :=
    lits ["led"; "developed"; "implemented"; "designed"; "architected";
          "managed"; "built"; "created"; "optimized"; "improved";
          "reduced"; "increased"; "delivered"; "launched"; "mentored";
          "scaled"; "automated"; "integrated"; "deployed";
          "spearheaded"]%string in
  let action_count := count_in action_verbs text_lower in
  let score := score + Py.min 3.0 (of_nat action_count * 0.5) in
  let numbers := findall numbers_re text_lower in
  let score := score + Py.min 3.0 (of_nat (List.length numbers) * 0.75) in
  let seniority_terms :=
    lits ["senior"; "lead"; "principal"; "staff"; "architect"; "manager";
          "director"; "head of"]%string in
  let seniority_count := count_in seniority_terms text_lower in
  let score := score + Py.min 2.0 (of_nat seniority_count * 1.0) in
  let tech_terms :=
    lits ["api"; "database"; "cloud"; "aws"; "gcp"; "azure"; "kubernetes";
          "docker"; "microservices"; "ci/cd"; "agile"; "scrum"; "testing";
          "security"]%string in
  let tech_count := count_in tech_terms text_lower in
  let score := score + Py.min 2.0 (of_nat tech_count * 0.4) in
  Py.min 10.0 score.

(** The dictionary [breakdown] of the heuristic pass. *)
Record heur_breakdown : Type := HeurBreakdown {
  education : Q;
  experience : Q;
  skills : Q;
  projects : Q;
  contact : Q;
  parsingPenalty : Q
}.

(** [parsed_sections]: section name to section text or [None]. *)
Definition sections : Type := list (str * option str).

Fixpoint dict_get (d : sections) (key : str) : option (option str) :=
  match d with
  | [] => None
  | (k, v) :: rest => if str_eqb k key then Some v else dict_get rest key
  end.

(** [parsed_sections.get(key, '') or ''] *)
Definition section_text (parsed_sections : sections) (key : string) : str :=
  match dict_get parsed_sections (lit key) with
  | Some (Some text) => text
  | _ => []
  end.

(** [compute_heuristics(text, parsed_sections, parsing_errors)]; the
    running [score], [feedback] and [breakdown] are threaded through the
    five blocks and the penalty block. *)
Definition compute_heuristics (text : str) (parsed_sections : sections)
    (parsing_errors : list str) : Q * list str * heur_breakdown :=
  let score := 0.0 in
  let feedback := @nil str in
  let text_lower := lower text in
  (* education *)
  let education_text := section_text parsed_sections "education" in
  let edu_score := _score_education education_text text_lower in
  let score := score + edu_score in
  let feedback :=
    if Py.ltb edu_score 5 then
      if Qeq_bool edu_score 0
      then feedback ++ [lit "Missing or undetected Education section"]
      else feedback ++ [lit "Education section lacks detail - include degree, field, and institution"]
    else feedback in
  (* experience *)
  let experience_text := section_text parsed_sections "experience" in
  let exp_score := _score_experience experience_text text_lower in
  let score := score + exp_score in
  let feedback :=
    if Py.ltb exp_score 5 then
      if Qeq_bool exp_score 0
      then feedback ++ [lit "Missing or undetected Experience section"]
      else feedback ++ [lit "Experience lacks impact - add action verbs (led, developed, increased) and quantified results (40%, $1M, 10K users)"]
    else feedback in
  (* skills *)
  let all_skills := Extractor.extract_skills_from_resume text in
  let skill_count := List.length all_skills in
  let skills_score := _score_skills (Z.of_nat skill_count) all_skills in
  let score := score + skills_score in
  let feedback :=
    if Py.ltb skills_score 5
    then feedback ++ [lit "Only " ++ str_of_nat skill_count
                      ++ lit " technical skills detected - add more relevant technologies (target: 20+)"]
    else feedback in
  (* projects *)
  let projects_text := section_text parsed_sections "projects" in
  let proj_score := _score_projects projects_text text_lower in
  let score := score + proj_score in
  let feedback :=
    if Py.ltb proj_score 5 then
      if Qeq_bool proj_score 0
      then feedback ++ [lit "Missing Projects section - showcase your work with technical details"]
      else feedback ++ [lit "Projects need more detail - include tech stack, your role, and impact"]
    else feedback in
  (* contact *)
  let contact := Parser.extract_contact_info text in
  let contact_score := _score_contact contact text_lower in
  let score := score + contact_score in
  let feedback :=
    if Py.ltb contact_score 5
    then feedback ++ [lit "Contact info incomplete - add email, phone, and LinkedIn/GitHub"]
    else feedback in
  (* parsing penalty *)
  let '(score, feedback, parsing_penalty) :=
    match parsing_errors with
    | [] => (score, feedback, 0)
    | _ :: _ =>
        let penalty :=
          inject_Z (Z.min 10 (Z.of_nat (List.length parsing_errors) * 5)) in
        (score - penalty,
         feedback ++ [lit "Parsing issues detected: "
                      ++ join (lit "; ") (firstn 3 parsing_errors)],
         - penalty)
    end in
  let score := Py.max 0.0 (Py.min 50.0 score) in
  (score, feedback,
   HeurBreakdown (Py.round edu_score 1) (Py.round exp_score 1)
                 (Py.round skills_score 1) (Py.round proj_score 1)
                 (Py.round contact_score 1) parsing_penalty).

(** The dictionary [{'heuristics': _, 'relevance': _, 'scalingFactor': _}]
    returned next to the total. *)
Record norm_breakdown : Type := NormBreakdown {
  heuristics : Q;
  relevance : Q;
  scalingFactor : Q
}.

(** [relevance is None or relevance == 0.0] *)
Definition no_jd (relevance : option Q) : bool :=
  match relevance with
  | None => true
  | Some r => Qeq_bool r 0.0
  end.

Definition normalize_score (heuristics_score : Q) (relevance : option Q)
  : Q * norm_breakdown :=
  let SCALE_WITH_JD := 0.98 in
  let SCALE_WITHOUT_JD := 0.98 in
  let '(total, breakdown) :=
    if no_jd relevance then
      let raw_total := heuristics_score * 2.0 in
      let total := raw_total * SCALE_WITHOUT_JD in
      (total,
       NormBreakdown (Py.round (heuristics_score * 2.0) 2) 0.0
                     SCALE_WITHOUT_JD)
    else
      (* here [relevance] is a float other than zero *)
      let relevance := match relevance with Some r => r | None => 0.0 end in
      let relevance_component :=
        if Py.ltb relevance 0.3 then relevance * 35.0
        else if Py.ltb relevance 0.6 then 10.5 + (relevance - 0.3) * 45.0
        else 24 + (relevance - 0.6) * 65.0 in
      let raw_total := heuristics_score + relevance_component in
      let total := raw_total * SCALE_WITH_JD in
      (total,
       NormBreakdown (Py.round heuristics_score 2)
                     (Py.round relevance_component 2) SCALE_WITH_JD) in
  let total := Py.max 0.0 (Py.min 100.0 total) in
  (Py.round total 2, breakdown).

End Scorer.

(** ** Python floats

    A Python [float] is a binary64 number: a primitive float of Rocq.  A
    decimal literal denotes the nearest binary64 number, here as in
    Python, and the arithmetic operations round to nearest, ties to
    even. *)

Module PyFloat.

(** The binary64 number nearest to the positive rational [q], ties to the
    even mantissa; [e] is the exponent of the last mantissa bit. *)
Definition nearest (q : Q) : float :=
  let n := Qnum q in
  let d := Zpos (Qden q) in
  let l := (Z.log2 n - Z.log2 d)%Z in
  let E := if Qle_bool (2 ^ l) q then l else (l - 1)%Z in
  let e := Z.max (E - 52) (-1074) in
  let m := Py.round_half_even (q / 2 ^ e) in
  Z.ldexp (of_uint63 (Uint63.of_Z m)) e.

(** [round(x, ndigits)] for [ndigits >= 0]: the exact value of [x] is
    rounded to [ndigits] decimals, ties to even, and the decimal result is
    read back as the nearest binary64 number, with the sign of [x]; zeros,
    infinities and NaN are returned as they are. *)
Definition round (x : float) (ndigits : nat) : float :=
  match Prim2SF x with
  | S754_finite s m e =>
      let p := inject_Z (10 ^ Z.of_nat ndigits) in
      let n := Py.round_half_even (inject_Z (Zpos m) * 2 ^ e * p)%Q in
      if (n =? 0)%Z then (if s then (-0)%float else 0%float)
      else
        let r := nearest (inject_Z n / p) in
        if s then (- r)%float else r
  | _ => x
  end.

(** [min(a, b)] and [max(a, b)]: the first argument unless the second is
    smaller (larger); a NaN never is. *)
Definition min (a b : float) : float := if (b <? a)%float then b else a.
Definition max (a b : float) : float := if (a <? b)%float then b else a.

End PyFloat.

(** ** scorer.py on binary64 *)

Module ScorerFloat.

Import Py.

Local Open Scope float_scope.

(** The dictionary [{'heuristics': _, 'relevance': _, 'scalingFactor': _}]. *)
Record norm_breakdown : Type := NormBreakdown {
  heuristics : float;
  relevance : float;
  scalingFactor : float
}.

(** [relevance is None or relevance == 0.0] *)
Definition no_jd (relevance : option float) : bool :=
  match relevance with
  | None => true
  | Some r => r =? 0.0
  end.

(** [normalize_score(heuristics_score, relevance)] *)
Definition normalize_score (heuristics_score : float) (relevance : option float)
  : float * norm_breakdown :=
  let SCALE_WITH_JD := 0.98 in
  let SCALE_WITHOUT_JD := 0.98 in
  let '(total, breakdown) :=
    if no_jd relevance then
      let raw_total := heuristics_score * 2.0 in
      let total := raw_total * SCALE_WITHOUT_JD in
      (total,
       NormBreakdown (PyFloat.round (heuristics_score * 2.0) 2) 0.0
                     SCALE_WITHOUT_JD)
    else
      (* here [relevance] is a float other than zero *)
      let relevance := match relevance with Some r => r | None => 0.0 end in
      let relevance_component :=
        if relevance <? 0.3 then relevance * 35.0
        else if relevance <? 0.6 then 10.5 + (relevance - 0.3) * 45.0
        else 24 + (relevance - 0.6) * 65.0 in
      let raw_total := heuristics_score + relevance_component in
      let total := raw_total * SCALE_WITH_JD in
      (total,
       NormBreakdown (PyFloat.round heuristics_score 2)
                     (PyFloat.round relevance_component 2) SCALE_WITH_JD) in
  let total := PyFloat.max 0.0 (PyFloat.min 100.0 total) in
  (PyFloat.round total 2, breakdown).

(** *** The relevance estimator *)

(** Exceptions: a computation returns or raises, [bind] passes an
    exception on and [try_except] hands it to the handler of an
    [except Exception] clause. *)
Definition bind (A B : Type) (m : Parser.outcome A)
    (f : A -> Parser.outcome B) : Parser.outcome B :=
  match m with
  | Parser.Returns a => f a
  | Parser.Raises e => Parser.Raises e
  end.

Definition try_except (A : Type) (body : Parser.outcome A)
    (handler : str -> Parser.outcome A) : Parser.outcome A :=
  match body with
  | Parser.Returns a => Parser.Returns a
  | Parser.Raises e => handler e
  end.

Section Relevance.

(** The calls into scikit-learn and the embedding model.  [matrix] is
    what [TfidfVectorizer(stop_words='english').fit_transform] returns,
    [shape0] its number of rows, and [tfidf_similarity tfidf] stands for
    [cosine_similarity(tfidf[0:1], tfidf[1:2])[0, 0]]; [encode] is
    [sbert_model.encode] and [embedding_similarity a b] stands for
    [cosine_similarity(a, b)[0][0]].  Each of them returns or raises. *)
Variable matrix : Type.
Variable fit_transform : list str -> Parser.outcome matrix.
Variable shape0 : matrix -> Z.
Variable tfidf_similarity : matrix -> Parser.outcome float.
Variable model : Type.
Variable embedding : Type.
Variable encode : model -> list str -> Parser.outcome embedding.
Variable embedding_similarity :
  embedding -> embedding -> Parser.outcome float.

(** [compute_relevance_tfidf(resume_text, job_text)] *)
Definition compute_relevance_tfidf (resume_text job_text : str)
  : Parser.outcome float :=
  try_except
    (bind (fit_transform [job_text; resume_text]) (fun tfidf =>
     if (shape0 tfidf <? 2)%Z then Parser.Returns 0.0
     else
       bind (tfidf_similarity tfidf) (fun sim =>
       if is_nan sim then Parser.Returns 0.0
       else Parser.Returns sim)))
    (fun _ => Parser.Returns 0.0).

(** [ats_similarity_score_sbert(resume_text, jd_text, sbert_model,
    sbert_enabled, stop_words)]; [sbert_model] is [None] or a loaded
    model.  What the handler prints is left out. *)
Definition ats_similarity_score_sbert (resume_text jd_text : str)
    (sbert_model : option model) (sbert_enabled : bool)
    (stop_words : option (list str)) : Parser.outcome float :=
  match sbert_enabled, sbert_model with
  | true, Some sbert_model =>
      try_except
        (let resume_clean := TextCleaner.clean_text resume_text stop_words in
         let jd_clean := TextCleaner.clean_text jd_text stop_words in
         if (negb (Scorer.nonempty resume_clean)
             || negb (Scorer.nonempty jd_clean))%bool
         then Parser.Returns 0.0
         else
           bind (encode sbert_model [resume_clean]) (fun resume_embedding =>
           bind (encode sbert_model [jd_clean]) (fun jd_embedding =>
           bind (embedding_similarity resume_embedding jd_embedding)
             (fun similarity =>
           let similarity := PyFloat.max 0.0 (PyFloat.min 1.0 similarity) in
           Parser.Returns similarity))))
        (fun e => compute_relevance_tfidf resume_text jd_text)
  | _, _ => compute_relevance_tfidf resume_text jd_text
  end.

End Relevance.

End ScorerFloat.

(** ** Notions used to reason about [clean_text] *)

Module Norm.

Import Py.

Definition sp : ascii := " "%char.

Definition nonspace (c : ascii) : bool := negb (isspace c).

(** The length of the longest prefix of [s] inside the class [p]. *)
Fixpoint run_len (p : ascii -> bool) (s : str) : nat :=
  match s with
  | c :: t => if p c then S (run_len p t) else 0
  | [] => 0
  end.

(** Every run of white space replaced by one blank; [in_run] tells that
    the previous character was white space already. *)
Fixpoint squeeze (in_run : bool) (s : str) : str :=
  match s with
  | [] => []
  | c :: t =>
      if isspace c
      then if in_run then squeeze true t else sp :: squeeze true t
      else c :: squeeze false t
  end.

(** A word: a non-empty string over [a-z]. *)
Definition is_word (w : str) : Prop := w <> [] /\ forallb is_a_z w = true.

(** The characters the first substitution keeps, and the substitution on
    one character. *)
Definition kept (c : ascii) : bool := (is_a_z c || isspace c)%bool.

Definition blank_other (c : ascii) : ascii :=
  if negb (is_a_z c || isspace c) then sp else c.

(** What the last step of [clean_text] does to the list of words. *)
Definition drop_stop_words (stop_words : option (list str)) (ws : list str)
  : list str :=
  match stop_words with
  | Some ((_ :: _) as sw) =>
      filter (fun w => negb (TextCleaner.in_set w sw)) ws
  | _ => ws
  end.

End Norm.

(** ** Notions used to state further properties *)

Module Notions.

Import Py.

Local Open Scope Q_scope.

(** A multiple of one tenth. *)
Definition tenths (x : Q) : Prop := exists z : Z, x == inject_Z z / 10.

Local Close Scope Q_scope.

Import Re.

(** *** What a pattern matches *)

(** The character before the rest, after [w] has been read. *)
Fixpoint last_char (prev : option ascii) (w : str) : option ascii :=
  match w with
  | [] => prev
  | c :: t => last_char (Some c) t
  end.

(** [matches r prev w rest]: the pattern [r] can match the text [w] when
    [prev] is the character before it and [rest] the text after it. *)
Inductive matches : regex -> option ascii -> str -> str -> Prop :=
| m_eps prev rest : matches Eps prev [] rest
| m_cls (p : ascii -> bool) prev c rest :
    p c = true -> matches (Cls p) prev [c] rest
| m_seq a b prev w1 w2 rest :
    matches a prev w1 (w2 ++ rest) ->
    matches b (last_char prev w1) w2 rest ->
    matches (Seq a b) prev (w1 ++ w2) rest
| m_alt_l a b prev w rest :
    matches a prev w rest -> matches (Alt a b) prev w rest
| m_alt_r a b prev w rest :
    matches b prev w rest -> matches (Alt a b) prev w rest
| m_star_nil a prev rest : matches (Star a) prev [] rest
| m_star_cons a prev w1 w2 rest :
    w1 <> [] ->
    matches a prev w1 (w2 ++ rest) ->
    matches (Star a) (last_char prev w1) w2 rest ->
    matches (Star a) prev (w1 ++ w2) rest
| m_grp a prev w rest :
    matches a prev w rest -> matches (Grp a) prev w rest
| m_bnd prev rest :
    at_boundary prev rest = true -> matches Bnd prev [] rest.

(** The loop of a repetition, as [run] has it, over any matcher [body]
    for the repeated pattern. *)
Definition star_loop (A : Type)
    (body : option ascii -> str -> option str ->
            (option ascii -> str -> option str -> option A) -> option A)
    (k : option ascii -> str -> option str -> option A)
  : nat -> option ascii -> str -> option str -> option A :=
  fix loop (n : nat) (prev : option ascii) (s : str) (g : option str)
    {struct n} : option A :=
    match n with
    | O => k prev s g
    | S n' =>
        match body prev s g
                (fun prev' s' g' =>
                   if Nat.ltb (List.length s') (List.length s)
                   then loop n' prev' s' g' else None) with
        | Some x => Some x
        | None => k prev s g
        end
    end.

(** *** The classes of the contact patterns *)

(** The class of the e-mail pattern: a word character, a dot or a hyphen. *)
Definition email_char (c : ascii) : bool :=
  (isword c || Ascii.eqb c "." || Ascii.eqb c "-")%bool.

(** The class inside the phone pattern: a digit, white space, a hyphen or
    a parenthesis. *)
Definition phone_char (c : ascii) : bool :=
  (isdigit c || isspace c || Ascii.eqb c "-" || Ascii.eqb c "("
   || Ascii.eqb c ")")%bool.

(** *** Skills as words of a text *)

(** The skill stands at the head of [s] between two word boundaries. *)
Definition word_here (skill : str) (prev : option ascii) (s : str) : bool :=
  (at_boundary prev s && startswith skill s
   && at_boundary (last_char prev skill) (skipn (List.length skill) s))%bool.

(** The skill occurs in [text] between two word boundaries. *)
Definition occurs_as_word (skill text : str) : Prop :=
  exists pre post,
    text = pre ++ skill ++ post
    /\ at_boundary (last_char None pre) (skill ++ post) = true
    /\ at_boundary (last_char None (pre ++ skill)) post = true.

(** The white-space normal form of [normalize_skill], after lowering. *)
Definition squash (y : str) : str :=
  sub (Plus (Cls isspace)) (lit " ") (strip y).

(** Whether the search for a skill in the lower-cased text succeeds. *)
Definition found_in (text_lower : str) (skill : str) : bool :=
  match search (Extractor.skill_pattern skill) text_lower with
  | Some _ => true
  | None => false
  end.

(** *** Words and pieces of a text *)

(** A word of [str.split]: a non-empty string without white space. *)
Definition plain_word (w : str) : Prop :=
  w <> [] /\ forallb Norm.nonspace w = true.

(** [t] is a piece of [s]: it stands in [s] as a whole. *)
Definition piece_of (s t : str) : Prop := exists pre post, s = pre ++ t ++ post.

(** The character before, or the text after, is outside the class [p]. *)
Definition outside_before (p : ascii -> bool) (prev : option ascii) : bool :=
  match prev with Some c => negb (p c) | None => true end.

Definition outside_after (p : ascii -> bool) (s : str) : bool :=
  match s with c :: _ => negb (p c) | [] => true end.

(** [k] is a maximal run of characters of the class [p] in [s], where
    [prev] is the character before [s]. *)
Definition maximal_run (p : ascii -> bool) (prev : option ascii)
    (s k : str) : Prop :=
  exists pre post,
    s = pre ++ k ++ post
    /\ k <> [] /\ forallb p k = true
    /\ outside_before p (last_char prev pre) = true
    /\ outside_after p post = true.

End Notions.

(** ** The specification's formulas

    Definitions written after the words of the specification, to be
    compared with the embedded code. *)

Module Spec.

Local Open Scope Q_scope.

(** Section 4.8: the three-segment relevance curve. *)
Definition relevance_component (r : Q) : Q :=
  if Qlt_le_dec r (3 # 10) then r * 35
  else if Qlt_le_dec r (6 # 10) then (105 # 10) + (r - (3 # 10)) * 45
  else 24 + (r - (6 # 10)) * 65.

(** "Clamped to [lo, hi]". *)
Definition clamp (lo hi x : Q) : Q :=
  if Qlt_le_dec x lo then lo else if Qlt_le_dec hi x then hi else x.

(** Section 4.6: the parsing penalty and the sum of the five sub-scores. *)
Definition parsing_penalty (number_of_parsing_errors : nat) : Z :=
  Z.min 10 (5 * Z.of_nat number_of_parsing_errors).

Definition sub_score_sum (text : Py.str) (parsed_sections : Scorer.sections)
  : Q :=
  let text_lower := Py.lower text in
  Scorer._score_education
    (Scorer.section_text parsed_sections "education") text_lower
  + Scorer._score_experience
      (Scorer.section_text parsed_sections "experience") text_lower
  + Scorer._score_skills
      (Z.of_nat (List.length (Extractor.extract_skills_from_resume text)))
      (Extractor.extract_skills_from_resume text)
  + Scorer._score_projects
      (Scorer.section_text parsed_sections "projects") text_lower
  + Scorer._score_contact (Parser.extract_contact_info text) text_lower.

End Spec.

(** ** The specification's formulas on binary64 *)

Module SpecF64.

Local Open Scope float_scope.

(** Section 4.8: the three-segment relevance curve. *)
Definition relevance_component (r : float) : float :=
  if r <? 0.3 then r * 35
  else if r <? 0.6 then 10.5 + (r - 0.3) * 45
  else 24 + (r - 0.6) * 65.

(** "Clamped to [lo, hi]". *)
Definition clamp (lo hi x : float) : float :=
  PyFloat.max lo (PyFloat.min hi x).

End SpecF64.

(* ================================================================= *)
(** * Part II: properties                                             *)
(* ================================================================= *)

Open Scope Q_scope.

(** ** Arithmetic of the float model *)

Lemma ltb_true (x y : Q) : Py.ltb x y = true <-> x < y.
Proof.
  unfold Py.ltb. rewrite negb_true_iff.
  split; intro H.
  - apply Qnot_le_lt. intro Hle. apply Qle_bool_iff in Hle. congruence.
  - destruct (Qle_bool y x) eqn:E; [|reflexivity].
    apply Qle_bool_iff in E. exfalso. exact (Qlt_not_le _ _ H E).
Qed.

Lemma ltb_false (x y : Q) : Py.ltb x y = false <-> y <= x.
Proof.
  unfold Py.ltb. rewrite negb_false_iff. apply Qle_bool_iff.
Qed.

Ltac case_ltb x y :=
  let E := fresh "E" in
  destruct (Py.ltb x y) eqn:E;
  [apply ltb_true in E | apply ltb_false in E].

Lemma min_le_l (a b : Q) : Py.min a b <= a.
Proof. unfold Py.min. case_ltb b a; lra. Qed.

Lemma min_le_r (a b : Q) : Py.min a b <= b.
Proof. unfold Py.min. case_ltb b a; lra. Qed.

Lemma min_glb (a b c : Q) : c <= a -> c <= b -> c <= Py.min a b.
Proof. unfold Py.min. case_ltb b a; lra. Qed.

Lemma max_ge_l (a b : Q) : a <= Py.max a b.
Proof. unfold Py.max. case_ltb a b; lra. Qed.

Lemma max_ge_r (a b : Q) : b <= Py.max a b.
Proof. unfold Py.max. case_ltb a b; lra. Qed.

Lemma max_lub (a b c : Q) : a <= c -> b <= c -> Py.max a b <= c.
Proof. unfold Py.max. case_ltb a b; lra. Qed.

Lemma min_mono (a b b' : Q) : b <= b' -> Py.min a b <= Py.min a b'.
Proof. unfold Py.min. intros. case_ltb b a; case_ltb b' a; lra. Qed.

Lemma max_mono (a b b' : Q) : b <= b' -> Py.max a b <= Py.max a b'.
Proof. unfold Py.max. intros. case_ltb a b; case_ltb a b'; lra. Qed.

(** The clamp [max(lo, min(hi, x))] lands in [[lo, hi]]. *)
Lemma clamp_range (lo hi x : Q) :
  lo <= hi -> lo <= Py.max lo (Py.min hi x) <= hi.
Proof.
  intro H. split; [apply max_ge_l|].
  apply max_lub; [exact H | apply min_le_l].
Qed.

Lemma clamp_mono (lo hi x y : Q) :
  x <= y -> Py.max lo (Py.min hi x) <= Py.max lo (Py.min hi y).
Proof. intro H. apply max_mono, min_mono, H. Qed.

Lemma round_half_even_mono (x y : Q) :
  x <= y -> (Py.round_half_even x <= Py.round_half_even y)%Z.
Proof.
  intro Hxy. unfold Py.round_half_even.
  pose proof (Qfloor_resp_le _ _ Hxy) as Hf.
  pose proof (Qfloor_le x) as Hx1. pose proof (Qlt_floor x) as Hx2.
  pose proof (Qfloor_le y) as Hy1. pose proof (Qlt_floor y) as Hy2.
  rewrite inject_Z_plus in Hx2, Hy2.
  destruct (Z.eq_dec (Qfloor x) (Qfloor y)) as [Heq | Hne].
  - rewrite <- Heq in *.
    destruct (Qcompare_spec (x - inject_Z (Qfloor x)) (1 # 2));
      destruct (Qcompare_spec (y - inject_Z (Qfloor x)) (1 # 2));
      try destruct (Z.even (Qfloor x)); try lia; exfalso; lra.
  - assert (Qfloor x + 1 <= Qfloor y)%Z by lia.
    destruct (Qcompare_spec (x - inject_Z (Qfloor x)) (1 # 2));
      destruct (Qcompare_spec (y - inject_Z (Qfloor y)) (1 # 2));
      try destruct (Z.even (Qfloor x)); try destruct (Z.even (Qfloor y));
      lia.
Qed.

Lemma pow10_pos (n : nat) : 0 < inject_Z (10 ^ Z.of_nat n).
Proof.
  change 0 with (inject_Z 0). rewrite <- Zlt_Qlt.
  apply Z.pow_pos_nonneg; lia.
Qed.

Lemma round_mono (x y : Q) (n : nat) :
  x <= y -> Py.round x n <= Py.round y n.
Proof.
  intro Hxy. unfold Py.round.
  pose proof (pow10_pos n) as Hp.
  set (p := inject_Z (10 ^ Z.of_nat n)) in *.
  assert (Hm : x * p <= y * p) by nra.
  apply round_half_even_mono in Hm. rewrite Zle_Qle in Hm.
  apply Qmult_le_compat_r; [exact Hm|].
  apply Qlt_le_weak, Qinv_lt_0_compat, Hp.
Qed.

Lemma round_half_even_comp (x y : Q) :
  x == y -> Py.round_half_even x = Py.round_half_even y.
Proof.
  intro H. unfold Py.round_half_even.
  rewrite (Qfloor_comp _ _ H).
  assert (Hc : Qcompare (x - inject_Z (Qfloor y)) (1 # 2)
               = Qcompare (y - inject_Z (Qfloor y)) (1 # 2))
    by (rewrite H; reflexivity).
  rewrite Hc. reflexivity.
Qed.

Lemma round_comp (x y : Q) (n : nat) : x == y -> Py.round x n = Py.round y n.
Proof.
  intro H. unfold Py.round.
  set (p := inject_Z (10 ^ Z.of_nat n)).
  assert (Hp : x * p == y * p) by (rewrite H; reflexivity).
  rewrite (round_half_even_comp Hp). reflexivity.
Qed.

(** ** The score normaliser *)

Lemma clamp_spec (lo hi x : Q) :
  lo <= hi -> Py.max lo (Py.min hi x) == Spec.clamp lo hi x.
Proof.
  intro H. unfold Py.max, Py.min, Spec.clamp.
  case_ltb x hi.
  - case_ltb lo x; destruct (Qlt_le_dec x lo); destruct (Qlt_le_dec hi x);
      lra.
  - case_ltb lo hi; destruct (Qlt_le_dec x lo); destruct (Qlt_le_dec hi x);
      lra.
Qed.

Lemma no_jd_some (r : Q) : Scorer.no_jd (Some r) = true <-> r == 0.
Proof.
  unfold Scorer.no_jd. rewrite Qeq_bool_iff. split; intro H; lra.
Qed.

Lemma no_jd_some_false (r : Q) : ~ r == 0 -> Scorer.no_jd (Some r) = false.
Proof.
  intro H. destruct (Scorer.no_jd (Some r)) eqn:E; [|reflexivity].
  apply no_jd_some in E. contradiction.
Qed.

(** The component the with-JD branch adds to the heuristic score. *)
Lemma with_jd_component (r : Q) :
  (if Py.ltb r 0.3 then r * 35.0
   else if Py.ltb r 0.6 then 10.5 + (r - 0.3) * 45.0
   else 24 + (r - 0.6) * 65.0) == Spec.relevance_component r.
Proof.
  unfold Spec.relevance_component.
  case_ltb r 0.3; [|case_ltb r 0.6];
    destruct (Qlt_le_dec r (3 # 10)); try destruct (Qlt_le_dec r (6 # 10));
    lra.
Qed.

Lemma relevance_component_mono (r1 r2 : Q) :
  r1 <= r2 -> Spec.relevance_component r1 <= Spec.relevance_component r2.
Proof.
  intro H. unfold Spec.relevance_component.
  destruct (Qlt_le_dec r1 (3 # 10)); destruct (Qlt_le_dec r2 (3 # 10));
    destruct (Qlt_le_dec r1 (6 # 10)); destruct (Qlt_le_dec r2 (6 # 10));
    lra.
Qed.

Lemma normalize_score_with_jd_total (h r : Q) :
  ~ r == 0 ->
  fst (Scorer.normalize_score h (Some r))
  = Py.round (Py.max 0.0 (Py.min 100.0
               ((h + Spec.relevance_component r) * 0.98))) 2.
Proof.
  intro Hr. unfold Scorer.normalize_score.
  rewrite (no_jd_some_false Hr). cbn [fst].
  apply round_comp.
  pose proof (with_jd_component r) as Hc.
  set (c := if Py.ltb r 0.3 then _ else _) in *.
  set (s := Spec.relevance_component r) in *.
  rewrite !clamp_spec by lra.
  unfold Spec.clamp.
  destruct (Qlt_le_dec ((h + c) * 0.98) 0.0);
    destruct (Qlt_le_dec ((h + s) * 0.98) 0.0);
    destruct (Qlt_le_dec 100.0 ((h + c) * 0.98));
    destruct (Qlt_le_dec 100.0 ((h + s) * 0.98)); lra.
Qed.

Lemma normalize_score_no_jd_total (h : Q) (rel : option Q) :
  Scorer.no_jd rel = true ->
  Scorer.normalize_score h rel
  = (Py.round (Py.max 0.0 (Py.min 100.0 (h * 2.0 * 0.98))) 2,
     Scorer.NormBreakdown (Py.round (h * 2.0) 2) 0.0 0.98).
Proof.
  intro H. unfold Scorer.normalize_score. rewrite H. reflexivity.
Qed.

(** ** Python floats: order *)

Section FloatOrder.

Local Open Scope float_scope.


Lemma float_pos_nonzero (r : float) : (0 <? r) = true -> (r =? 0) = false.
Proof.
  rewrite ltb_spec, eqb_spec.
  change (Prim2SF 0) with (S754_zero false).
  destruct (Prim2SF r) as [s|s| |s m e]; try destruct s;
    intro H; try reflexivity; discriminate H.
Qed.


End FloatOrder.

(** ** The score normaliser on binary64 *)

Section NormalizeFloat.

Local Open Scope float_scope.

Lemma normalize_score_float_with_jd (h r : float) :
  (r =? 0) = false ->
  ScorerFloat.normalize_score h (Some r)
  = (PyFloat.round
       (SpecF64.clamp 0 100 ((h + SpecF64.relevance_component r) * 0.98)) 2,
     ScorerFloat.NormBreakdown
       (PyFloat.round h 2)
       (PyFloat.round (SpecF64.relevance_component r) 2) 0.98).
Proof.
  intro H. unfold ScorerFloat.normalize_score, ScorerFloat.no_jd.
  cbv zeta. rewrite H. reflexivity.
Qed.

Lemma normalize_score_float_no_jd (h : float) (relevance : option float) :
  ScorerFloat.no_jd relevance = true ->
  ScorerFloat.normalize_score h relevance
  = (PyFloat.round (SpecF64.clamp 0 100 (h * 2.0 * 0.98)) 2,
     ScorerFloat.NormBreakdown (PyFloat.round (h * 2.0) 2) 0.0 0.98).
Proof.
  intro H. unfold ScorerFloat.normalize_score. cbv zeta. rewrite H.
  reflexivity.
Qed.

(** C5.  With a job description (relevance [r > 0]) the final score is
    [(heuristic + component) * 0.98], clamped to [[0, 100]] and rounded to
    two decimals, where [component] follows the three-segment curve of the
    specification and every operation is the binary64 one; the breakdown
    records the rounded heuristic, the rounded component and the factor.
    For heuristic 50 and relevance 0.8 the component is 37 and the final
    score is 85.26; for heuristic 1.0 and relevance 0.25 the product
    9.75 * 0.98 lies below 9.555 and the final score is 9.55. *)
Theorem normalize_score_with_jd :
  (forall h r : float, (0 <? r) = true ->
     fst (ScorerFloat.normalize_score h (Some r))
     = PyFloat.round
         (SpecF64.clamp 0 100
            ((h + SpecF64.relevance_component r) * 0.98)) 2
     /\ snd (ScorerFloat.normalize_score h (Some r))
        = ScorerFloat.NormBreakdown
            (PyFloat.round h 2)
            (PyFloat.round (SpecF64.relevance_component r) 2) 0.98)
  /\ ScorerFloat.normalize_score 50 (Some 0.8)
     = (85.26, ScorerFloat.NormBreakdown 50 37 0.98)
  /\ SpecF64.relevance_component 0.8 = 37
  /\ fst (ScorerFloat.normalize_score 1.0 (Some 0.25)) = 9.55.
Proof.
  split; [|repeat split; vm_compute; reflexivity].
  intros h r Hr.
  rewrite (@normalize_score_float_with_jd h r (@float_pos_nonzero r Hr)).
  split; reflexivity.
Qed.

(** Heuristic 50 and relevance 0.8. *)
Lemma normalize_score_with_jd_witness :
  (0 <? 0.8) = true
  /\ fst (ScorerFloat.normalize_score 50 (Some 0.8)) = 85.26.
Proof.
  assert (H : (0 <? 0.8) = true) by reflexivity.
  split; [exact H|].
  rewrite (proj1 (proj1 normalize_score_with_jd 50 0.8 H)).
  vm_compute. reflexivity.
Defined.

(** C7.  A relevance equal to zero ([0.0] or [-0.0]) selects the same
    branch as no relevance at all: total and breakdown coincide, the total
    is [heuristic * 2.0 * 0.98], clamped and rounded, in binary64, and the
    breakdown records the rounded doubled heuristic, relevance 0.0 and
    scaling factor 0.98. *)
Theorem normalize_score_zero_is_none (h r : float) :
  (r =? 0) = true ->
  ScorerFloat.normalize_score h (Some r) = ScorerFloat.normalize_score h None
  /\ fst (ScorerFloat.normalize_score h (Some r))
     = PyFloat.round (PyFloat.max 0.0 (PyFloat.min 100.0 (h * 2.0 * 0.98))) 2
  /\ snd (ScorerFloat.normalize_score h (Some r))
     = ScorerFloat.NormBreakdown (PyFloat.round (h * 2.0) 2) 0.0 0.98.
Proof.
  intro Hr.
  rewrite (@normalize_score_float_no_jd h (Some r) Hr).
  rewrite (@normalize_score_float_no_jd h None eq_refl).
  repeat split.
Qed.

(** Heuristic 0.375: the product 0.75 * 0.98 lies below 0.735, so the
    total is 0.73, with [0.0] and with [-0.0]. *)
Lemma normalize_score_zero_is_none_witness :
  ScorerFloat.normalize_score 0.375 (Some 0)
  = ScorerFloat.normalize_score 0.375 None
  /\ fst (ScorerFloat.normalize_score 0.375 (Some 0)) = 0.73
  /\ fst (ScorerFloat.normalize_score 0.375 (Some (-0))) = 0.73.
Proof.
  destruct (@normalize_score_zero_is_none 0.375 0 eq_refl) as (H1 & H2 & _).
  destruct (@normalize_score_zero_is_none 0.375 (-0) eq_refl) as (_ & H3 & _).
  split; [exact H1|]. rewrite H2, H3. vm_compute. split; reflexivity.
Defined.

End NormalizeFloat.

(** ** The relevance estimator at a failing input *)

Section RelevanceAboveOne.

Local Open Scope float_scope.

(** C3.  The TF-IDF path hands on the similarity of scikit-learn without
    the clamp the embedding path applies.  For the resume and the job
    description both equal to [python developer] the two TF-IDF rows are
    [1, 1] (each word occurs in both texts, so its weight is 1);
    normalising a row gives [x, x] with [x = 1 / sqrt 2], the cosine
    normalises it again and adds the two squares: in binary64 the sum is
    1.0000000000000002, and the estimator returns it. *)
Theorem relevance_tfidf_above_one :
  let x := 1 / sqrt (1 * 1 + 1 * 1) in
  let y := x / sqrt (x * x + x * x) in
  let cosine := y * y + y * y in
  let text := Py.lit "python developer" in
  let result :=
    ScorerFloat.ats_similarity_score_sbert
      (fun _ : list Py.str => Parser.Returns tt) (fun _ : unit => 2%Z)
      (fun _ : unit => Parser.Returns cosine)
      (fun (_ : unit) (_ : list Py.str) => Parser.Returns tt)
      (fun _ _ : unit => Parser.Returns cosine)
      text text None false None in
  cosine = 1.0000000000000002
  /\ result = Parser.Returns 1.0000000000000002
  /\ (1.0000000000000002 <=? 1) = false
  /\ (1 <? 1.0000000000000002) = true.
Proof. vm_compute. repeat split. Qed.

End RelevanceAboveOne.

(** C2, as stated, fails: with heuristic 50, relevance 0.0 selects the
    no-JD branch and gives 98.0, while relevance 0.1 gives 52.43. *)
Lemma normalize_score_not_monotone :
  ~ (forall h1 h2 r1 r2 : Q,
       0 <= h1 <= 50 -> 0 <= h2 <= 50 -> 0 <= r1 <= 1 -> 0 <= r2 <= 1 ->
       h1 <= h2 -> r1 <= r2 ->
       fst (Scorer.normalize_score h1 (Some r1))
       <= fst (Scorer.normalize_score h2 (Some r2))).
Proof.
  intro H.
  specialize (H 50 50 0.0 0.1).
  assert (Hv : ~ fst (Scorer.normalize_score 50 (Some 0.0))
                 <= fst (Scorer.normalize_score 50 (Some 0.1)))
    by (vm_compute; intro Hc; apply Hc; reflexivity).
  apply Hv, H; try split; vm_compute; discriminate.
Qed.

(** C2, amended.  Within one mode the final score is non-decreasing in
    both arguments: for [h1 <= h2] and [0 <= r1 <= r2], provided both
    relevances select the same branch ([0 < r1], with a job description,
    or [r2 == 0], without). *)
Theorem normalize_score_monotone_in_mode (h1 h2 r1 r2 : Q) :
  h1 <= h2 -> 0 <= r1 -> r1 <= r2 -> 0 < r1 \/ r2 == 0 ->
  fst (Scorer.normalize_score h1 (Some r1))
  <= fst (Scorer.normalize_score h2 (Some r2)).
Proof.
  intros Hh H0 Hr [Hpos | Hzero].
  - rewrite !normalize_score_with_jd_total by lra.
    apply round_mono, clamp_mono.
    pose proof (relevance_component_mono Hr). nra.
  - assert (Hr1 : r1 == 0) by lra.
    apply no_jd_some in Hr1, Hzero.
    rewrite (normalize_score_no_jd_total h1 _ Hr1).
    rewrite (normalize_score_no_jd_total h2 _ Hzero). cbn [fst].
    apply round_mono, clamp_mono. lra.
Qed.

Lemma normalize_score_monotone_in_mode_witness :
  fst (Scorer.normalize_score 20 (Some 0.2))
  <= fst (Scorer.normalize_score 30 (Some 0.7)).
Proof.
  apply (@normalize_score_monotone_in_mode 20 30 0.2 0.7).
  - vm_compute; discriminate.
  - vm_compute; discriminate.
  - vm_compute; discriminate.
  - left. reflexivity.
Defined.

(** ** Rounding of exact decimals *)

Lemma round_half_even_Z (z : Z) : Py.round_half_even (inject_Z z) = z.
Proof.
  unfold Py.round_half_even. rewrite Qfloor_Z.
  assert (H : Qcompare (inject_Z z - inject_Z z) (1 # 2) = Lt).
  { rewrite <- Qlt_alt. ring_simplify (inject_Z z - inject_Z z).
    reflexivity. }
  rewrite H. reflexivity.
Qed.

(** A multiple of [10^-n] is its own rounding to [n] digits. *)
Lemma round_exact (z : Z) (n : nat) (x : Q) :
  x == inject_Z z / inject_Z (10 ^ Z.of_nat n) -> Py.round x n == x.
Proof.
  intro Hx. pose proof (pow10_pos n) as Hp.
  rewrite (round_comp n Hx). unfold Py.round.
  set (p := inject_Z (10 ^ Z.of_nat n)) in *.
  assert (H : inject_Z z / p * p == inject_Z z) by (field; lra).
  rewrite (round_half_even_comp H), round_half_even_Z.
  symmetry. exact Hx.
Qed.

Lemma round_zero (n : nat) : Py.round 0 n == 0.
Proof.
  apply (@round_exact 0 n 0). pose proof (pow10_pos n).
  change (inject_Z 0) with 0. field. lra.
Qed.

Lemma round_nonneg (x : Q) (n : nat) : 0 <= x -> 0 <= Py.round x n.
Proof.
  intro H. rewrite <- (round_zero n). apply round_mono, H.
Qed.

Lemma round1_le_10 (x : Q) : x <= 10 -> Py.round x 1 <= 10.
Proof.
  intro H. apply (round_mono 1) in H.
  assert (E : Py.round 10 1 == 10) by (vm_compute; reflexivity).
  lra.
Qed.

(** ** Facts about strings *)

Lemma contains_app_r (sub a b : Py.str) :
  Py.contains sub b = true -> Py.contains sub (a ++ b) = true.
Proof.
  intro H. induction a as [|x a IH]; [exact H|].
  cbn [app Py.contains]. rewrite IH. apply orb_true_r.
Qed.

Lemma any_in_app_r (xs : list Py.str) (a b : Py.str) :
  Py.any_in xs (Py.lower b) = true ->
  Py.any_in xs (Py.lower (a ++ b)) = true.
Proof.
  unfold Py.any_in, Py.lower. rewrite !existsb_exists, map_app.
  intros (x & Hin & Hx). exists x. split; [exact Hin|].
  apply contains_app_r, Hx.
Qed.

(** ** The section scorers *)

Lemma of_nat_nonneg (n : nat) : 0 <= Scorer.of_nat n.
Proof.
  unfold Scorer.of_nat. change 0 with (inject_Z 0).
  rewrite <- Zle_Qle. lia.
Qed.

Lemma min_nonneg (a b : Q) : 0 <= a -> 0 <= b -> 0 <= Py.min a b.
Proof. intros. apply min_glb; assumption. Qed.

(** A capped bonus [min(cap, count * weight)] is between 0 and the cap. *)
Lemma bonus_range (cap w : Q) (n : nat) :
  0 <= cap -> 0 <= w ->
  0 <= Py.min cap (Scorer.of_nat n * w) <= cap.
Proof.
  intros Hc Hw. pose proof (of_nat_nonneg n).
  split; [apply min_nonneg; nra | apply min_le_l].
Qed.

(** The closing [min(10.0, score)] of a scorer. *)
Lemma min10_range (score : Q) : 0 <= score -> 0 <= Py.min 10.0 score <= 10.
Proof.
  intro H. split; [apply min_nonneg; lra|].
  pose proof (min_le_l 10.0 score). lra.
Qed.

Ltac split_ifs :=
  repeat match goal with
         | |- context [if ?b then _ else _] => destruct b
         end.

Lemma score_education_range (education_text full_text : Py.str) :
  0 <= Scorer._score_education education_text full_text <= 10.
Proof.
  unfold Scorer._score_education.
  destruct (_ && _)%bool; [lra|].
  cbv zeta. apply min10_range. split_ifs; lra.
Qed.

Lemma score_experience_range (experience_text full_text : Py.str) :
  0 <= Scorer._score_experience experience_text full_text <= 10.
Proof.
  unfold Scorer._score_experience.
  destruct (_ && _)%bool; [lra|].
  cbv zeta.
  set (text := Py.lower _).
  pose proof (@bonus_range 2.5 0.35
                (Py.count_in (Scorer.lits
                   ["led"; "developed"; "implemented"; "designed";
                    "architected"; "built"; "managed"; "created";
                    "optimized"; "improved"; "reduced"; "increased";
                    "delivered"; "launched"; "mentored"; "scaled";
                    "automated"; "integrated"; "deployed"; "spearheaded";
                    "established"; "transformed"; "pioneered"]%string) text))
    as Ha.
  pose proof (@bonus_range 2.0 0.4
                (List.length (Re.findall Scorer.metrics_re text))) as Hm.
  pose proof (@bonus_range 1.0 0.5
                (Py.count_in (Scorer.lits
                   ["senior"; "lead"; "principal"; "staff"; "architect";
                    "manager"; "director"; "head"; "vp"; "cto";
                    "ceo"]%string) text)) as Hs.
  set (a := Py.min 2.5 _) in *.
  set (m := Py.min 2.0 _) in *.
  set (sn := Py.min 1.0 _) in *.
  assert (H25 : 0 <= 2.5) by lra. assert (H035 : 0 <= 0.35) by lra.
  assert (H20 : 0 <= 2.0) by lra. assert (H04 : 0 <= 0.4) by lra.
  assert (H10 : 0 <= 1.0) by lra. assert (H05 : 0 <= 0.5) by lra.
  specialize (Ha H25 H035). specialize (Hm H20 H04).
  specialize (Hs H10 H05).
  destruct (Qle_bool 6 _); [|destruct (Qle_bool 3 _);
                              [|destruct (Qle_bool 1 _)]];
    cbv beta iota; apply min10_range, round_nonneg; split_ifs; lra.
Qed.

Lemma score_projects_range (projects_text full_text : Py.str) :
  0 <= Scorer._score_projects projects_text full_text <= 10.
Proof.
  unfold Scorer._score_projects. cbv zeta.
  destruct (_ && _)%bool; [lra|].
  set (text_lower := Py.lower _).
  assert (H3 : 0 <= 3.0) by lra. assert (H05 : 0 <= 0.5) by lra.
  assert (H2 : 0 <= 2.0) by lra. assert (H07 : 0 <= 0.7) by lra.
  pose proof (fun n => @bonus_range 3.0 0.5 n H3 H05) as Ht.
  pose proof (fun n => @bonus_range 2.0 0.5 n H2 H05) as Hi.
  pose proof (fun n => @bonus_range 2.0 0.7 n H2 H07) as Hl.
  apply min10_range.
  match goal with
  | |- context [Py.min 3.0 (Scorer.of_nat ?n * 0.5)] =>
      specialize (Ht n); set (t := Py.min 3.0 _) in *
  end.
  match goal with
  | |- context [Py.min 2.0 (Scorer.of_nat ?n * 0.5)] =>
      specialize (Hi n); set (i := Py.min 2.0 (_ * 0.5)) in *
  end.
  match goal with
  | |- context [Py.min 2.0 (Scorer.of_nat ?n * 0.7)] =>
      specialize (Hl n); set (l := Py.min 2.0 (_ * 0.7)) in *
  end.
  split_ifs; lra.
Qed.

Lemma score_contact_range (contact : Parser.contact_info)
    (full_text : Py.str) :
  0 <= Scorer._score_contact contact full_text <= 10.
Proof.
  unfold Scorer._score_contact. cbv zeta.
  apply min10_range. split_ifs; lra.
Qed.

Lemma round_tenths (z : Z) (x : Q) :
  x == inject_Z z / 10 -> Py.round x 1 == x.
Proof. intro H. apply (@round_exact z 1 x). exact H. Qed.

Ltac skills_tests :=
  unfold Scorer._score_skills;
  repeat match goal with
         | |- context [Z.eqb ?a ?b] => destruct (Z.eqb_spec a b); try lia
         | |- context [Z.leb ?a ?b] => destruct (Z.leb_spec a b); try lia
         | |- context [Z.ltb ?a ?b] => destruct (Z.ltb_spec a b); try lia
         end.

(** The skills scorer, segment by segment. *)
Lemma score_skills_cases (n : Z) (l : list Py.str) :
  (0 <= n)%Z ->
  ((n = 0)%Z -> Scorer._score_skills n l == 0)
  /\ ((1 <= n <= 5)%Z ->
      Scorer._score_skills n l == Py.round (2 + (2 # 10) * inject_Z n) 1
      /\ Scorer._score_skills n l == 2 + (2 # 10) * inject_Z n)
  /\ ((6 <= n <= 15)%Z ->
      Scorer._score_skills n l
      == Py.round (3 + (4 # 10) * inject_Z (n - 5)) 1
      /\ Scorer._score_skills n l == 3 + (4 # 10) * inject_Z (n - 5))
  /\ ((16 <= n <= 24)%Z ->
      Scorer._score_skills n l
      == Py.round (7 + (3 # 10) * inject_Z (n - 15)) 1
      /\ Scorer._score_skills n l == 7 + (3 # 10) * inject_Z (n - 15))
  /\ ((25 <= n)%Z -> Scorer._score_skills n l == 10).
Proof.
  intro Hn.
  split; [|split; [|split; [|split]]].
  - intro H. skills_tests. reflexivity.
  - intro H. skills_tests.
    assert (E : 2.0 + inject_Z n * 0.2 == 2 + (2 # 10) * inject_Z n)
      by lra.
    rewrite (round_comp 1 E). split; [reflexivity|].
    apply (@round_tenths (20 + 2 * n)).
    rewrite inject_Z_plus, inject_Z_mult.
    change (inject_Z 20) with 20. change (inject_Z 2) with 2. field.
  - intro H. skills_tests.
    assert (E : 3.0 + inject_Z (n - 5) * 0.4
                == 3 + (4 # 10) * inject_Z (n - 5)) by lra.
    rewrite (round_comp 1 E). split; [reflexivity|].
    apply (@round_tenths (30 + 4 * (n - 5))).
    rewrite inject_Z_plus, inject_Z_mult.
    change (inject_Z 30) with 30. change (inject_Z 4) with 4. field.
  - intro H. skills_tests.
    assert (E : 7.0 + inject_Z (n - 15) * 0.3
                == 7 + (3 # 10) * inject_Z (n - 15)) by lra.
    rewrite (round_comp 1 E). split; [reflexivity|].
    apply (@round_tenths (70 + 3 * (n - 15))).
    rewrite inject_Z_plus, inject_Z_mult.
    change (inject_Z 70) with 70. change (inject_Z 3) with 3. field.
  - intro H. skills_tests. reflexivity.
Qed.


Lemma score_skills_range (n : Z) (l : list Py.str) :
  (0 <= n)%Z -> 0 <= Scorer._score_skills n l <= 10.
Proof.
  intro Hn.
  destruct (@score_skills_cases n l Hn) as (H0 & H1 & H2 & H3 & H4).
  assert (C : (n = 0 \/ 1 <= n <= 5 \/ 6 <= n <= 15 \/ 16 <= n <= 24
               \/ 25 <= n)%Z) by lia.
  destruct C as [C | [C | [C | [C | C]]]].
  - rewrite (H0 C). lra.
  - destruct (H1 C) as [_ E]. rewrite E.
    destruct C as [Ca Cb]. rewrite Zle_Qle in Ca, Cb.
    change (inject_Z 1) with 1 in Ca. change (inject_Z 5) with 5 in Cb.
    lra.
  - destruct (H2 C) as [_ E]. rewrite E.
    assert (Ca : (1 <= n - 5)%Z) by lia. assert (Cb : (n - 5 <= 10)%Z) by lia.
    rewrite Zle_Qle in Ca, Cb.
    change (inject_Z 1) with 1 in Ca. change (inject_Z 10) with 10 in Cb.
    lra.
  - destruct (H3 C) as [_ E]. rewrite E.
    assert (Ca : (1 <= n - 15)%Z) by lia. assert (Cb : (n - 15 <= 9)%Z) by lia.
    rewrite Zle_Qle in Ca, Cb.
    change (inject_Z 1) with 1 in Ca. change (inject_Z 9) with 9 in Cb.
    lra.
  - rewrite (H4 C). lra.
Qed.

(** C6.  For a skill count [n >= 0] the skills score is 0 for [n = 0],
    [2.0 + 0.2 n] for [1 <= n <= 5], [3.0 + 0.4 (n - 5)] for
    [6 <= n <= 15], [7.0 + 0.3 (n - 15)] for [16 <= n <= 24], each rounded
    to one decimal (which leaves these values unchanged), and 10 for
    [n >= 25]; so it is 10 for 25 and for 100 skills. *)
Theorem score_skills_piecewise (n : Z) (l : list Py.str) :
  (0 <= n)%Z ->
  ((n = 0)%Z -> Scorer._score_skills n l == 0)
  /\ ((1 <= n <= 5)%Z ->
      Scorer._score_skills n l == Py.round (2 + (2 # 10) * inject_Z n) 1
      /\ Scorer._score_skills n l == 2 + (2 # 10) * inject_Z n)
  /\ ((6 <= n <= 15)%Z ->
      Scorer._score_skills n l
      == Py.round (3 + (4 # 10) * inject_Z (n - 5)) 1
      /\ Scorer._score_skills n l == 3 + (4 # 10) * inject_Z (n - 5))
  /\ ((16 <= n <= 24)%Z ->
      Scorer._score_skills n l
      == Py.round (7 + (3 # 10) * inject_Z (n - 15)) 1
      /\ Scorer._score_skills n l == 7 + (3 # 10) * inject_Z (n - 15))
  /\ ((25 <= n)%Z -> Scorer._score_skills n l == 10)
  /\ Scorer._score_skills 25 l == 10
  /\ Scorer._score_skills 100 l == 10.
Proof.
  intro Hn.
  destruct (@score_skills_cases n l Hn) as (H0 & H1 & H2 & H3 & H4).
  repeat (split; [assumption|]).
  split; reflexivity.
Qed.

Lemma score_skills_piecewise_witness :
  (0 <= 12)%Z /\ Scorer._score_skills 12 [] == 5.8.
Proof.
  assert (H : (0 <= 12)%Z) by lia.
  split; [exact H|].
  destruct (@score_skills_piecewise 12 [] H) as (_ & _ & H3 & _).
  destruct H3 as [_ H3]; [lia|].
  rewrite H3. reflexivity.
Defined.


(** C8.  Each of the five section scorers returns a value in [[0, 10]],
    for every section text, full text and contact mapping, and for every
    skill count (a count is not negative). *)
Theorem section_scores_in_range :
  (forall education_text full_text : Py.str,
     0 <= Scorer._score_education education_text full_text <= 10)
  /\ (forall experience_text full_text : Py.str,
        0 <= Scorer._score_experience experience_text full_text <= 10)
  /\ (forall (skill_count : Z) (skills_list : list Py.str),
        (0 <= skill_count)%Z ->
        0 <= Scorer._score_skills skill_count skills_list <= 10)
  /\ (forall projects_text full_text : Py.str,
        0 <= Scorer._score_projects projects_text full_text <= 10)
  /\ (forall (contact : Parser.contact_info) (full_text : Py.str),
        0 <= Scorer._score_contact contact full_text <= 10).
Proof.
  split; [exact score_education_range|].
  split; [exact score_experience_range|].
  split; [exact score_skills_range|].
  split; [exact score_projects_range | exact score_contact_range].
Qed.

Lemma section_scores_in_range_witness :
  (0 <= 24)%Z
  /\ 0 <= Scorer._score_skills 24 [] <= 10
  /\ Scorer._score_skills 24 [] == 9.7.
Proof.
  assert (H : (0 <= 24)%Z) by lia.
  split; [exact H|]. split.
  - exact (proj1 (proj2 (proj2 section_scores_in_range)) 24%Z [] H).
  - reflexivity.
Defined.

(** ** The heuristic aggregator *)

(** The pieces of the result of [compute_heuristics]. *)
Lemma compute_heuristics_score (text : Py.str) (ps : Scorer.sections)
    (errs : list Py.str) :
  fst (fst (Scorer.compute_heuristics text ps errs))
  == Py.max 0.0
       (Py.min 50.0
          (Spec.sub_score_sum text ps
           - match errs with
             | [] => 0
             | _ :: _ =>
                 inject_Z (Spec.parsing_penalty (List.length errs))
             end)).
Proof.
  unfold Scorer.compute_heuristics, Spec.sub_score_sum,
    Spec.parsing_penalty.
  cbv zeta.
  set (e := Scorer._score_education _ _).
  set (x := Scorer._score_experience _ _).
  set (k := Scorer._score_skills _ _).
  set (p := Scorer._score_projects _ _).
  set (c := Scorer._score_contact _ _).
  destruct errs as [|err errs]; cbn [fst snd].
  - apply Qle_antisym; apply clamp_mono; lra.
  - rewrite (Z.mul_comm 5).
    apply Qle_antisym; apply clamp_mono; lra.
Qed.

Lemma compute_heuristics_penalty (text : Py.str) (ps : Scorer.sections)
    (errs : list Py.str) :
  Scorer.parsingPenalty (snd (Scorer.compute_heuristics text ps errs))
  = match errs with
    | [] => 0
    | _ :: _ => - inject_Z (Z.min 10 (Z.of_nat (List.length errs) * 5))
    end.
Proof.
  unfold Scorer.compute_heuristics. cbv zeta.
  destruct errs; reflexivity.
Qed.

Lemma compute_heuristics_feedback (text : Py.str) (ps : Scorer.sections)
    (errs : list Py.str) :
  snd (fst (Scorer.compute_heuristics text ps errs))
  = snd (fst (Scorer.compute_heuristics text ps []))
    ++ match errs with
       | [] => []
       | _ :: _ =>
           [Py.lit "Parsing issues detected: "
            ++ Py.join (Py.lit "; ") (firstn 3 errs)]
       end.
Proof.
  unfold Scorer.compute_heuristics. cbv zeta.
  destruct errs; cbn [fst snd]; [rewrite app_nil_r|]; reflexivity.
Qed.

Lemma compute_heuristics_education (text : Py.str) (ps : Scorer.sections)
    (errs : list Py.str) :
  Scorer.education (snd (Scorer.compute_heuristics text ps errs))
  = Py.round (Scorer._score_education
                (Scorer.section_text ps "education") (Py.lower text)) 1.
Proof.
  unfold Scorer.compute_heuristics. cbv zeta.
  destruct errs; reflexivity.
Qed.

(** C4.  The heuristic score lies in [[0, 50]] for every text, section
    mapping and list of parsing errors. *)
Theorem compute_heuristics_in_range (text : Py.str)
    (parsed_sections : Scorer.sections) (parsing_errors : list Py.str) :
  0 <= fst (fst (Scorer.compute_heuristics text parsed_sections
                   parsing_errors)) <= 50.
Proof.
  rewrite compute_heuristics_score.
  assert (H : 0.0 <= 50.0) by lra.
  pose proof (clamp_range
                (Spec.sub_score_sum text parsed_sections
                 - match parsing_errors with
                   | [] => 0
                   | _ :: _ =>
                       inject_Z (Spec.parsing_penalty
                                   (List.length parsing_errors))
                   end) H).
  lra.
Qed.

(** C9.  With a non-empty list of [n] parsing errors the aggregator
    subtracts [min(10, 5 n)] once from the sum of the five sub-scores
    before clamping, records it negated under [parsingPenalty], and appends
    to the feedback of the error-free run one message that joins the first
    three errors at most.  Two or more errors, so three, give penalty 10. *)
Theorem parsing_penalty_once (text : Py.str) (ps : Scorer.sections)
    (errs : list Py.str) :
  errs <> [] ->
  let penalty := inject_Z (Spec.parsing_penalty (List.length errs)) in
  let result := Scorer.compute_heuristics text ps errs in
  fst (fst result)
  == Py.max 0.0 (Py.min 50.0 (Spec.sub_score_sum text ps - penalty))
  /\ Scorer.parsingPenalty (snd result) == - penalty
  /\ Scorer.parsingPenalty (snd result) < 0
  /\ snd (fst result)
     = snd (fst (Scorer.compute_heuristics text ps []))
       ++ [Py.lit "Parsing issues detected: "
           ++ Py.join (Py.lit "; ") (firstn 3 errs)]
  /\ (List.length (firstn 3 errs) <= 3)%nat
  /\ ((2 <= List.length errs)%nat -> penalty == 10)
  /\ Spec.parsing_penalty 3 = 10%Z.
Proof.
  intros Hne penalty result. subst penalty result.
  destruct errs as [|err errs]; [contradiction|].
  split; [apply compute_heuristics_score|].
  rewrite compute_heuristics_penalty, compute_heuristics_feedback.
  unfold Spec.parsing_penalty. rewrite (Z.mul_comm 5).
  split; [reflexivity|].
  split.
  - set (n := List.length (err :: errs)).
    assert (Hn : (1 <= Z.of_nat n)%Z) by (subst n; cbn [List.length]; lia).
    assert (Hp : (0 < Z.min 10 (Z.of_nat n * 5))%Z) by lia.
    rewrite Zlt_Qlt in Hp. change (inject_Z 0) with 0 in Hp. lra.
  - split; [reflexivity|].
    split; [apply firstn_le_length|].
    split; [|reflexivity].
    intro H2.
    assert (E : Z.min 10 (Z.of_nat (List.length (err :: errs)) * 5) = 10%Z)
      by lia.
    rewrite E. reflexivity.
Qed.

Lemma parsing_penalty_once_witness :
  let errs := [Py.lit "e1"; Py.lit "e2"; Py.lit "e3"; Py.lit "e4"] in
  errs <> []
  /\ Scorer.parsingPenalty (snd (Scorer.compute_heuristics [] [] errs))
     == - (10)
  /\ snd (fst (Scorer.compute_heuristics [] [] errs))
     = snd (fst (Scorer.compute_heuristics [] [] []))
       ++ [Py.lit "Parsing issues detected: e1; e2; e3"].
Proof.
  intro errs.
  assert (H : errs <> []) by discriminate.
  split; [exact H|].
  destruct (@parsing_penalty_once [] [] errs H) as (_ & H2 & _ & H4 & _).
  split; [rewrite H2; reflexivity | rewrite H4; reflexivity].
Defined.

(** C1, as stated, fails: for the text "PhD Computer Science from MIT"
    without a parsed education section the education sub-score is not 10. *)
Lemma education_scenario_not_ten :
  ~ Scorer.education
      (snd (Scorer.compute_heuristics
              (Py.lit "PhD Computer Science from MIT") [] []))
    == 10.
Proof. vm_compute. discriminate. Qed.

Lemma score_education_phd_mit (education_text : Py.str) :
  education_text <> [] ->
  Scorer._score_education education_text
    (Py.lower (Py.lit "PhD Computer Science from MIT")) == 9.5.
Proof.
  intro Hne. destruct education_text as [|a e]; [contradiction|].
  unfold Scorer._score_education.
  cbn [Scorer.nonempty negb andb]. cbv zeta.
  repeat match goal with
         | |- context [Py.any_in ?xs (Py.lower (?u ++ ?v))] =>
             rewrite (@any_in_app_r xs u v) by (vm_compute; reflexivity);
             cbv beta iota
         end.
  vm_compute. reflexivity.
Qed.

(** C1, amended.  For the text "PhD Computer Science from MIT" the
    education sub-score is 0.0 when there is no parsed education section
    (the text does not contain "education" either, so the scorer returns
    0 before any bonus), and [2 + 5 + 1.5 + 1.0 = 9.5], below the clamp at
    10, when a non-empty education section was parsed. *)
Theorem education_scenario (ps : Scorer.sections) (errs : list Py.str) :
  let text := Py.lit "PhD Computer Science from MIT" in
  let sub_score :=
    Scorer.education (snd (Scorer.compute_heuristics text ps errs)) in
  (Scorer.section_text ps "education" = [] -> sub_score == 0)
  /\ (Scorer.section_text ps "education" <> [] ->
      sub_score == 2 + 5 + 1.5 + 1.0 /\ sub_score == 9.5).
Proof.
  intros text sub_score. subst text sub_score.
  rewrite compute_heuristics_education. split.
  - intro H. rewrite H. vm_compute. reflexivity.
  - intro H. apply score_education_phd_mit in H.
    rewrite (round_comp 1 H). split; vm_compute; reflexivity.
Qed.

Lemma education_scenario_witness :
  Scorer.section_text [] "education" = []
  /\ Scorer.education
       (snd (Scorer.compute_heuristics
               (Py.lit "PhD Computer Science from MIT") [] [])) == 0
  /\ Scorer.section_text
       [(Py.lit "education", Some (Py.lit "Massachusetts"))] "education"
     <> []
  /\ Scorer.education
       (snd (Scorer.compute_heuristics
               (Py.lit "PhD Computer Science from MIT")
               [(Py.lit "education", Some (Py.lit "Massachusetts"))] []))
     == 9.5.
Proof.
  assert (H1 : Scorer.section_text [] "education" = []) by reflexivity.
  assert (H2 : Scorer.section_text
                 [(Py.lit "education", Some (Py.lit "Massachusetts"))]
                 "education" <> []) by (vm_compute; discriminate).
  split; [exact H1|].
  split; [exact (proj1 (@education_scenario [] []) H1)|].
  split; [exact H2|].
  exact (proj2 (proj2 (@education_scenario _ []) H2)).
Defined.

(** ** The text cleaner *)

Section CleanText.

Import Py Re Norm.

Local Close Scope Q_scope.

Lemma sub_succ_diag (n : nat) : S n - n = 1.
Proof. lia. Qed.

Lemma match_here_cls (p : ascii -> bool) prev c t :
  match_here (Cls p) prev (c :: t)
  = if p c then Some (1, Found [c] None) else None.
Proof.
  unfold match_here. cbn [run]. destruct (p c); [|reflexivity].
  cbn [List.length]. rewrite sub_succ_diag. reflexivity.
Qed.

Lemma sub_cls (p : ascii -> bool) (r : ascii) (s : str) :
  sub (Cls p) [r] s = map (fun c => if p c then r else c) s.
Proof.
  unfold sub. generalize (@None ascii) as prev.
  induction s as [|c t IH]; intro prev; [reflexivity|].
  cbn [sub_from map]. rewrite match_here_cls.
  destruct (p c); cbn [app]; rewrite IH; reflexivity.
Qed.

Lemma run_star_cls (A : Type) (p : ascii -> bool) (f : str -> option str -> A)
    (t : str) : forall prev g,
  run (Star (Cls p)) prev t g (fun _ s' g' => Some (f s' g'))
  = Some (f (skipn (run_len p t) t) g).
Proof.
  induction t as [|c t IH]; intros prev g; [reflexivity|].
  change (run (Star (Cls p)) prev (c :: t) g (fun _ s' g' => Some (f s' g')))
    with (match (if p c
                 then if Nat.ltb (List.length t) (S (List.length t))
                      then run (Star (Cls p)) (Some c) t g
                             (fun _ s' g' => Some (f s' g'))
                      else None
                 else None) with
          | Some x => Some x
          | None => Some (f (c :: t) g)
          end).
  cbn [run_len]. destruct (p c); [|reflexivity].
  assert (H : Nat.ltb (List.length t) (S (List.length t)) = true)
    by (apply Nat.ltb_lt; lia).
  rewrite H, IH. reflexivity.
Qed.

Lemma run_len_le p s : run_len p s <= List.length s.
Proof. induction s as [|c t IH]; cbn; [lia|]. destruct (p c); lia. Qed.

Lemma match_here_plus_cls (p : ascii -> bool) prev (s : str) :
  match_here (Plus (Cls p)) prev s
  = match run_len p s with
    | O => None
    | S n => Some (S n, Found (firstn (S n) s) None)
    end.
Proof.
  destruct s as [|c t]; [reflexivity|].
  unfold match_here, Plus.
  set (k := fun (_ : option ascii) (s' : str) (g : option str) =>
              Some (let n := List.length (c :: t) - List.length s' in
                    (n, Found (firstn n (c :: t)) g))).
  change (run (Seq (Cls p) (Star (Cls p))) prev (c :: t) None k)
    with (if p c then run (Star (Cls p)) (Some c) t None k else None).
  cbn [run_len]. destruct (p c); [|reflexivity].
  subst k.
  rewrite (@run_star_cls _ p
             (fun s' g => let n := List.length (c :: t) - List.length s' in
                          (n, Found (firstn n (c :: t)) g))).
  cbv zeta.
  assert (H : List.length (c :: t)
              - List.length (skipn (run_len p t) t)
              = S (run_len p t)).
  { rewrite length_skipn. pose proof (run_len_le p t). cbn [List.length]. lia. }
  rewrite H. reflexivity.
Qed.

Lemma sub_from_squeeze (s : str) : forall prev,
  sub_from (Plus (Cls isspace)) [sp] prev s 0 = squeeze false s
  /\ sub_from (Plus (Cls isspace)) [sp] prev s (run_len isspace s)
     = squeeze true s.
Proof.
  induction s as [|c t IH]; intro prev; [split; reflexivity|].
  destruct (IH (Some c)) as [IH0 IH1].
  assert (H0 : sub_from (Plus (Cls isspace)) [sp] prev (c :: t) 0
               = squeeze false (c :: t)).
  { cbn [sub_from]. rewrite match_here_plus_cls.
    cbn [run_len squeeze]. destruct (isspace c).
    - rewrite IH1. reflexivity.
    - rewrite IH0. reflexivity. }
  split; [exact H0|].
  cbn [run_len]. destruct (isspace c) eqn:E.
  - cbn [sub_from squeeze]. rewrite E. exact IH1.
  - rewrite H0. cbn [squeeze]. rewrite E. reflexivity.
Qed.

Lemma sub_spaces (s : str) :
  sub (Plus (Cls isspace)) (lit " ") s = squeeze false s.
Proof. apply sub_from_squeeze. Qed.

Lemma lstrip_squeeze_true (s : str) :
  lstrip (squeeze true s) = squeeze true s.
Proof.
  induction s as [|c t IH]; [reflexivity|].
  cbn [squeeze]. destruct (isspace c) eqn:E; [exact IH|].
  cbn [lstrip]. rewrite E. reflexivity.
Qed.

Lemma lstrip_squeeze (s : str) :
  lstrip (squeeze false s) = squeeze true s.
Proof.
  destruct s as [|c t]; [reflexivity|].
  cbn [squeeze]. destruct (isspace c) eqn:E.
  - change (lstrip (sp :: squeeze true t))
      with (lstrip (squeeze true t)).
    apply lstrip_squeeze_true.
  - cbn [lstrip]. rewrite E. reflexivity.
Qed.

Lemma rstrip_app_blank (a y : str) :
  rstrip y = [] -> rstrip (a ++ y) = rstrip a.
Proof.
  intro H. induction a as [|x a IH]; [exact H|].
  cbn [app rstrip]. rewrite IH. reflexivity.
Qed.

Lemma rstrip_app_keep (a y : str) :
  rstrip y <> [] -> rstrip (a ++ y) = a ++ rstrip y.
Proof.
  intro H. induction a as [|x a IH]; [reflexivity|].
  cbn [app rstrip]. rewrite IH.
  destruct (a ++ rstrip y) eqn:E; [|reflexivity].
  apply app_eq_nil in E. destruct E. contradiction.
Qed.

Lemma rstrip_nonspace (a : str) :
  forallb nonspace a = true -> rstrip a = a.
Proof.
  induction a as [|x a IH]; [reflexivity|].
  cbn [forallb]. rewrite andb_true_iff. intros [Hx Ha].
  cbn [rstrip]. rewrite (IH Ha).
  destruct a; [|reflexivity].
  unfold nonspace in Hx. apply negb_true_iff in Hx. rewrite Hx. reflexivity.
Qed.

Lemma forallb_rev (A : Type) (p : A -> bool) (l : list A) :
  forallb p (rev l) = forallb p l.
Proof.
  induction l as [|x l IH]; [reflexivity|].
  cbn [rev forallb]. rewrite forallb_app, IH. cbn [forallb].
  rewrite andb_true_r. apply andb_comm.
Qed.

Lemma split_acc_nonempty (s : str) : forall cur,
  Forall (fun w => w <> []) (split_acc cur s).
Proof.
  induction s as [|c t IH]; intro cur; cbn [split_acc].
  - destruct cur as [|x cur]; constructor; [|constructor].
    intro H. apply (f_equal (@List.length ascii)) in H.
    rewrite length_rev in H. discriminate.
  - destruct (isspace c); [|apply IH].
    destruct cur as [|x cur]; [apply IH|].
    constructor; [|apply IH].
    intro H. apply (f_equal (@List.length ascii)) in H.
    rewrite length_rev in H. discriminate.
Qed.

Lemma join_nonempty (sep : str) (w : str) (ws : list str) :
  w <> [] -> join sep (w :: ws) <> [].
Proof.
  intros Hw H. destruct ws; cbn [join] in H; [contradiction|].
  apply app_eq_nil in H. destruct H. contradiction.
Qed.

Lemma app_cons_snoc (A : Type) (a : list A) (x : A) (y : list A) :
  a ++ x :: y = (a ++ [x]) ++ y.
Proof. rewrite <- app_assoc. reflexivity. Qed.

Lemma rstrip_squeeze (s : str) :
  rstrip (squeeze true s) = join [sp] (split_acc [] s)
  /\ forall cur, cur <> [] -> forallb nonspace cur = true ->
       rstrip (rev cur ++ squeeze false s)
       = join [sp] (split_acc cur s).
Proof.
  induction s as [|c t [IH1 IH2]].
  - split; [reflexivity|]. intros cur Hne Hc.
    rewrite app_nil_r. cbn [split_acc].
    destruct cur as [|x cur]; [contradiction|]. cbn [join].
    apply rstrip_nonspace. rewrite forallb_rev. exact Hc.
  - split.
    + cbn [squeeze split_acc]. destruct (isspace c) eqn:E; [exact IH1|].
      apply (IH2 [c]); [discriminate|].
      cbn [forallb]. unfold nonspace. rewrite E. reflexivity.
    + intros cur Hne Hc. cbn [squeeze split_acc].
      destruct (isspace c) eqn:E.
      * destruct cur as [|x cur]; [contradiction|].
        pose proof (split_acc_nonempty t []) as Hw.
        destruct (split_acc [] t) as [|w ws] eqn:Ews.
        -- cbn [join] in *.
           rewrite app_cons_snoc, (rstrip_app_blank _ _ IH1).
           rewrite rstrip_app_blank by reflexivity.
           apply rstrip_nonspace. rewrite forallb_rev. exact Hc.
        -- assert (Hj : join [sp] (w :: ws) <> [])
             by (apply join_nonempty; inversion Hw; assumption).
           rewrite app_cons_snoc, rstrip_app_keep by (rewrite IH1; exact Hj).
           rewrite IH1, <- app_assoc. reflexivity.
      * rewrite <- (IH2 (c :: cur)).
        -- cbn [rev]. rewrite <- app_assoc. reflexivity.
        -- discriminate.
        -- cbn [forallb]. unfold nonspace at 1. rewrite E. exact Hc.
Qed.

(** Collapsing the white space and stripping gives the words joined by
    single blanks, i.e. what [join] makes of [split]. *)
Lemma strip_sub_spaces (s : str) :
  strip (sub (Plus (Cls isspace)) (lit " ") s) = join (lit " ") (split s).
Proof.
  unfold strip. rewrite sub_spaces, lstrip_squeeze.
  apply rstrip_squeeze.
Qed.

Lemma a_z_nonspace (c : ascii) : is_a_z c = true -> isspace c = false.
Proof.
  destruct c as [[] [] [] [] [] [] [] []]; vm_compute; congruence.
Qed.

Lemma lower_char_kept (c : ascii) : kept c = true -> lower_char c = c.
Proof.
  destruct c as [[] [] [] [] [] [] [] []]; vm_compute; congruence.
Qed.

Lemma word_nonspace (w : str) :
  forallb is_a_z w = true -> forallb nonspace w = true.
Proof.
  rewrite !forallb_forall. intros H c Hc. unfold nonspace.
  rewrite (a_z_nonspace _ (H c Hc)). reflexivity.
Qed.

Lemma split_acc_app_word (w : str) : forall cur rest,
  forallb nonspace w = true ->
  split_acc cur (w ++ rest) = split_acc (rev w ++ cur) rest.
Proof.
  induction w as [|a w IH]; intros cur rest H; [reflexivity|].
  cbn [forallb] in H. apply andb_true_iff in H. destruct H as [Ha Hw].
  unfold nonspace in Ha. apply negb_true_iff in Ha.
  cbn [app split_acc rev]. rewrite Ha, (IH _ _ Hw), <- app_assoc.
  reflexivity.
Qed.

Lemma split_join (ws : list str) :
  Forall is_word ws -> split (join [sp] ws) = ws.
Proof.
  unfold split. induction ws as [|w ws IH]; intro H; [reflexivity|].
  inversion H as [|? ? [Hne Haz] Hws]; subst.
  pose proof (word_nonspace _ Haz) as Hns.
  destruct ws as [|w2 ws].
  - cbn [join]. rewrite <- (app_nil_r w) at 1.
    rewrite split_acc_app_word by exact Hns. rewrite app_nil_r.
    cbn [split_acc]. destruct (rev w) eqn:E.
    + apply (f_equal (@rev ascii)) in E. rewrite rev_involutive in E.
      contradiction.
    + rewrite <- E, rev_involutive. reflexivity.
  - change (join [sp] (w :: w2 :: ws))
      with (w ++ [sp] ++ join [sp] (w2 :: ws)).
    rewrite split_acc_app_word by exact Hns. rewrite app_nil_r.
    change ([sp] ++ join [sp] (w2 :: ws)) with (sp :: join [sp] (w2 :: ws)).
    cbn [split_acc].
    change (isspace sp) with true. cbv iota.
    destruct (rev w) eqn:E.
    + apply (f_equal (@rev ascii)) in E. rewrite rev_involutive in E.
      contradiction.
    + rewrite <- E, rev_involutive, (IH Hws). reflexivity.
Qed.

Lemma split_acc_words (s : str) : forall cur,
  forallb kept s = true -> forallb is_a_z cur = true ->
  Forall is_word (split_acc cur s).
Proof.
  assert (Hrev : forall x cur, forallb is_a_z (x :: cur) = true ->
                               is_word (rev (x :: cur))).
  { intros x cur H. split; [|rewrite forallb_rev; exact H].
    intro E. apply (f_equal (@List.length ascii)) in E.
    rewrite length_rev in E. discriminate. }
  induction s as [|c t IH]; intros cur Hs Hcur; cbn [split_acc].
  - destruct cur as [|x cur]; constructor; [|constructor].
    apply Hrev, Hcur.
  - cbn [forallb] in Hs. apply andb_true_iff in Hs. destruct Hs as [Hc Ht].
    destruct (isspace c) eqn:E.
    + destruct cur as [|x cur]; [apply IH; [exact Ht | reflexivity]|].
      constructor; [apply Hrev, Hcur | apply IH; [exact Ht | reflexivity]].
    + apply IH; [exact Ht|].
      cbn [forallb]. unfold kept in Hc. rewrite E, orb_false_r in Hc.
      rewrite Hc. exact Hcur.
Qed.

Lemma join_kept (ws : list str) :
  Forall is_word ws -> forallb kept (join [sp] ws) = true.
Proof.
  assert (Hw : forall w, is_word w -> forallb kept w = true).
  { intros w [_ H]. rewrite forallb_forall in *. intros c Hc.
    unfold kept. rewrite (H c Hc). reflexivity. }
  induction ws as [|w ws IH]; intro H; [reflexivity|].
  inversion H as [|? ? Hword Hws]; subst.
  destruct ws as [|w2 ws]; [exact (Hw _ Hword)|].
  change (join [sp] (w :: w2 :: ws))
    with (w ++ sp :: join [sp] (w2 :: ws)).
  rewrite forallb_app. cbn [forallb].
  rewrite (Hw _ Hword), (IH Hws). reflexivity.
Qed.

Lemma lower_kept (s : str) : forallb kept s = true -> lower s = s.
Proof.
  unfold lower. induction s as [|c t IH]; [reflexivity|].
  cbn [forallb map]. rewrite andb_true_iff. intros [Hc Ht].
  rewrite (lower_char_kept _ Hc), (IH Ht). reflexivity.
Qed.

Lemma blank_other_kept (s : str) :
  forallb kept (map blank_other s) = true.
Proof.
  induction s as [|c t IH]; [reflexivity|].
  cbn [map forallb]. rewrite IH, andb_true_r.
  unfold blank_other, kept. destruct (is_a_z c || isspace c)%bool eqn:E.
  - exact E.
  - reflexivity.
Qed.

Lemma blank_other_id (s : str) :
  forallb kept s = true -> map blank_other s = s.
Proof.
  induction s as [|c t IH]; [reflexivity|].
  cbn [forallb map]. rewrite andb_true_iff. intros [Hc Ht].
  rewrite (IH Ht). unfold blank_other. unfold kept in Hc. rewrite Hc.
  reflexivity.
Qed.

Lemma filter_filter (A : Type) (p : A -> bool) (l : list A) :
  filter p (filter p l) = filter p l.
Proof.
  induction l as [|x l IH]; [reflexivity|].
  cbn [filter]. destruct (p x) eqn:E; [|exact IH].
  cbn [filter]. rewrite E, IH. reflexivity.
Qed.

Lemma drop_stop_words_idem sw ws :
  drop_stop_words sw (drop_stop_words sw ws) = drop_stop_words sw ws.
Proof.
  unfold drop_stop_words. destruct sw as [[|x sw]|]; try reflexivity.
  apply filter_filter.
Qed.

Lemma drop_stop_words_words sw ws :
  Forall is_word ws -> Forall is_word (drop_stop_words sw ws).
Proof.
  intro H. unfold drop_stop_words. destruct sw as [[|x sw]|]; try exact H.
  rewrite Forall_forall in *. intros w Hw. apply filter_In in Hw.
  apply H, Hw.
Qed.

Lemma sub_cls_space (p : ascii -> bool) (s : str) :
  sub (Cls p) (lit " ") s = map (fun c => if p c then sp else c) s.
Proof. exact (sub_cls p sp s). Qed.

Lemma split_join_space (ws : list str) :
  Forall is_word ws -> split (join (lit " ") ws) = ws.
Proof. exact (@split_join ws). Qed.

Lemma join_space_kept (ws : list str) :
  Forall is_word ws -> forallb kept (join (lit " ") ws) = true.
Proof. exact (@join_kept ws). Qed.

(** The text after lowering and the two substitutions, as words. *)
Lemma clean_text_words (text : str) (stop_words : option (list str)) :
  exists ws, Forall is_word ws
             /\ TextCleaner.clean_text text stop_words
                = join (lit " ") (drop_stop_words stop_words ws).
Proof.
  destruct text as [|c t].
  { exists []. split; [constructor|].
    destruct stop_words as [[|]|]; reflexivity. }
  unfold TextCleaner.clean_text. cbv zeta.
  rewrite sub_cls_space, strip_sub_spaces.
  set (t2 := map _ (lower (c :: t))).
  assert (Hk : forallb kept t2 = true) by apply blank_other_kept.
  assert (Hw : Forall is_word (split t2))
    by (apply split_acc_words; [exact Hk | reflexivity]).
  exists (split t2). split; [exact Hw|].
  unfold drop_stop_words. destruct stop_words as [[|x sw]|]; try reflexivity.
  rewrite (split_join_space Hw). reflexivity.
Qed.

Lemma clean_text_of_words (ws : list str) (stop_words : option (list str)) :
  Forall is_word ws ->
  TextCleaner.clean_text (join (lit " ") ws) stop_words
  = join (lit " ") (drop_stop_words stop_words ws).
Proof.
  intro Hw.
  destruct (join (lit " ") ws) as [|c t] eqn:E.
  { destruct ws as [|w ws].
    - destruct stop_words as [[|]|]; reflexivity.
    - inversion Hw as [|? ? [Hne _] _]; subst.
      exfalso. exact (join_nonempty (lit " ") ws Hne E). }
  unfold TextCleaner.clean_text. cbv zeta. rewrite <- E.
  pose proof (join_space_kept Hw) as Hk.
  rewrite (lower_kept _ Hk), sub_cls_space.
  rewrite (blank_other_id _ Hk : map (fun c => if negb (is_a_z c || isspace c) then sp else c) _ = _).
  rewrite strip_sub_spaces, (split_join_space Hw).
  unfold drop_stop_words. destruct stop_words as [[|x sw]|]; try reflexivity.
  rewrite (split_join_space Hw). reflexivity.
Qed.

(** C10.  [clean_text] is idempotent: cleaning a cleaned text again, with
    the same stop words, changes nothing. *)
Theorem clean_text_idempotent (t : str) (stop_words : option (list str)) :
  TextCleaner.clean_text (TextCleaner.clean_text t stop_words) stop_words
  = TextCleaner.clean_text t stop_words.
Proof.
  destruct (clean_text_words t stop_words) as (ws & Hw & E).
  rewrite E.
  rewrite (clean_text_of_words stop_words
             (drop_stop_words_words stop_words Hw)).
  rewrite drop_stop_words_idem. reflexivity.
Qed.

End CleanText.

(* ================================================================= *)
(** * Part III: further properties of the code                        *)
(* ================================================================= *)

(** ** The score normaliser, continued *)

Lemma round2_range_0_100 (t : Q) :
  0 <= Py.round (Py.max 0.0 (Py.min 100.0 t)) 2 <= 100.
Proof.
  assert (H : 0.0 <= 100.0) by lra.
  destruct (clamp_range t H) as [H0 H1].
  split.
  - apply round_nonneg. lra.
  - assert (E : Py.round 100 2 == 100) by (vm_compute; reflexivity).
    rewrite <- E. apply round_mono. lra.
Qed.

Lemma normalize_score_total_shape (h : Q) (rel : option Q) :
  exists t : Q,
    fst (Scorer.normalize_score h rel)
    = Py.round (Py.max 0.0 (Py.min 100.0 t)) 2.
Proof.
  unfold Scorer.normalize_score.
  destruct (Scorer.no_jd rel); cbn [fst]; eexists; reflexivity.
Qed.

(** X1.  Whatever the heuristic score and the relevance, the final score
    lies in [[0, 100]]. *)
Theorem normalize_score_in_range (h : Q) (rel : option Q) :
  0 <= fst (Scorer.normalize_score h rel) <= 100.
Proof.
  destruct (normalize_score_total_shape h rel) as [t E].
  rewrite E. apply round2_range_0_100.
Qed.

Lemma relevance_component_range (r : Q) :
  0 <= r <= 1 -> 0 <= Spec.relevance_component r <= 50.
Proof.
  intro H. unfold Spec.relevance_component.
  destruct (Qlt_le_dec r (3 # 10)); [lra|].
  destruct (Qlt_le_dec r (6 # 10)); lra.
Qed.

Lemma round2_le_98 (t : Q) :
  t <= 98 -> Py.round (Py.max 0.0 (Py.min 100.0 t)) 2 <= 98.
Proof.
  intro H.
  assert (E : Py.round 98 2 == 98) by (vm_compute; reflexivity).
  rewrite <- E. apply round_mono.
  apply max_lub; [lra|]. pose proof (min_le_r 100.0 t). lra.
Qed.

Lemma normalize_score_le_98 (h : Q) (rel : option Q) :
  0 <= h <= 50 ->
  match rel with Some r => 0 <= r <= 1 | None => True end ->
  fst (Scorer.normalize_score h rel) <= 98.
Proof.
  intros Hh Hr.
  destruct (Scorer.no_jd rel) eqn:E.
  - rewrite (normalize_score_no_jd_total h rel E). cbn [fst].
    apply round2_le_98. lra.
  - destruct rel as [r|]; [|discriminate].
    assert (Hz : ~ r == 0).
    { intro Hz. apply no_jd_some in Hz. congruence. }
    rewrite (normalize_score_with_jd_total h Hz).
    apply round2_le_98.
    pose proof (relevance_component_range Hr). lra.
Qed.

(** X2.  For a heuristic score in [[0, 50]] and a relevance that is absent
    or in [[0, 1]], the final score never exceeds 98; heuristic 50 reaches
    98 both without a job description and with relevance 1. *)
Theorem normalize_score_max_98 (h : Q) (rel : option Q) :
  0 <= h <= 50 ->
  match rel with Some r => 0 <= r <= 1 | None => True end ->
  fst (Scorer.normalize_score h rel) <= 98
  /\ fst (Scorer.normalize_score 50 None) == 98
  /\ fst (Scorer.normalize_score 50 (Some 1)) == 98.
Proof.
  intros Hh Hr. split; [exact (normalize_score_le_98 rel Hh Hr)|].
  split; vm_compute; reflexivity.
Qed.

Lemma normalize_score_max_98_witness :
  0 <= 42.5 <= 50 /\ 0 <= 0.65 <= 1
  /\ fst (Scorer.normalize_score 42.5 (Some 0.65)) <= 98.
Proof.
  assert (Hh : 0 <= 42.5 <= 50) by (split; vm_compute; discriminate).
  assert (Hr : 0 <= 0.65 <= 1) by (split; vm_compute; discriminate).
  split; [exact Hh|]. split; [exact Hr|].
  exact (proj1 (@normalize_score_max_98 42.5 (Some 0.65) Hh Hr)).
Defined.

(** X3.  With a job description and a relevance in (0, 1] the breakdown
    records a relevance component between 0 and 50. *)
Theorem normalize_score_relevance_entry (h r : Q) :
  0 < r -> r <= 1 ->
  0 <= Scorer.relevance (snd (Scorer.normalize_score h (Some r))) <= 50.
Proof.
  intros H0 H1. unfold Scorer.normalize_score.
  rewrite no_jd_some_false by lra. cbn [snd Scorer.relevance].
  rewrite (round_comp 2 (with_jd_component r)).
  assert (Hc : 0 <= Spec.relevance_component r <= 50)
    by (apply relevance_component_range; lra).
  split.
  - apply round_nonneg. lra.
  - assert (E : Py.round 50 2 == 50) by (vm_compute; reflexivity).
    rewrite <- E. apply round_mono. lra.
Qed.

Lemma normalize_score_relevance_entry_witness :
  0 < 0.45 /\ 0.45 <= 1
  /\ 0 <= Scorer.relevance (snd (Scorer.normalize_score 30 (Some 0.45)))
     <= 50.
Proof.
  assert (H0 : 0 < 0.45) by reflexivity.
  assert (H1 : 0.45 <= 1) by (vm_compute; discriminate).
  split; [exact H0|]. split; [exact H1|].
  exact (@normalize_score_relevance_entry 30 0.45 H0 H1).
Defined.

(** ** The section scorers, continued *)

Lemma score_skills_step (n : Z) (l l' : list Py.str) :
  (0 <= n)%Z ->
  Scorer._score_skills n l <= Scorer._score_skills (n + 1) l'.
Proof.
  intro Hn.
  assert (Hn1 : (0 <= n + 1)%Z) by lia.
  destruct (@score_skills_cases n l Hn) as (A0 & A1 & A2 & A3 & A4).
  destruct (@score_skills_cases (n + 1) l' Hn1) as (_ & B1 & B2 & B3 & B4).
  assert (Hq : 0 <= inject_Z n)
    by (change 0 with (inject_Z 0); rewrite <- Zle_Qle; exact Hn).
  assert (E1 : inject_Z (n + 1) == inject_Z n + 1)
    by (rewrite inject_Z_plus; reflexivity).
  assert (E5 : inject_Z (n - 5) == inject_Z n - 5)
    by (unfold Z.sub; rewrite inject_Z_plus; reflexivity).
  assert (E5' : inject_Z (n + 1 - 5) == inject_Z n - 4)
    by (replace (n + 1 - 5)%Z with (n + -4)%Z by lia;
        rewrite inject_Z_plus; reflexivity).
  assert (E15 : inject_Z (n - 15) == inject_Z n - 15)
    by (unfold Z.sub; rewrite inject_Z_plus; reflexivity).
  assert (E15' : inject_Z (n + 1 - 15) == inject_Z n - 14)
    by (replace (n + 1 - 15)%Z with (n + -14)%Z by lia;
        rewrite inject_Z_plus; reflexivity).
  assert (C : (n = 0 \/ 1 <= n <= 4 \/ n = 5 \/ 6 <= n <= 14 \/ n = 15
               \/ 16 <= n <= 23 \/ n = 24 \/ 25 <= n)%Z) by lia.
  destruct C as [C | [C | [C | [C | [C | [C | [C | C]]]]]]].
  - rewrite (A0 C). destruct B1 as [_ B]; [lia|]. rewrite B. lra.
  - destruct A1 as [_ A]; [lia|]. destruct B1 as [_ B]; [lia|].
    rewrite A, B. lra.
  - destruct A1 as [_ A]; [lia|]. destruct B2 as [_ B]; [lia|].
    rewrite A, B. subst n. vm_compute. discriminate.
  - destruct A2 as [_ A]; [lia|]. destruct B2 as [_ B]; [lia|].
    rewrite A, B. lra.
  - destruct A2 as [_ A]; [lia|]. destruct B3 as [_ B]; [lia|].
    rewrite A, B. subst n. vm_compute. discriminate.
  - destruct A3 as [_ A]; [lia|]. destruct B3 as [_ B]; [lia|].
    rewrite A, B. lra.
  - destruct A3 as [_ A]; [lia|]. rewrite A, B4 by lia.
    subst n. vm_compute. discriminate.
  - rewrite A4, B4 by lia. lra.
Qed.

(** X4.  The skills score never decreases when the number of skills
    grows. *)
Theorem score_skills_monotone (n m : Z) (l l' : list Py.str) :
  (0 <= n)%Z -> (n <= m)%Z ->
  Scorer._score_skills n l <= Scorer._score_skills m l'.
Proof.
  intros Hn Hm.
  replace m with (n + Z.of_nat (Z.to_nat (m - n)))%Z by lia.
  generalize (Z.to_nat (m - n)) as k. intro k. revert l'.
  induction k as [|k IH]; intro l'.
  - rewrite Z.add_0_r.
    destruct (@score_skills_cases n l Hn) as (A0 & A1 & A2 & A3 & A4).
    destruct (@score_skills_cases n l' Hn) as (B0 & B1 & B2 & B3 & B4).
    assert (C : (n = 0 \/ 1 <= n <= 5 \/ 6 <= n <= 15 \/ 16 <= n <= 24
                 \/ 25 <= n)%Z) by lia.
    destruct C as [C | [C | [C | [C | C]]]].
    + rewrite (A0 C), (B0 C). lra.
    + rewrite (proj2 (A1 C)), (proj2 (B1 C)). lra.
    + rewrite (proj2 (A2 C)), (proj2 (B2 C)). lra.
    + rewrite (proj2 (A3 C)), (proj2 (B3 C)). lra.
    + rewrite (A4 C), (B4 C). lra.
  - rewrite Nat2Z.inj_succ. unfold Z.succ. rewrite Z.add_assoc.
    apply Qle_trans with (Scorer._score_skills (n + Z.of_nat k) l).
    + apply IH.
    + apply score_skills_step. lia.
Qed.

Lemma score_skills_monotone_witness :
  (0 <= 4)%Z /\ (4 <= 19)%Z
  /\ Scorer._score_skills 4 [] <= Scorer._score_skills 19 [].
Proof.
  assert (H0 : (0 <= 4)%Z) by lia. assert (H1 : (4 <= 19)%Z) by lia.
  split; [exact H0|]. split; [exact H1|].
  exact (@score_skills_monotone 4 19 [] [] H0 H1).
Defined.

(** X5.  The education score is 0 when there is neither a section text
    nor the word "education" in the full text; otherwise it lies between
    2 and 9.5, so the closing [min(10.0, score)] is never reached. *)
Theorem score_education_values (education_text full_text : Py.str) :
  (education_text = []
   /\ Py.contains (Py.lit "education") full_text = false ->
   Scorer._score_education education_text full_text == 0)
  /\ (education_text <> []
      \/ Py.contains (Py.lit "education") full_text = true ->
      2 <= Scorer._score_education education_text full_text <= (95 # 10)).
Proof.
  unfold Scorer._score_education. split.
  - intros [H1 H2]. rewrite H1, H2. reflexivity.
  - intro H.
    assert (G : (negb (Scorer.nonempty education_text)
                 && negb (Py.contains (Py.lit "education") full_text))%bool
                = false).
    { destruct H as [H | H].
      - destruct education_text; [contradiction | reflexivity].
      - rewrite H. apply andb_false_r. }
    rewrite G. cbv zeta.
    split_ifs; unfold Py.min; match goal with
               | |- context [Py.ltb ?a ?b] => case_ltb a b
               end; lra.
Qed.

Lemma score_education_values_witness :
  (Py.lit "B.Tech, IIT" <> []
   \/ Py.contains (Py.lit "education") (Py.lit "resume") = true)
  /\ 2 <= Scorer._score_education (Py.lit "B.Tech, IIT") (Py.lit "resume")
     <= (95 # 10).
Proof.
  assert (H : Py.lit "B.Tech, IIT" <> []
              \/ Py.contains (Py.lit "education") (Py.lit "resume") = true)
    by (left; discriminate).
  split; [exact H|].
  exact (proj2 (@score_education_values (Py.lit "B.Tech, IIT")
                  (Py.lit "resume")) H).
Defined.

(** X6.  The projects score is 0 when there is no projects text and none
    of the project indicators in the full text, and at least 2
    otherwise. *)
Theorem score_projects_values (projects_text full_text : Py.str) :
  (projects_text = []
   /\ Py.any_in (Scorer.lits ["github.com"; "project:"; "built a";
                              "created a"; "developed a";
                              "hackathon"]%string) full_text = false ->
   Scorer._score_projects projects_text full_text == 0)
  /\ (projects_text <> []
      \/ Py.any_in (Scorer.lits ["github.com"; "project:"; "built a";
                                 "created a"; "developed a";
                                 "hackathon"]%string) full_text = true ->
      2 <= Scorer._score_projects projects_text full_text <= 10).
Proof.
  split.
  - intros [H1 H2]. unfold Scorer._score_projects. cbv zeta.
    rewrite H1, H2. reflexivity.
  - intro H. split; [|apply score_projects_range].
    unfold Scorer._score_projects. cbv zeta.
    assert (G : (negb (Scorer.nonempty projects_text)
                 && negb (Py.any_in
                            (Scorer.lits ["github.com"; "project:";
                                          "built a"; "created a";
                                          "developed a";
                                          "hackathon"]%string)
                            full_text))%bool = false).
    { destruct H as [H | H].
      - destruct projects_text; [contradiction | reflexivity].
      - rewrite H. apply andb_false_r. }
    rewrite G.
    set (text_lower := Py.lower _).
    assert (H3 : 0 <= 3.0) by lra. assert (H05 : 0 <= 0.5) by lra.
    assert (H2 : 0 <= 2.0) by lra. assert (H07 : 0 <= 0.7) by lra.
    pose proof (fun n => @bonus_range 3.0 0.5 n H3 H05) as Ht.
    pose proof (fun n => @bonus_range 2.0 0.5 n H2 H05) as Hi.
    pose proof (fun n => @bonus_range 2.0 0.7 n H2 H07) as Hl.
    match goal with
    | |- context [Py.min 3.0 (Scorer.of_nat ?n * 0.5)] =>
        specialize (Ht n); set (t := Py.min 3.0 _) in *
    end.
    match goal with
    | |- context [Py.min 2.0 (Scorer.of_nat ?n * 0.5)] =>
        specialize (Hi n); set (i := Py.min 2.0 (_ * 0.5)) in *
    end.
    match goal with
    | |- context [Py.min 2.0 (Scorer.of_nat ?n * 0.7)] =>
        specialize (Hl n); set (k := Py.min 2.0 (_ * 0.7)) in *
    end.
    apply min_glb; [lra|]. split_ifs; lra.
Qed.

Lemma score_projects_values_witness :
  (Py.lit "chat app in React" <> []
   \/ Py.any_in (Scorer.lits ["github.com"; "project:"; "built a";
                              "created a"; "developed a";
                              "hackathon"]%string) (Py.lit "resume") = true)
  /\ 2 <= Scorer._score_projects (Py.lit "chat app in React")
            (Py.lit "resume") <= 10.
Proof.
  assert (H : Py.lit "chat app in React" <> []
              \/ Py.any_in (Scorer.lits ["github.com"; "project:";
                                         "built a"; "created a";
                                         "developed a"; "hackathon"]%string)
                   (Py.lit "resume") = true)
    by (left; discriminate).
  split; [exact H|].
  exact (proj2 (@score_projects_values (Py.lit "chat app in React")
                  (Py.lit "resume")) H).
Defined.

(** ** The heuristic aggregator, continued *)

Lemma tenths_round (x : Q) : Notions.tenths x -> Py.round x 1 == x.
Proof. intros [z Hz]. exact (round_tenths Hz). Qed.

Lemma tenths_plus (a b : Q) :
  Notions.tenths a -> Notions.tenths b -> Notions.tenths (a + b).
Proof.
  intros [x Hx] [y Hy]. exists (x + y)%Z.
  rewrite Hx, Hy, inject_Z_plus. field.
Qed.

Lemma tenths_min (a b : Q) :
  Notions.tenths a -> Notions.tenths b -> Notions.tenths (Py.min a b).
Proof. intros Ha Hb. unfold Py.min. destruct (Py.ltb b a); assumption. Qed.

Lemma tenths_round1 (x : Q) : Notions.tenths (Py.round x 1).
Proof.
  unfold Py.round. eexists.
  change (inject_Z (10 ^ Z.of_nat 1)) with 10. reflexivity.
Qed.

Lemma tenths_count (n : nat) (k : Z) (w : Q) :
  w == inject_Z k / 10 -> Notions.tenths (Scorer.of_nat n * w).
Proof.
  intro Hw. exists (Z.of_nat n * k)%Z. unfold Scorer.of_nat.
  rewrite Hw, inject_Z_mult. field.
Qed.

(** A closed decimal with one digit is a multiple of one tenth. *)
Ltac tenths_const :=
  match goal with
  | |- Notions.tenths ?c => exists (Qfloor (c * 10)); vm_compute; reflexivity
  end.

Ltac tenths_tac :=
  repeat first
    [ apply tenths_plus
    | apply tenths_min
    | apply tenths_round1
    | apply (@tenths_count _ 5); vm_compute; reflexivity
    | apply (@tenths_count _ 7); vm_compute; reflexivity
    | tenths_const ].

Lemma score_education_tenths (e t : Py.str) :
  Notions.tenths (Scorer._score_education e t).
Proof.
  unfold Scorer._score_education. cbv zeta. split_ifs; tenths_tac.
Qed.

Lemma score_experience_tenths (e t : Py.str) :
  Notions.tenths (Scorer._score_experience e t).
Proof.
  unfold Scorer._score_experience. cbv zeta.
  destruct (_ && _)%bool; [tenths_const|].
  destruct (Qle_bool 6 _); [|destruct (Qle_bool 3 _);
                              [|destruct (Qle_bool 1 _)]];
    cbv beta iota; tenths_tac.
Qed.

Lemma score_skills_tenths (n : Z) (l : list Py.str) :
  (0 <= n)%Z -> Notions.tenths (Scorer._score_skills n l).
Proof.
  intro Hn.
  destruct (@score_skills_cases n l Hn) as (A0 & A1 & A2 & A3 & A4).
  assert (C : (n = 0 \/ 1 <= n <= 5 \/ 6 <= n <= 15 \/ 16 <= n <= 24
               \/ 25 <= n)%Z) by lia.
  destruct C as [C | [C | [C | [C | C]]]].
  - exists 0%Z. rewrite (A0 C). reflexivity.
  - exists (20 + 2 * n)%Z. rewrite (proj2 (A1 C)).
    rewrite inject_Z_plus, inject_Z_mult.
    change (inject_Z 20) with 20. change (inject_Z 2) with 2. field.
  - exists (30 + 4 * (n - 5))%Z. rewrite (proj2 (A2 C)).
    rewrite inject_Z_plus, inject_Z_mult.
    change (inject_Z 30) with 30. change (inject_Z 4) with 4. field.
  - exists (70 + 3 * (n - 15))%Z. rewrite (proj2 (A3 C)).
    rewrite inject_Z_plus, inject_Z_mult.
    change (inject_Z 70) with 70. change (inject_Z 3) with 3. field.
  - exists 100%Z. rewrite (A4 C). reflexivity.
Qed.

Lemma score_projects_tenths (p t : Py.str) :
  Notions.tenths (Scorer._score_projects p t).
Proof.
  unfold Scorer._score_projects. cbv zeta.
  destruct (_ && _)%bool; [tenths_const|].
  split_ifs; tenths_tac.
Qed.

Lemma score_contact_tenths (c : Parser.contact_info) (t : Py.str) :
  Notions.tenths (Scorer._score_contact c t).
Proof.
  unfold Scorer._score_contact. cbv zeta. split_ifs; tenths_tac.
Qed.

(** The breakdown that [compute_heuristics] returns, entry by entry. *)
Lemma compute_heuristics_breakdown (text : Py.str) (ps : Scorer.sections)
    (errs : list Py.str) :
  let text_lower := Py.lower text in
  let skills := Extractor.extract_skills_from_resume text in
  snd (Scorer.compute_heuristics text ps errs)
  = Scorer.HeurBreakdown
      (Py.round (Scorer._score_education
                   (Scorer.section_text ps "education") text_lower) 1)
      (Py.round (Scorer._score_experience
                   (Scorer.section_text ps "experience") text_lower) 1)
      (Py.round (Scorer._score_skills (Z.of_nat (List.length skills))
                   skills) 1)
      (Py.round (Scorer._score_projects
                   (Scorer.section_text ps "projects") text_lower) 1)
      (Py.round (Scorer._score_contact
                   (Parser.extract_contact_info text) text_lower) 1)
      match errs with
      | [] => 0
      | _ :: _ => - inject_Z (Z.min 10 (Z.of_nat (List.length errs) * 5))
      end.
Proof.
  unfold Scorer.compute_heuristics. cbv zeta.
  destruct errs; reflexivity.
Qed.

Lemma sub_score_sum_range (text : Py.str) (ps : Scorer.sections) :
  0 <= Spec.sub_score_sum text ps <= 50.
Proof.
  unfold Spec.sub_score_sum. cbv zeta.
  pose proof (score_education_range
                (Scorer.section_text ps "education") (Py.lower text)).
  pose proof (score_experience_range
                (Scorer.section_text ps "experience") (Py.lower text)).
  pose proof (@score_skills_range
                (Z.of_nat (List.length
                             (Extractor.extract_skills_from_resume text)))
                (Extractor.extract_skills_from_resume text)
                (Nat2Z.is_nonneg _)).
  pose proof (score_projects_range
                (Scorer.section_text ps "projects") (Py.lower text)).
  pose proof (score_contact_range
                (Parser.extract_contact_info text) (Py.lower text)).
  lra.
Qed.

Lemma penalty_values (n : nat) :
  let p := inject_Z (Z.min 10 (Z.of_nat (S n) * 5)) in
  p == 5 \/ p == 10.
Proof.
  cbv zeta. destruct n as [|n].
  - left. reflexivity.
  - right. replace (Z.min 10 (Z.of_nat (S (S n)) * 5)) with 10%Z by lia.
    reflexivity.
Qed.

(** X7.  The breakdown explains the heuristic score: every sub-score is a
    multiple of 0.1, so the breakdown holds it unrounded, and the score is
    the sum of the six breakdown entries (the penalty entry is negative),
    raised to 0 when the penalty exceeds the sub-scores.  The upper clamp
    at 50 never cuts the sum. *)
Theorem heuristic_score_is_breakdown_sum (text : Py.str)
    (ps : Scorer.sections) (errs : list Py.str) :
  let result := Scorer.compute_heuristics text ps errs in
  let bd := snd result in
  let text_lower := Py.lower text in
  let skills := Extractor.extract_skills_from_resume text in
  Scorer.education bd
  == Scorer._score_education (Scorer.section_text ps "education") text_lower
  /\ Scorer.experience bd
     == Scorer._score_experience (Scorer.section_text ps "experience")
          text_lower
  /\ Scorer.skills bd
     == Scorer._score_skills (Z.of_nat (List.length skills)) skills
  /\ Scorer.projects bd
     == Scorer._score_projects (Scorer.section_text ps "projects")
          text_lower
  /\ Scorer.contact bd
     == Scorer._score_contact (Parser.extract_contact_info text) text_lower
  /\ fst (fst result)
     == Py.max 0 (Scorer.education bd + Scorer.experience bd
                  + Scorer.skills bd + Scorer.projects bd
                  + Scorer.contact bd + Scorer.parsingPenalty bd).
Proof.
  cbv zeta. rewrite compute_heuristics_breakdown. cbv zeta.
  cbn [Scorer.education Scorer.experience Scorer.skills Scorer.projects
       Scorer.contact Scorer.parsingPenalty].
  pose proof (tenths_round (score_education_tenths
                (Scorer.section_text ps "education") (Py.lower text))) as He.
  pose proof (tenths_round (score_experience_tenths
                (Scorer.section_text ps "experience") (Py.lower text)))
    as Hx.
  pose proof (tenths_round (@score_skills_tenths
                (Z.of_nat (List.length
                             (Extractor.extract_skills_from_resume text)))
                (Extractor.extract_skills_from_resume text)
                (Nat2Z.is_nonneg _))) as Hk.
  pose proof (tenths_round (score_projects_tenths
                (Scorer.section_text ps "projects") (Py.lower text))) as Hp.
  pose proof (tenths_round (score_contact_tenths
                (Parser.extract_contact_info text) (Py.lower text))) as Hc.
  repeat (split; [assumption|]).
  rewrite compute_heuristics_score.
  pose proof (sub_score_sum_range text ps) as Hs.
  unfold Spec.sub_score_sum in *. cbv zeta in *.
  assert (Hpen : 0 <= match errs with
                      | [] => 0
                      | _ :: _ =>
                          inject_Z (Spec.parsing_penalty (List.length errs))
                      end).
  { destruct errs; [lra|]. unfold Spec.parsing_penalty.
    change 0 with (inject_Z 0). rewrite <- Zle_Qle. lia. }
  assert (Epen : match errs with
                 | [] => 0
                 | _ :: _ =>
                     - inject_Z (Z.min 10 (Z.of_nat (List.length errs) * 5))
                 end
                 == - match errs with
                      | [] => 0
                      | _ :: _ =>
                          inject_Z (Spec.parsing_penalty (List.length errs))
                      end).
  { destruct errs; [reflexivity|]. unfold Spec.parsing_penalty.
    rewrite (Z.mul_comm 5). reflexivity. }
  set (pen := match errs with
              | [] => 0
              | _ :: _ => inject_Z (Spec.parsing_penalty _)
              end) in *.
  set (pen' := match errs with [] => 0 | _ :: _ => - _ end) in *.
  set (e := Scorer._score_education _ _) in *.
  set (x := Scorer._score_experience _ _) in *.
  set (k := Scorer._score_skills _ _) in *.
  set (p := Scorer._score_projects _ _) in *.
  set (c := Scorer._score_contact _ _) in *.
  set (re := Py.round e 1) in *. set (rx := Py.round x 1) in *.
  set (rk := Py.round k 1) in *. set (rp := Py.round p 1) in *.
  set (rc := Py.round c 1) in *.
  unfold Py.max, Py.min.
  case_ltb (e + x + k + p + c - pen) 50.0;
    [case_ltb 0.0 (e + x + k + p + c - pen) | case_ltb 0.0 50.0];
    case_ltb 0 (re + rx + rk + rp + rc + pen'); lra.
Qed.

Lemma round1_range_0_10 (x : Q) : 0 <= x <= 10 -> 0 <= Py.round x 1 <= 10.
Proof.
  intros [H0 H1]. split; [apply round_nonneg, H0 | apply round1_le_10, H1].
Qed.

(** X8.  In the breakdown of the heuristic pass the five section entries
    lie in [[0, 10]], and the penalty entry is [- min(10, 5 n)] for [n]
    parsing errors, that is 0, -5 or -10. *)
Theorem heuristic_breakdown_entries (text : Py.str) (ps : Scorer.sections)
    (errs : list Py.str) :
  let bd := snd (Scorer.compute_heuristics text ps errs) in
  0 <= Scorer.education bd <= 10
  /\ 0 <= Scorer.experience bd <= 10
  /\ 0 <= Scorer.skills bd <= 10
  /\ 0 <= Scorer.projects bd <= 10
  /\ 0 <= Scorer.contact bd <= 10
  /\ Scorer.parsingPenalty bd
     == - inject_Z (Z.min 10 (5 * Z.of_nat (List.length errs)))
  /\ (Scorer.parsingPenalty bd == 0
      \/ Scorer.parsingPenalty bd == - (5)
      \/ Scorer.parsingPenalty bd == - (10)).
Proof.
  cbv zeta. rewrite compute_heuristics_breakdown. cbv zeta.
  cbn [Scorer.education Scorer.experience Scorer.skills Scorer.projects
       Scorer.contact Scorer.parsingPenalty].
  split; [apply round1_range_0_10, score_education_range|].
  split; [apply round1_range_0_10, score_experience_range|].
  split; [apply round1_range_0_10, score_skills_range, Nat2Z.is_nonneg|].
  split; [apply round1_range_0_10, score_projects_range|].
  split; [apply round1_range_0_10, score_contact_range|].
  destruct errs as [|a [|b errs]].
  - split; [reflexivity | left; reflexivity].
  - split; [reflexivity | right; left; reflexivity].
  - replace (Z.min 10 (Z.of_nat (List.length (a :: b :: errs)) * 5))
      with 10%Z by (cbn [List.length]; lia).
    replace (Z.min 10 (5 * Z.of_nat (List.length (a :: b :: errs))))
      with 10%Z by (cbn [List.length]; lia).
    split; [reflexivity | right; right; reflexivity].
Qed.

(** X9.  More parsing errors never raise the heuristic score. *)
Theorem heuristic_score_antitone_in_errors (text : Py.str)
    (ps : Scorer.sections) (errs errs' : list Py.str) :
  (List.length errs <= List.length errs')%nat ->
  fst (fst (Scorer.compute_heuristics text ps errs'))
  <= fst (fst (Scorer.compute_heuristics text ps errs)).
Proof.
  intro H. rewrite !compute_heuristics_score.
  apply clamp_mono. unfold Spec.parsing_penalty.
  assert (Hp : forall es : list Py.str,
             match es with
             | [] => 0
             | _ :: _ => inject_Z (Z.min 10 (5 * Z.of_nat (List.length es)))
             end
             == inject_Z (Z.min 10 (5 * Z.of_nat (List.length es)))).
  { intros [|e es]; reflexivity. }
  rewrite !Hp.
  assert (Hz : (Z.min 10 (5 * Z.of_nat (List.length errs))
                <= Z.min 10 (5 * Z.of_nat (List.length errs')))%Z) by lia.
  rewrite Zle_Qle in Hz. lra.
Qed.

Lemma heuristic_score_antitone_in_errors_witness :
  (List.length [Py.lit "PDF parsing error"]
   <= List.length [Py.lit "PDF parsing error"; Py.lit "truncated"])%nat
  /\ fst (fst (Scorer.compute_heuristics (Py.lit "Education: MBA")
                 [] [Py.lit "PDF parsing error"; Py.lit "truncated"]))
     <= fst (fst (Scorer.compute_heuristics (Py.lit "Education: MBA")
                    [] [Py.lit "PDF parsing error"])).
Proof.
  assert (H : (List.length [Py.lit "PDF parsing error"]
               <= List.length [Py.lit "PDF parsing error";
                               Py.lit "truncated"])%nat)
    by (cbn; lia).
  split; [exact H|].
  exact (@heuristic_score_antitone_in_errors (Py.lit "Education: MBA") []
           _ _ H).
Defined.

(** X10.  Without a job description the pipeline of the scoring script,
    [normalize_score(compute_heuristics(...)[0], None)], gives a final
    score between 0 and 98 for every text, section mapping and error
    list. *)
Theorem final_score_without_jd_range (text : Py.str) (ps : Scorer.sections)
    (errs : list Py.str) :
  let heuristic_score := fst (fst (Scorer.compute_heuristics text ps errs)) in
  0 <= fst (Scorer.normalize_score heuristic_score None) <= 98.
Proof.
  cbv zeta.
  set (h := fst (fst (Scorer.compute_heuristics text ps errs))).
  assert (Hh : 0 <= h <= 50).
  { subst h. rewrite compute_heuristics_score.
    assert (H : 0.0 <= 50.0) by lra.
    pose proof (clamp_range
                  (Spec.sub_score_sum text ps
                   - match errs with
                     | [] => 0
                     | _ :: _ =>
                         inject_Z (Spec.parsing_penalty (List.length errs))
                     end) H).
    lra. }
  split.
  - destruct (normalize_score_total_shape h None) as [t E].
    rewrite E. apply round2_range_0_100.
  - exact (@normalize_score_le_98 h None Hh I).
Qed.

(** The number of feedback messages: one for each sub-score below 5 and
    one for a non-empty list of parsing errors. *)
Lemma heuristic_feedback_length (text : Py.str) (ps : Scorer.sections)
    (errs : list Py.str) :
  let text_lower := Py.lower text in
  let skills := Extractor.extract_skills_from_resume text in
  let flag (score : Q) := if Py.ltb score 5 then 1%nat else 0%nat in
  List.length (snd (fst (Scorer.compute_heuristics text ps errs)))
  = (flag (Scorer._score_education
             (Scorer.section_text ps "education") text_lower)
     + flag (Scorer._score_experience
               (Scorer.section_text ps "experience") text_lower)
     + flag (Scorer._score_skills (Z.of_nat (List.length skills)) skills)
     + flag (Scorer._score_projects
               (Scorer.section_text ps "projects") text_lower)
     + flag (Scorer._score_contact
               (Parser.extract_contact_info text) text_lower)
     + match errs with [] => 0 | _ :: _ => 1 end)%nat.
Proof.
  unfold Scorer.compute_heuristics. cbv zeta.
  set (e := Scorer._score_education _ _).
  set (x := Scorer._score_experience _ _).
  set (k := Scorer._score_skills _ _).
  set (p := Scorer._score_projects _ _).
  set (c := Scorer._score_contact _ _).
  destruct errs; cbn [fst snd];
    destruct (Py.ltb e 5); destruct (Py.ltb x 5); destruct (Py.ltb k 5);
    destruct (Py.ltb p 5); destruct (Py.ltb c 5);
    try destruct (Qeq_bool e 0); try destruct (Qeq_bool x 0);
    try destruct (Qeq_bool p 0);
    rewrite ?length_app; reflexivity.
Qed.

(** X11.  The heuristic pass gives at most six feedback messages, and
    none at all exactly when every section entry of the breakdown is at
    least 5 and the penalty entry is 0. *)
Theorem heuristic_feedback_empty_iff (text : Py.str) (ps : Scorer.sections)
    (errs : list Py.str) :
  let result := Scorer.compute_heuristics text ps errs in
  let feedback := snd (fst result) in
  let bd := snd result in
  (List.length feedback <= 6)%nat
  /\ (feedback = [] <->
      5 <= Scorer.education bd /\ 5 <= Scorer.experience bd
      /\ 5 <= Scorer.skills bd /\ 5 <= Scorer.projects bd
      /\ 5 <= Scorer.contact bd /\ Scorer.parsingPenalty bd == 0).
Proof.
  cbv zeta. rewrite <- length_zero_iff_nil.
  rewrite heuristic_feedback_length, compute_heuristics_breakdown.
  cbv zeta.
  cbn [Scorer.education Scorer.experience Scorer.skills Scorer.projects
       Scorer.contact Scorer.parsingPenalty].
  pose proof (tenths_round (score_education_tenths
                (Scorer.section_text ps "education") (Py.lower text))) as He.
  pose proof (tenths_round (score_experience_tenths
                (Scorer.section_text ps "experience") (Py.lower text)))
    as Hx.
  pose proof (tenths_round (@score_skills_tenths
                (Z.of_nat (List.length
                             (Extractor.extract_skills_from_resume text)))
                (Extractor.extract_skills_from_resume text)
                (Nat2Z.is_nonneg _))) as Hk.
  pose proof (tenths_round (score_projects_tenths
                (Scorer.section_text ps "projects") (Py.lower text))) as Hp.
  pose proof (tenths_round (score_contact_tenths
                (Parser.extract_contact_info text) (Py.lower text))) as Hc.
  set (e := Scorer._score_education _ _) in *.
  set (x := Scorer._score_experience _ _) in *.
  set (k := Scorer._score_skills _ _) in *.
  set (p := Scorer._score_projects _ _) in *.
  set (c := Scorer._score_contact _ _) in *.
  assert (Hpen : match errs with
                 | [] => True
                 | _ :: _ =>
                     5 <= inject_Z
                            (Z.min 10 (Z.of_nat (List.length errs) * 5))
                 end).
  { destruct errs as [|a l]; [exact I|].
    change 5 with (inject_Z 5). rewrite <- Zle_Qle.
    cbn [List.length]. lia. }
  destruct errs as [|a l];
    case_ltb e 5; case_ltb x 5; case_ltb k 5; case_ltb p 5; case_ltb c 5;
    (split; [cbn; lia|]);
    (split; [intro H; try (exfalso; cbn in H; lia);
             repeat split; try lra; reflexivity
            | intros (H1 & H2 & H3 & H4 & H5 & H6);
              try reflexivity; exfalso; lra]).
Qed.

(** X12.  An empty resume text without parsed sections scores 0, with
    every breakdown section entry 0: the feedback names the five sections
    as missing or incomplete, followed by the parsing message when there
    are parsing errors. *)
Theorem heuristics_of_empty_resume (ps : Scorer.sections)
    (errs : list Py.str) :
  Scorer.section_text ps "education" = [] ->
  Scorer.section_text ps "experience" = [] ->
  Scorer.section_text ps "projects" = [] ->
  let result := Scorer.compute_heuristics [] ps errs in
  fst (fst result) == 0
  /\ Scorer.education (snd result) == 0
  /\ Scorer.experience (snd result) == 0
  /\ Scorer.skills (snd result) == 0
  /\ Scorer.projects (snd result) == 0
  /\ Scorer.contact (snd result) == 0
  /\ snd (fst result)
     = map Py.lit
         ["Missing or undetected Education section";
          "Missing or undetected Experience section";
          "Only 0 technical skills detected - add more relevant technologies (target: 20+)";
          "Missing Projects section - showcase your work with technical details";
          "Contact info incomplete - add email, phone, and LinkedIn/GitHub"]%string
       ++ match errs with
          | [] => []
          | _ :: _ =>
              [Py.lit "Parsing issues detected: "
               ++ Py.join (Py.lit "; ") (firstn 3 errs)]
          end.
Proof.
  intros H1 H2 H3. cbv zeta.
  assert (Hsum : Spec.sub_score_sum [] ps == 0).
  { unfold Spec.sub_score_sum. rewrite H1, H2, H3. vm_compute. reflexivity. }
  split.
  { rewrite compute_heuristics_score.
    assert (Hpen : 0 <= match errs with
                        | [] => 0
                        | _ :: _ =>
                            inject_Z
                              (Spec.parsing_penalty (List.length errs))
                        end).
    { destruct errs; [lra|]. unfold Spec.parsing_penalty.
      change 0 with (inject_Z 0). rewrite <- Zle_Qle. lia. }
    set (pen := match errs with [] => 0 | _ :: _ => _ end) in *.
    set (sum := Spec.sub_score_sum [] ps) in *.
    unfold Py.max, Py.min.
    case_ltb (sum - pen) 50.0; [|exfalso; lra].
    case_ltb 0.0 (sum - pen); lra. }
  rewrite compute_heuristics_breakdown, compute_heuristics_feedback.
  cbv zeta.
  cbn [Scorer.education Scorer.experience Scorer.skills Scorer.projects
       Scorer.contact].
  rewrite H1, H2, H3.
  repeat (split; [vm_compute; reflexivity|]).
  f_equal.
  unfold Scorer.compute_heuristics. rewrite H1, H2, H3.
  vm_compute. reflexivity.
Qed.

Lemma heuristics_of_empty_resume_witness :
  let ps := [(Py.lit "skills", Some (Py.lit "Python"));
             (Py.lit "education", None)] in
  let errs := [Py.lit "Unsupported file extension"] in
  Scorer.section_text ps "education" = []
  /\ Scorer.section_text ps "experience" = []
  /\ Scorer.section_text ps "projects" = []
  /\ fst (fst (Scorer.compute_heuristics [] ps errs)) == 0.
Proof.
  intros ps errs.
  assert (H1 : Scorer.section_text ps "education" = []) by reflexivity.
  assert (H2 : Scorer.section_text ps "experience" = []) by reflexivity.
  assert (H3 : Scorer.section_text ps "projects" = []) by reflexivity.
  split; [exact H1|]. split; [exact H2|]. split; [exact H3|].
  exact (proj1 (@heuristics_of_empty_resume ps errs H1 H2 H3)).
Defined.

(** ** The experience depth *)

(** X22.  [_compute_experience_depth] returns a score between 0 and 10
    for every section and text. *)
Theorem compute_experience_depth_range (experience_section full_text : Py.str) :
  0 <= Scorer._compute_experience_depth experience_section full_text <= 10.
Proof.
  unfold Scorer._compute_experience_depth. cbv zeta.
  set (text_lower := Py.lower _).
  assert (H3 : 0 <= 3.0) by lra. assert (H05 : 0 <= 0.5) by lra.
  assert (H2 : 0 <= 2.0) by lra. assert (H075 : 0 <= 0.75) by lra.
  assert (H1 : 0 <= 1.0) by lra. assert (H04 : 0 <= 0.4) by lra.
  pose proof (@bonus_range 3.0 0.5
                (Py.count_in
                   (Scorer.lits
                      ["led"; "developed"; "implemented"; "designed";
                       "architected"; "managed"; "built"; "created";
                       "optimized"; "improved"; "reduced"; "increased";
                       "delivered"; "launched"; "mentored"; "scaled";
                       "automated"; "integrated"; "deployed";
                       "spearheaded"]%string) text_lower) H3 H05) as Ha.
  pose proof (@bonus_range 3.0 0.75
                (List.length (Re.findall Scorer.numbers_re text_lower))
                H3 H075) as Hn.
  pose proof (@bonus_range 2.0 1.0
                (Py.count_in
                   (Scorer.lits
                      ["senior"; "lead"; "principal"; "staff"; "architect";
                       "manager"; "director"; "head of"]%string) text_lower)
                H2 H1) as Hs.
  pose proof (@bonus_range 2.0 0.4
                (Py.count_in
                   (Scorer.lits
                      ["api"; "database"; "cloud"; "aws"; "gcp"; "azure";
                       "kubernetes"; "docker"; "microservices"; "ci/cd";
                       "agile"; "scrum"; "testing"; "security"]%string)
                   text_lower) H2 H04) as Ht.
  set (a := Py.min 3.0 (_ * 0.5)) in *.
  set (n := Py.min 3.0 (_ * 0.75)) in *.
  set (s := Py.min 2.0 (_ * 1.0)) in *.
  set (t := Py.min 2.0 (_ * 0.4)) in *.
  apply min10_range. lra.
Qed.

(** ** The pattern matcher is sound *)

Section Matcher.

Import Py Re Notions.

Local Close Scope Q_scope.

Lemma run_star (A : Type) (a : regex) prev s g
    (k : option ascii -> str -> option str -> option A) :
  run (Star a) prev s g k
  = star_loop (fun p s g k => run a p s g k) k (List.length s) prev s g.
Proof. reflexivity. Qed.

Lemma last_char_app (w1 w2 : str) : forall prev,
  last_char prev (w1 ++ w2) = last_char (last_char prev w1) w2.
Proof. induction w1 as [|c t IH]; intro prev; [reflexivity | apply IH]. Qed.

Lemma run_sound (r : regex) :
  forall (A : Type) prev s g
         (k : option ascii -> str -> option str -> option A) x,
    run r prev s g k = Some x ->
    exists w rest g',
      s = w ++ rest /\ matches r prev w rest
      /\ k (last_char prev w) rest g' = Some x.
Proof.
  induction r as [|p|a IHa b IHb|a IHa b IHb|a IHa|a IHa|];
    intros A prev s g k x H.
  - exists [], s, g. repeat split; [constructor | exact H].
  - cbn [run] in H. destruct s as [|c t]; [discriminate|].
    destruct (p c) eqn:E; [|discriminate].
    exists [c], t, g. repeat split; [constructor; exact E | exact H].
  - cbn [run] in H. apply IHa in H.
    destruct H as (w1 & rest1 & g1 & Hs & Hm1 & H).
    apply IHb in H. destruct H as (w2 & rest & g2 & Hr & Hm2 & H).
    exists (w1 ++ w2), rest, g2. subst. rewrite <- app_assoc.
    repeat split; [constructor; assumption|].
    rewrite last_char_app. exact H.
  - cbn [run] in H.
    destruct (run a prev s g k) eqn:E.
    + inversion H; subst. apply IHa in E.
      destruct E as (w & rest & g' & Hs & Hm & Hk).
      exists w, rest, g'. repeat split; [exact Hs | | exact Hk].
      apply m_alt_l, Hm.
    + apply IHb in H. destruct H as (w & rest & g' & Hs & Hm & Hk).
      exists w, rest, g'. repeat split; [exact Hs | | exact Hk].
      apply m_alt_r, Hm.
  - rewrite run_star in H.
    assert (Hloop : forall n prev s g,
               star_loop (fun p s g k => run a p s g k) k n prev s g
               = Some x ->
               exists w rest g',
                 s = w ++ rest /\ matches (Star a) prev w rest
                 /\ k (last_char prev w) rest g' = Some x).
    { clear prev s g H.
      induction n as [|n IHn]; intros prev s g H.
      + exists [], s, g. repeat split; [constructor | exact H].
      + cbn [star_loop] in H.
        match type of H with
        | match ?m with _ => _ end = _ => destruct m eqn:E
        end.
        * inversion H; subst. apply IHa in E.
          destruct E as (w1 & rest1 & g1 & Hs & Hm1 & Hk).
          destruct (Nat.ltb (List.length rest1) (List.length s)) eqn:El;
            [|discriminate].
          apply IHn in Hk. destruct Hk as (w2 & rest & g2 & Hr & Hm2 & Hk).
          exists (w1 ++ w2), rest, g2. subst. rewrite <- app_assoc.
          repeat split; [|rewrite last_char_app; exact Hk].
          apply m_star_cons; [|assumption|assumption].
          intro Hw. subst w1. apply Nat.ltb_lt in El. cbn in El. lia.
        * exists [], s, g. repeat split; [constructor | exact H]. }
    exact (Hloop _ _ _ _ H).
  - cbn [run] in H. apply IHa in H.
    destruct H as (w & rest & g' & Hs & Hm & Hk).
    exists w, rest, (Some (firstn (List.length s - List.length rest) s)).
    repeat split; [exact Hs | constructor; exact Hm | exact Hk].
  - cbn [run] in H. destruct (at_boundary prev s) eqn:E; [|discriminate].
    exists [], s, g. repeat split; [constructor; exact E | exact H].
Qed.

Lemma match_here_sound (r : regex) prev s n f :
  match_here r prev s = Some (n, f) ->
  exists rest,
    s = whole f ++ rest /\ n = List.length (whole f)
    /\ matches r prev (whole f) rest.
Proof.
  unfold match_here. intro H. apply run_sound in H.
  destruct H as (w & rest & g' & Hs & Hm & Hk).
  inversion Hk; subst. cbn [whole].
  rewrite length_app, Nat.add_sub, firstn_app, Nat.sub_diag, firstn_all.
  cbn [firstn]. rewrite app_nil_r.
  exists rest. repeat split. exact Hm.
Qed.

Lemma search_from_sound (r : regex) (s : str) : forall prev pos a b f,
  search_from r prev s pos = Some (a, b, f) ->
  exists pre rest,
    s = pre ++ whole f ++ rest /\ a = pos + List.length pre
    /\ b = a + List.length (whole f)
    /\ matches r (last_char prev pre) (whole f) rest.
Proof.
  induction s as [|c t IH]; intros prev pos a b f H; cbn [search_from] in H.
  - destruct (match_here r prev []) as [[n m]|] eqn:E; [|discriminate].
    inversion H; subst. apply match_here_sound in E.
    destruct E as (rest & Hs & Hn & Hm).
    exists [], rest. cbn [app List.length last_char].
    rewrite Nat.add_0_r. repeat split; assumption || (subst; reflexivity).
  - destruct (match_here r prev (c :: t)) as [[n m]|] eqn:E.
    + inversion H; subst. apply match_here_sound in E.
      destruct E as (rest & Hs & Hn & Hm).
      exists [], rest. cbn [app List.length last_char].
      rewrite Nat.add_0_r.
      repeat split; assumption || (subst; reflexivity).
    + apply IH in H. destruct H as (pre & rest & Hs & Ha & Hb & Hm).
      exists (c :: pre), rest. cbn [app List.length last_char].
      repeat split; [rewrite Hs; reflexivity | lia | exact Hb | exact Hm].
Qed.

Lemma search_sound (r : regex) (s : str) a b f :
  search r s = Some (a, b, f) ->
  exists pre rest,
    s = pre ++ whole f ++ rest /\ a = List.length pre
    /\ b = a + List.length (whole f)
    /\ matches r (last_char None pre) (whole f) rest.
Proof. intro H. apply search_from_sound in H. exact H. Qed.

(** Inversion of [matches] on the forms of pattern the sources use. *)
Lemma matches_cls_inv (p : ascii -> bool) prev w rest :
  matches (Cls p) prev w rest -> exists c, w = [c] /\ p c = true.
Proof. intro H. inversion H; subst. eexists; split; eauto. Qed.

Lemma matches_seq_inv a b prev w rest :
  matches (Seq a b) prev w rest ->
  exists w1 w2, w = w1 ++ w2 /\ matches a prev w1 (w2 ++ rest)
                /\ matches b (last_char prev w1) w2 rest.
Proof. intro H. inversion H; subst. eexists _, _; repeat split; eauto. Qed.

Lemma matches_alt_inv a b prev w rest :
  matches (Alt a b) prev w rest ->
  matches a prev w rest \/ matches b prev w rest.
Proof. intro H. inversion H; subst; [left | right]; assumption. Qed.

Lemma matches_eps_inv prev w rest : matches Eps prev w rest -> w = [].
Proof. intro H. inversion H. reflexivity. Qed.

Lemma matches_grp_inv a prev w rest :
  matches (Grp a) prev w rest -> matches a prev w rest.
Proof. intro H. inversion H. assumption. Qed.

Lemma matches_star_cls (p : ascii -> bool) prev w rest :
  matches (Star (Cls p)) prev w rest -> forallb p w = true.
Proof.
  intro H. remember (Star (Cls p)) as r eqn:Er.
  induction H; try discriminate; [reflexivity|].
  inversion Er; subst.
  apply matches_cls_inv in H0. destruct H0 as (c & Hc & Hp). subst.
  cbn [app forallb]. rewrite Hp. apply IHmatches2. reflexivity.
Qed.

Lemma matches_plus_cls (p : ascii -> bool) prev w rest :
  matches (Plus (Cls p)) prev w rest -> w <> [] /\ forallb p w = true.
Proof.
  unfold Plus. intro H. apply matches_seq_inv in H.
  destruct H as (w1 & w2 & Hw & H1 & H2).
  apply matches_cls_inv in H1. destruct H1 as (c & Hc & Hp).
  apply matches_star_cls in H2. subst. cbn [app forallb].
  rewrite Hp, H2. split; [discriminate | reflexivity].
Qed.

Lemma matches_opt_chr (c : ascii) prev w rest :
  matches (Opt (Chr c)) prev w rest -> w = [] \/ w = [c].
Proof.
  unfold Opt, Chr. intro H. apply matches_alt_inv in H. destruct H as [H|H].
  - apply matches_cls_inv in H. destruct H as (d & Hd & He).
    apply Ascii.eqb_eq in He. subst. right. reflexivity.
  - left. exact (matches_eps_inv H).
Qed.

Lemma matches_atleast_cls (p : ascii -> bool) (n : nat) : forall prev w rest,
  matches (AtLeast n (Cls p)) prev w rest ->
  n <= List.length w /\ forallb p w = true.
Proof.
  induction n as [|n IH]; intros prev w rest H; cbn [AtLeast] in H.
  - split; [lia | exact (matches_star_cls H)].
  - apply matches_seq_inv in H. destruct H as (w1 & w2 & Hw & H1 & H2).
    apply matches_cls_inv in H1. destruct H1 as (c & Hc & Hp).
    apply IH in H2. destruct H2 as [Hl Hf]. subst.
    cbn [app List.length forallb]. rewrite Hp, Hf. split; [lia | reflexivity].
Qed.

Lemma matches_email prev w rest :
  matches Parser.email_re prev w rest ->
  exists l r, w = l ++ "@"%char :: r /\ l <> [] /\ r <> []
              /\ forallb email_char l = true /\ forallb email_char r = true.
Proof.
  unfold Parser.email_re. cbv zeta. fold email_char. intro H.
  apply matches_seq_inv in H. destruct H as (l & w2 & Hw & Hl & H).
  apply matches_seq_inv in H. destruct H as (at_ & r & Hw2 & Hat & Hr).
  apply matches_plus_cls in Hl. apply matches_plus_cls in Hr.
  apply matches_cls_inv in Hat. destruct Hat as (c & Hc & He).
  apply Ascii.eqb_eq in He. subst.
  exists l, r. cbn [app]. intuition.
Qed.

Lemma matches_phone prev w rest :
  matches Parser.phone_re prev w rest ->
  exists sign d1 mid d2,
    w = sign ++ d1 :: mid ++ [d2] /\ (sign = [] \/ sign = ["+"%char])
    /\ isdigit d1 = true /\ isdigit d2 = true
    /\ 6 <= List.length mid /\ forallb phone_char mid = true.
Proof.
  unfold Parser.phone_re. cbv zeta. fold phone_char. intro H.
  apply matches_grp_inv in H.
  apply matches_seq_inv in H. destruct H as (sign & w2 & Hw & Hs & H).
  apply matches_seq_inv in H. destruct H as (x1 & w3 & Hw2 & H1 & H).
  apply matches_seq_inv in H. destruct H as (mid & x2 & Hw3 & Hm & H2).
  apply matches_opt_chr in Hs.
  apply matches_cls_inv in H1. destruct H1 as (d1 & Hd1 & Hp1).
  apply matches_cls_inv in H2. destruct H2 as (d2 & Hd2 & Hp2).
  apply matches_atleast_cls in Hm. destruct Hm as [Hl Hf].
  subst. exists sign, d1, mid, d2. cbn [app]. intuition.
Qed.

(** X13.  An e-mail address found by [extract_contact_info] is a piece
    of the text of the form [local@domain], both parts non-empty and made
    of word characters, dots and hyphens; a phone number found is a piece
    of the text of at least eight characters: an optional plus, a digit,
    six or more digits, blanks, hyphens or parentheses, and a closing
    digit.  A text without an at-sign has no e-mail address. *)
Theorem extract_contact_info_shape (text : str) :
  (forall e, Parser.email (Parser.extract_contact_info text) = Some e ->
     exists pre post l r,
       text = pre ++ e ++ post /\ e = l ++ "@"%char :: r
       /\ l <> [] /\ r <> []
       /\ forallb email_char l = true /\ forallb email_char r = true)
  /\ (forall p, Parser.phone (Parser.extract_contact_info text) = Some p ->
        exists pre post sign d1 mid d2,
          text = pre ++ p ++ post /\ p = sign ++ d1 :: mid ++ [d2]
          /\ (sign = [] \/ sign = ["+"%char])
          /\ isdigit d1 = true /\ isdigit d2 = true
          /\ 6 <= List.length mid /\ forallb phone_char mid = true)
  /\ (~ In "@"%char text ->
      Parser.email (Parser.extract_contact_info text) = None).
Proof.
  unfold Parser.extract_contact_info. cbv zeta. cbn [Parser.email Parser.phone].
  assert (He : forall e, Parser.group0 (search Parser.email_re text) = Some e ->
             exists pre post l r,
               text = pre ++ e ++ post /\ e = l ++ "@"%char :: r
               /\ l <> [] /\ r <> []
               /\ forallb email_char l = true
               /\ forallb email_char r = true).
  { intros e H. unfold Parser.group0 in H.
    destruct (search Parser.email_re text) as [[[a b] f]|] eqn:E;
      [|discriminate].
    inversion H; subst. apply search_sound in E.
    destruct E as (pre & rest & Hs & _ & _ & Hm).
    apply matches_email in Hm. destruct Hm as (l & r & Hw & Hrest).
    exists pre, rest, l, r. intuition. }
  split; [exact He|]. split.
  - intros p H. unfold Parser.group0 in H.
    destruct (search Parser.phone_re text) as [[[a b] f]|] eqn:E;
      [|discriminate].
    inversion H; subst. apply search_sound in E.
    destruct E as (pre & rest & Hs & _ & _ & Hm).
    apply matches_phone in Hm.
    destruct Hm as (sign & d1 & mid & d2 & Hw & Hrest).
    exists pre, rest, sign, d1, mid, d2. intuition.
  - intro Hno.
    destruct (Parser.group0 (search Parser.email_re text)) as [e|] eqn:E;
      [|reflexivity].
    exfalso. apply Hno.
    destruct (He e eq_refl) as (pre & post & l & r & Ht & Hde & _).
    rewrite Ht, Hde. rewrite !in_app_iff. cbn [In]. tauto.
Qed.

(** *** Skill patterns *)

Lemma startswith_iff (p s : str) :
  startswith p s = true <-> exists rest, s = p ++ rest.
Proof.
  revert s. induction p as [|a p IH]; intro s.
  - split; [intros _; exists s; reflexivity | reflexivity].
  - destruct s as [|b s]; cbn [startswith].
    + split; [discriminate | intros [rest H]; discriminate].
    + rewrite andb_true_iff, Ascii.eqb_eq, IH. split.
      * intros [E [rest H]]. exists rest. subst. reflexivity.
      * intros [rest H]. inversion H; subst. split; [reflexivity|].
        exists rest. reflexivity.
Qed.

Lemma run_lit (A : Type) (l : str) : forall prev s g
    (k : option ascii -> str -> option str -> option A),
  run (Lit l) prev s g k
  = if startswith l s
    then k (last_char prev l) (skipn (List.length l) s) g
    else None.
Proof.
  induction l as [|c t IH]; intros prev s g k; [reflexivity|].
  cbn [Lit run Chr]. destruct s as [|d s']; [reflexivity|].
  cbn [startswith List.length skipn last_char].
  destruct (Ascii.eqb c d) eqn:E; [|reflexivity].
  apply Ascii.eqb_eq in E. subst d. cbn [andb]. apply IH.
Qed.

Lemma match_here_skill (skill : str) prev s :
  match_here (Extractor.skill_pattern skill) prev s
  = if word_here skill prev s
    then Some (List.length skill, Found skill None)
    else None.
Proof.
  unfold match_here, Extractor.skill_pattern, word_here.
  cbn [run]. destruct (at_boundary prev s); [|reflexivity].
  rewrite run_lit. cbn [andb].
  destruct (startswith skill s) eqn:E; [|reflexivity].
  cbn [run andb].
  destruct (at_boundary _ _); [|reflexivity].
  apply startswith_iff in E. destruct E as [rest E]. subst s.
  rewrite skipn_app, Nat.sub_diag, skipn_all. cbn [skipn app].
  rewrite length_app, Nat.add_sub, firstn_app, Nat.sub_diag, firstn_all.
  cbn [firstn]. rewrite app_nil_r. reflexivity.
Qed.

(** The search for a skill, position by position. *)
Lemma search_skill_some (skill : str) (s : str) : forall prev pos a b f,
  search_from (Extractor.skill_pattern skill) prev s pos = Some (a, b, f) ->
  exists pre post,
    s = pre ++ skill ++ post /\ a = pos + List.length pre
    /\ b = a + List.length skill
    /\ word_here skill (last_char prev pre) (skill ++ post) = true.
Proof.
  induction s as [|c t IH]; intros prev pos a b f H; cbn [search_from] in H;
    rewrite match_here_skill in H.
  - destruct (word_here skill prev []) eqn:E; [|discriminate].
    inversion H; subst.
    assert (Hs : startswith skill [] = true).
    { unfold word_here in E. apply andb_true_iff in E. destruct E as [E _].
      apply andb_true_iff in E. apply E. }
    apply startswith_iff in Hs. destruct Hs as [rest Hs].
    exists [], rest. cbn [app List.length last_char].
    rewrite Nat.add_0_r, <- Hs. auto.
  - destruct (word_here skill prev (c :: t)) eqn:E.
    + inversion H; subst.
      assert (Hs : startswith skill (c :: t) = true).
      { unfold word_here in E. apply andb_true_iff in E. destruct E as [E _].
        apply andb_true_iff in E. apply E. }
      apply startswith_iff in Hs. destruct Hs as [rest Hs].
      exists [], rest. cbn [app List.length last_char].
      rewrite Nat.add_0_r, <- Hs. auto.
    + apply IH in H. destruct H as (pre & post & Hs & Ha & Hb & Hw).
      exists (c :: pre), post. cbn [app List.length last_char].
      repeat split; [rewrite Hs; reflexivity | lia | exact Hb | exact Hw].
Qed.

Lemma search_skill_none (skill : str) (s : str) : forall prev pos pre post,
  search_from (Extractor.skill_pattern skill) prev s pos = None ->
  s = pre ++ skill ++ post ->
  word_here skill (last_char prev pre) (skill ++ post) = false.
Proof.
  induction s as [|c t IH]; intros prev pos pre post H Hs;
    cbn [search_from] in H; rewrite match_here_skill in H.
  - destruct (word_here skill prev []) eqn:E; [discriminate|].
    destruct pre; [|discriminate]. cbn [app] in Hs. rewrite <- Hs.
    exact E.
  - destruct (word_here skill prev (c :: t)) eqn:E; [discriminate|].
    destruct pre as [|d pre].
    + cbn [app] in Hs. rewrite <- Hs. exact E.
    + cbn [app] in Hs. inversion Hs; subst.
      cbn [last_char]. eapply IH; [exact H | reflexivity].
Qed.

Lemma word_here_occurs (skill pre post : str) :
  word_here skill (last_char None pre) (skill ++ post) = true <->
  at_boundary (last_char None pre) (skill ++ post) = true
  /\ at_boundary (last_char None (pre ++ skill)) post = true.
Proof.
  unfold word_here.
  assert (Hs : startswith skill (skill ++ post) = true)
    by (apply startswith_iff; exists post; reflexivity).
  rewrite Hs, andb_true_r, andb_true_iff.
  rewrite skipn_app, Nat.sub_diag, skipn_all, last_char_app.
  reflexivity.
Qed.

Lemma search_skill_iff (skill text : str) :
  (exists a b f, search (Extractor.skill_pattern skill) text = Some (a, b, f))
  <-> occurs_as_word skill text.
Proof.
  unfold search, occurs_as_word. split.
  - intros (a & b & f & H). apply search_skill_some in H.
    destruct H as (pre & post & Hs & _ & _ & Hw).
    exists pre, post. split; [exact Hs|]. apply word_here_occurs, Hw.
  - intros (pre & post & Hs & Hb).
    destruct (search_from (Extractor.skill_pattern skill) None text 0)
      as [[[a b] f]|] eqn:E; [eauto|].
    exfalso. pose proof (@search_skill_none _ _ _ _ pre post E Hs) as Hn.
    apply word_here_occurs in Hb. congruence.
Qed.

Lemma lower_slice (text : str) (a b : nat) :
  lower (slice text a b) = slice (lower text) a b.
Proof. unfold lower, slice. rewrite skipn_map, firstn_map. reflexivity. Qed.

Lemma search_skill_slice (skill s : str) a b f :
  search (Extractor.skill_pattern skill) s = Some (a, b, f) ->
  slice s a b = skill.
Proof.
  intro H. apply search_skill_some in H.
  destruct H as (pre & post & Hs & Ha & Hb & _). subst.
  unfold slice. cbn [Nat.add].
  rewrite Nat.add_comm, Nat.add_sub.
  rewrite skipn_app, Nat.sub_diag, skipn_all. cbn [skipn app].
  rewrite firstn_app, Nat.sub_diag, firstn_all. cbn [firstn].
  apply app_nil_r.
Qed.

(** *** Deduplication *)

Lemma str_eqb_eq (a b : str) : str_eqb a b = true <-> a = b.
Proof.
  unfold str_eqb. destruct (list_eq_dec ascii_dec a b); split; congruence.
Qed.

Lemma in_set_iff (w : str) (xs : list str) :
  TextCleaner.in_set w xs = true <-> In w xs.
Proof.
  unfold TextCleaner.in_set. rewrite existsb_exists. split.
  - intros (x & Hx & E). apply str_eqb_eq in E. subst. exact Hx.
  - intro H. exists w. split; [exact H | apply str_eqb_eq; reflexivity].
Qed.

Lemma deduplicate_loop_spec (skills : list str) : forall seen,
  let out := Extractor.deduplicate_loop seen skills in
  NoDup (map Extractor.normalize_skill out)
  /\ (forall s, In s out ->
        In s skills /\ Extractor.normalize_skill s <> []
        /\ ~ In (Extractor.normalize_skill s) seen)
  /\ (forall s, In s skills -> Extractor.normalize_skill s <> [] ->
        In (Extractor.normalize_skill s) seen
        \/ In (Extractor.normalize_skill s)
             (map Extractor.normalize_skill out)).
Proof.
  induction skills as [|skill rest IH]; intro seen; cbv zeta.
  - cbn. split; [constructor|]. split; intros s [].
  - cbn [Extractor.deduplicate_loop].
    destruct (Extractor.normalize_skill skill) as [|c n] eqn:En.
    + destruct (IH seen) as (H1 & H2 & H3).
      split; [exact H1|]. split.
      * intros s Hs. destruct (H2 s Hs) as (Ha & Hb). split; [right|]; auto.
      * intros s [Hs|Hs] Hn; [subst; congruence | auto].
    + destruct (TextCleaner.in_set (c :: n) seen) eqn:Es.
      * apply in_set_iff in Es. destruct (IH seen) as (H1 & H2 & H3).
        split; [exact H1|]. split.
        -- intros s Hs. destruct (H2 s Hs) as (Ha & Hb).
           split; [right|]; auto.
        -- intros s [Hs|Hs] Hn; [subst; left; rewrite En; exact Es | auto].
      * assert (Hns : ~ In (c :: n) seen).
        { intro Hin. apply in_set_iff in Hin. congruence. }
        destruct (IH ((c :: n) :: seen)) as (H1 & H2 & H3).
        split; [|split].
        -- cbn [map]. rewrite En. constructor; [|exact H1].
           intro Hin. apply in_map_iff in Hin.
           destruct Hin as (s & Hs & Hin).
           destruct (H2 s Hin) as (_ & _ & Hn). apply Hn. left. auto.
        -- intros s [Hs|Hs].
           ++ subst. rewrite En. repeat split; [left; reflexivity
                                               | discriminate | exact Hns].
           ++ destruct (H2 s Hs) as (Ha & Hb & Hc).
              repeat split; [right; exact Ha | exact Hb|].
              intro Hin. apply Hc. right. exact Hin.
        -- intros s [Hs|Hs] Hn.
           ++ subst. right. left. reflexivity.
           ++ destruct (H3 s Hs Hn) as [[Hin|Hin]|Hin].
              ** right. left. rewrite En. exact Hin.
              ** left. exact Hin.
              ** right. right. exact Hin.
Qed.

Lemma deduplicate_loop_id (l : list str) : forall seen,
  NoDup (map Extractor.normalize_skill l) ->
  (forall s, In s l -> Extractor.normalize_skill s <> []
                       /\ ~ In (Extractor.normalize_skill s) seen) ->
  Extractor.deduplicate_loop seen l = l.
Proof.
  induction l as [|x l IH]; intros seen Hnd H; [reflexivity|].
  cbn [Extractor.deduplicate_loop].
  destruct (H x (or_introl eq_refl)) as [Hne Hns].
  destruct (Extractor.normalize_skill x) as [|c n] eqn:En; [congruence|].
  destruct (TextCleaner.in_set (c :: n) seen) eqn:Es.
  { apply in_set_iff in Es. contradiction. }
  f_equal. cbn [map] in Hnd. inversion Hnd as [|? ? Hx Hl]; subst.
  apply IH; [exact Hl|].
  intros s Hs. destruct (H s (or_intror Hs)) as [Hsn Hss].
  split; [exact Hsn|]. intros [Hin|Hin]; [|contradiction].
  apply Hx. rewrite En, Hin. apply in_map, Hs.
Qed.

Lemma deduplicate_loop_length (l : list str) : forall seen,
  List.length (Extractor.deduplicate_loop seen l) <= List.length l.
Proof.
  induction l as [|x l IH]; intro seen; [reflexivity|].
  cbn [Extractor.deduplicate_loop].
  destruct (Extractor.normalize_skill x) as [|c n].
  - specialize (IH seen). cbn [List.length]. lia.
  - destruct (TextCleaner.in_set (c :: n) seen).
    + specialize (IH seen). cbn [List.length]. lia.
    + cbn [List.length]. apply le_n_S. exact (IH ((c :: n) :: seen)).
Qed.

(** X14.  [deduplicate_skills] returns skills of its input whose
    normalised forms are non-empty and pairwise different; every input
    skill with a non-empty normalised form is represented by a returned
    skill with the same normalised form; the result is no longer than the
    input and deduplicating it again changes nothing. *)
Theorem deduplicate_skills_spec (skills : list str) :
  let out := Extractor.deduplicate_skills skills in
  NoDup (map Extractor.normalize_skill out)
  /\ (forall s, In s out ->
        In s skills /\ Extractor.normalize_skill s <> [])
  /\ (forall s, In s skills -> Extractor.normalize_skill s <> [] ->
        exists s', In s' out
                   /\ Extractor.normalize_skill s'
                      = Extractor.normalize_skill s)
  /\ List.length out <= List.length skills
  /\ Extractor.deduplicate_skills out = out.
Proof.
  cbv zeta. unfold Extractor.deduplicate_skills.
  destruct (deduplicate_loop_spec skills []) as (H1 & H2 & H3).
  split; [exact H1|]. split; [|split; [|split]].
  - intros s Hs. destruct (H2 s Hs) as (Ha & Hb & _). auto.
  - intros s Hs Hn. destruct (H3 s Hs Hn) as [[]|Hin].
    apply in_map_iff in Hin. destruct Hin as (s' & E & Hin). eauto.
  - apply deduplicate_loop_length.
  - apply deduplicate_loop_id; [exact H1|].
    intros s Hs. destruct (H2 s Hs) as (_ & Hb & _). auto.
Qed.

(** *** Skills of a resume *)

Lemma normalize_skill_squash (x : str) :
  x <> [] -> Extractor.normalize_skill x = squash (lower x).
Proof. destruct x; [contradiction | reflexivity]. Qed.

Lemma known_skills_normal :
  forallb (fun k => Scorer.nonempty k && str_eqb (squash k) k)%bool
          Extractor.KNOWN_SKILLS = true.
Proof. vm_compute. reflexivity. Qed.

Lemma known_skill_facts (k : str) :
  In k Extractor.KNOWN_SKILLS -> k <> [] /\ squash k = k.
Proof.
  intro H. pose proof known_skills_normal as Hk.
  rewrite forallb_forall in Hk. specialize (Hk k H).
  apply andb_true_iff in Hk. destruct Hk as [Hn He].
  apply str_eqb_eq in He. split; [|exact He].
  destruct k; [discriminate | discriminate].
Qed.

Lemma found_skills_lower (text : str) (ks : list str) :
  map lower
    (flat_map
       (fun skill =>
          match search (Extractor.skill_pattern skill) (lower text) with
          | Some (start, stop, _) => [slice text start stop]
          | None => []
          end) ks)
  = filter (found_in (lower text)) ks.
Proof.
  induction ks as [|k ks IH]; [reflexivity|].
  cbn [flat_map filter]. rewrite map_app, IH. unfold found_in at 2.
  destruct (search (Extractor.skill_pattern k) (lower text))
    as [[[a b] f]|] eqn:E; [|reflexivity].
  cbn [map app]. rewrite lower_slice, (search_skill_slice _ _ E).
  reflexivity.
Qed.

Lemma map_ext_in_str (f g : str -> str) (l : list str) :
  (forall x, In x l -> f x = g x) -> map f l = map g l.
Proof. apply map_ext_in. Qed.

Lemma extract_skills_lower (text : str) :
  map lower (Extractor.extract_skills_from_resume text)
  = filter (found_in (lower text)) Extractor.KNOWN_SKILLS.
Proof.
  destruct text as [|c t].
  { cbn [Extractor.extract_skills_from_resume map lower].
    assert (H : forall ks, (forall k, In k ks -> k <> []) ->
                           filter (found_in []) ks = []).
    { induction ks as [|k ks IH]; intro Hk; [reflexivity|].
      cbn [filter]. rewrite IH by (intros; apply Hk; right; assumption).
      destruct k as [|d k]; [exfalso; apply (Hk []); [left|]; reflexivity|].
      reflexivity. }
    symmetry. apply H. intros k Hk. apply known_skill_facts, Hk. }
  unfold Extractor.extract_skills_from_resume. cbv zeta.
  set (text := c :: t).
  set (found := flat_map _ Extractor.KNOWN_SKILLS).
  pose proof (found_skills_lower text Extractor.KNOWN_SKILLS) as Hf.
  fold found in Hf.
  assert (Hin : forall x, In x found ->
                          In (lower x) Extractor.KNOWN_SKILLS).
  { intros x Hx. apply (in_map lower) in Hx. rewrite Hf in Hx.
    apply filter_In in Hx. apply Hx. }
  assert (Hn : map Extractor.normalize_skill found = map lower found).
  { apply map_ext_in. intros x Hx.
    destruct (known_skill_facts (Hin x Hx)) as [Hne Hsq].
    rewrite normalize_skill_squash; [exact Hsq|].
    intro Hx0. subst x. apply Hne. reflexivity. }
  unfold Extractor.deduplicate_skills.
  rewrite deduplicate_loop_id; [exact Hf | |].
  - rewrite Hn, Hf. apply NoDup_filter. unfold Extractor.KNOWN_SKILLS.
    apply NoDup_nodup.
  - intros s Hs. split; [|intros []].
    assert (E : Extractor.normalize_skill s = lower s).
    { destruct (known_skill_facts (Hin s Hs)) as [Hne Hsq].
      rewrite normalize_skill_squash; [exact Hsq|].
      intro Hx0. subst s. apply Hne. reflexivity. }
    rewrite E. apply known_skill_facts, Hin, Hs.
Qed.

(** X15.  For a text of code points below 256, on which [str.lower]
    keeps every character in its place, the skills
    [extract_skills_from_resume] returns are, lower-cased, exactly the
    known skills that occur in the lower-cased text between two word
    boundaries, each once; so there are at most 319 of them.  (The
    function cuts the original text at offsets found in the lower-cased
    text; a character whose lower-case form is longer, as U+0130, shifts
    them, and is outside this model of strings.) *)
Theorem extract_skills_characterised (text : str) :
  let out := Extractor.extract_skills_from_resume text in
  (forall skill,
     In skill (map lower out) <->
     In skill Extractor.KNOWN_SKILLS /\ occurs_as_word skill (lower text))
  /\ NoDup (map lower out)
  /\ List.length out <= 319.
Proof.
  cbv zeta. rewrite extract_skills_lower.
  split; [|split].
  - intro skill. rewrite filter_In. unfold found_in.
    rewrite <- search_skill_iff. split; intros [H1 H2]; split; try exact H1.
    + destruct (search (Extractor.skill_pattern skill) (lower text))
        as [[[a b] f]|]; [eauto | discriminate].
    + destruct H2 as (a & b & f & H2). rewrite H2. reflexivity.
  - apply NoDup_filter. apply NoDup_nodup.
  - rewrite <- (length_map lower), extract_skills_lower.
    pose proof (filter_length_le (found_in (lower text))
                  Extractor.KNOWN_SKILLS) as H.
    assert (E : List.length Extractor.KNOWN_SKILLS = 319)
      by (vm_compute; reflexivity).
    rewrite E in H. exact H.
Qed.

End Matcher.

(** ** Texts: stripping, words, lines and runs *)

Section Texts.

Import Py Re Norm Notions.

Local Close Scope Q_scope.

(** *** Stripping *)

Lemma lstrip_head (s : str) :
  lstrip s = [] \/ exists c t, lstrip s = c :: t /\ isspace c = false.
Proof.
  induction s as [|c t IH]; [left; reflexivity|].
  cbn [lstrip]. destruct (isspace c) eqn:E; [exact IH|].
  right. exists c, t. split; [reflexivity | exact E].
Qed.

Lemma lstrip_fixed (c : ascii) (t : str) :
  isspace c = false -> lstrip (c :: t) = c :: t.
Proof. intro H. cbn [lstrip]. rewrite H. reflexivity. Qed.

Lemma rstrip_head (c : ascii) (t : str) :
  isspace c = false -> exists t', rstrip (c :: t) = c :: t'.
Proof.
  intro H. cbn [rstrip]. destruct (rstrip t) as [|x r].
  - rewrite H. exists []. reflexivity.
  - exists (x :: r). reflexivity.
Qed.

Lemma rstrip_idem (s : str) : rstrip (rstrip s) = rstrip s.
Proof.
  induction s as [|c t IH]; [reflexivity|].
  cbn [rstrip]. destruct (rstrip t) as [|x r] eqn:E.
  - destruct (isspace c) eqn:Ec; [reflexivity|].
    cbn [rstrip]. rewrite Ec. reflexivity.
  - cbn [rstrip] in *. rewrite IH. reflexivity.
Qed.

Lemma strip_idem (s : str) : strip (strip s) = strip s.
Proof.
  unfold strip.
  destruct (lstrip_head s) as [E | (c & t & E & Hc)]; rewrite E.
  - reflexivity.
  - destruct (@rstrip_head c t Hc) as [t' Et]. rewrite Et.
    rewrite (@lstrip_fixed c t' Hc), <- Et. apply rstrip_idem.
Qed.

Lemma lstrip_incl (s : str) (c : ascii) : In c (lstrip s) -> In c s.
Proof.
  induction s as [|d t IH]; [intros []|].
  cbn [lstrip]. destruct (isspace d); [right; auto | auto].
Qed.

Lemma rstrip_incl (s : str) (c : ascii) : In c (rstrip s) -> In c s.
Proof.
  revert c. induction s as [|d t IH]; intros c; [intros []|].
  cbn [rstrip]. destruct (rstrip t) as [|x r].
  - destruct (isspace d); [intros [] | intros [H|[]]; left; exact H].
  - intros [H|H]; [left; exact H | right; apply IH, H].
Qed.

Lemma strip_incl (s : str) (c : ascii) : In c (strip s) -> In c s.
Proof. intro H. apply lstrip_incl, rstrip_incl, H. Qed.

Lemma lstrip_blank (s : str) : forallb isspace s = true -> lstrip s = [].
Proof.
  induction s as [|c t IH]; [reflexivity|].
  cbn [forallb lstrip]. rewrite andb_true_iff. intros [Hc Ht].
  rewrite Hc. exact (IH Ht).
Qed.

(** *** Words of a text, in general *)

Lemma split_join_plain (ws : list str) :
  Forall plain_word ws -> split (join [sp] ws) = ws.
Proof.
  unfold split. induction ws as [|w ws IH]; intro H; [reflexivity|].
  inversion H as [|? ? [Hne Hns] Hws]; subst.
  destruct ws as [|w2 ws].
  - cbn [join]. rewrite <- (app_nil_r w) at 1.
    rewrite split_acc_app_word by exact Hns. rewrite app_nil_r.
    cbn [split_acc]. destruct (rev w) eqn:E.
    + apply (f_equal (@rev ascii)) in E. rewrite rev_involutive in E.
      contradiction.
    + rewrite <- E, rev_involutive. reflexivity.
  - change (join [sp] (w :: w2 :: ws))
      with (w ++ [sp] ++ join [sp] (w2 :: ws)).
    rewrite split_acc_app_word by exact Hns. rewrite app_nil_r.
    change ([sp] ++ join [sp] (w2 :: ws)) with (sp :: join [sp] (w2 :: ws)).
    cbn [split_acc].
    change (isspace sp) with true. cbv iota.
    destruct (rev w) eqn:E.
    + apply (f_equal (@rev ascii)) in E. rewrite rev_involutive in E.
      contradiction.
    + rewrite <- E, rev_involutive, (IH Hws). reflexivity.
Qed.

Lemma split_acc_plain (s : str) : forall cur,
  forallb nonspace cur = true -> Forall plain_word (split_acc cur s).
Proof.
  assert (Hrev : forall x cur, forallb nonspace (x :: cur) = true ->
                               plain_word (rev (x :: cur))).
  { intros x cur H. split; [|rewrite forallb_rev; exact H].
    intro E. apply (f_equal (@List.length ascii)) in E.
    rewrite length_rev in E. discriminate. }
  induction s as [|c t IH]; intros cur Hcur; cbn [split_acc].
  - destruct cur as [|x cur]; constructor; [|constructor].
    apply Hrev, Hcur.
  - destruct (isspace c) eqn:E.
    + destruct cur as [|x cur]; [apply IH; reflexivity|].
      constructor; [apply Hrev, Hcur | apply IH; reflexivity].
    + apply IH. cbn [forallb]. unfold nonspace at 1. rewrite E. exact Hcur.
Qed.

Lemma split_plain (s : str) : Forall plain_word (split s).
Proof. apply split_acc_plain. reflexivity. Qed.

Lemma split_join_split (s : str) :
  split (join (lit " ") (split s)) = split s.
Proof. apply (split_join_plain (split_plain s)). Qed.

(** *** normalize_whitespace *)

Lemma normalize_whitespace_words (text : str) :
  TextCleaner.normalize_whitespace text = join (lit " ") (split text).
Proof.
  destruct text as [|c t]; [reflexivity|].
  unfold TextCleaner.normalize_whitespace. cbv zeta.
  apply strip_sub_spaces.
Qed.

Lemma join_plain_edges (ws : list str) :
  Forall plain_word ws -> strip (join [sp] ws) = join [sp] ws.
Proof.
  intro H.
  assert (E : join [sp] ws
              = strip (sub (Plus (Cls isspace)) (lit " ") (join [sp] ws))).
  { rewrite strip_sub_spaces. change (lit " ") with [sp].
    rewrite (split_join_plain H). reflexivity. }
  rewrite E. apply strip_idem.
Qed.

(** X16.  [normalize_whitespace] returns the words of the text, as
    [str.split] finds them, joined by single blanks: applying it again
    changes nothing, the result has no white space at its ends, and it has
    the words of the text. *)
Theorem normalize_whitespace_spec (text : str) :
  let out := TextCleaner.normalize_whitespace text in
  out = join (lit " ") (split text)
  /\ TextCleaner.normalize_whitespace out = out
  /\ strip out = out
  /\ split out = split text.
Proof.
  cbv zeta. rewrite !normalize_whitespace_words.
  rewrite split_join_split.
  repeat split.
  apply (join_plain_edges (split_plain text)).
Qed.

(** *** remove_special_characters *)

Lemma is_special_blank (keep_chars : str) :
  TextCleaner.is_special keep_chars sp = false.
Proof.
  unfold TextCleaner.is_special.
  replace (isspace sp) with true by reflexivity.
  rewrite orb_true_r. reflexivity.
Qed.

Lemma remove_special_characters_map (text keep_chars : str) :
  TextCleaner.remove_special_characters text keep_chars
  = map (fun c => if TextCleaner.is_special keep_chars c then sp else c) text.
Proof.
  destruct text as [|c t]; [reflexivity|].
  unfold TextCleaner.remove_special_characters. apply sub_cls_space.
Qed.

(** X17.  [remove_special_characters] puts a blank in the place of every
    character that is no ASCII letter, digit or white space and is not in
    [keep_chars], and leaves the others where they are: the length is
    kept, no such character remains, and applying it again changes
    nothing. *)
Theorem remove_special_characters_spec (text keep_chars : str) :
  let out := TextCleaner.remove_special_characters text keep_chars in
  out = map (fun c => if TextCleaner.is_special keep_chars c then sp else c)
            text
  /\ List.length out = List.length text
  /\ forallb (fun c => negb (TextCleaner.is_special keep_chars c)) out = true
  /\ TextCleaner.remove_special_characters out keep_chars = out.
Proof.
  cbv zeta. rewrite !remove_special_characters_map.
  split; [reflexivity|]. split; [apply length_map|].
  assert (H : forall s,
             forallb (fun c => negb (TextCleaner.is_special keep_chars c))
               (map (fun c => if TextCleaner.is_special keep_chars c
                              then sp else c) s) = true).
  { induction s as [|c t IH]; [reflexivity|].
    cbn [map forallb]. rewrite IH, andb_true_r.
    destruct (TextCleaner.is_special keep_chars c) eqn:E.
    - rewrite is_special_blank. reflexivity.
    - rewrite E. reflexivity. }
  split; [apply H|].
  rewrite map_map. apply map_ext. intro c.
  destruct (TextCleaner.is_special keep_chars c) eqn:E.
  - rewrite is_special_blank. reflexivity.
  - rewrite E. reflexivity.
Qed.

(** *** The normal form of clean_text *)

Lemma join_words_chars (ws : list str) :
  Forall is_word ws ->
  forall c, In c (join (lit " ") ws) -> is_a_z c = true \/ c = sp.
Proof.
  induction ws as [|w ws IH]; intros H c Hc; [destruct Hc|].
  inversion H as [|? ? [_ Hw] Hws]; subst.
  assert (Hin : In c w \/ (ws <> [] /\ (c = sp \/ In c (join (lit " ") ws)))).
  { destruct ws as [|w2 ws]; [left; exact Hc|].
    change (join (lit " ") (w :: w2 :: ws))
      with (w ++ lit " " ++ join (lit " ") (w2 :: ws)) in Hc.
    apply in_app_or in Hc. destruct Hc as [Hc|Hc]; [left; exact Hc|].
    right. split; [discriminate|].
    destruct Hc as [Hc|Hc]; [left; symmetry; exact Hc | right; exact Hc]. }
  destruct Hin as [Hc'|[_ [Hc'|Hc']]].
  - left. rewrite forallb_forall in Hw. apply Hw, Hc'.
  - right. exact Hc'.
  - apply (IH Hws), Hc'.
Qed.

(** X18.  The result of [clean_text] is made of the letters a-z and
    blanks only; it is its own words joined by single blanks, so it has no
    blank at its ends and no two blanks in a row; every word is a
    non-empty string over a-z, and none of them is a stop word. *)
Theorem clean_text_normal_form (text : str) (stop_words : option (list str)) :
  let out := TextCleaner.clean_text text stop_words in
  (forall c, In c out -> is_a_z c = true \/ c = sp)
  /\ join (lit " ") (split out) = out
  /\ Forall is_word (split out)
  /\ (forall sw w, stop_words = Some sw -> In w (split out) ->
        TextCleaner.in_set w sw = false).
Proof.
  cbv zeta.
  destruct (clean_text_words text stop_words) as (ws & Hws & E).
  rewrite E.
  pose proof (drop_stop_words_words stop_words Hws) as Hd.
  rewrite (split_join_space Hd).
  split; [apply (join_words_chars Hd)|].
  split; [reflexivity|]. split; [exact Hd|].
  intros sw w Esw Hw. subst stop_words.
  destruct sw as [|x sw]; [reflexivity|].
  change (drop_stop_words (Some (x :: sw)) ws)
    with (filter (fun w => negb (TextCleaner.in_set w (x :: sw))) ws) in Hw.
  apply filter_In in Hw.
  destruct Hw as [_ Hw]. apply negb_true_iff in Hw. exact Hw.
Qed.

(** *** Runs of a class: findall of a repeated class *)

Lemma run_len_firstn (p : ascii -> bool) (s : str) :
  forallb p (firstn (run_len p s) s) = true
  /\ outside_after p (skipn (run_len p s) s) = true.
Proof.
  induction s as [|c t IH]; [split; reflexivity|].
  cbn [run_len]. destruct (p c) eqn:E.
  - cbn [firstn skipn forallb]. rewrite E. exact IH.
  - cbn [firstn skipn forallb outside_after]. rewrite E. split; reflexivity.
Qed.

Lemma run_len_app (p : ascii -> bool) (k post : str) :
  forallb p k = true -> outside_after p post = true ->
  run_len p (k ++ post) = List.length k.
Proof.
  intros Hk Hpost. induction k as [|c k IH].
  - destruct post as [|d post]; [reflexivity|].
    cbn [app run_len]. cbn [outside_after] in Hpost.
    apply negb_true_iff in Hpost. rewrite Hpost. reflexivity.
  - cbn [forallb] in Hk. apply andb_true_iff in Hk. destruct Hk as [Hc Hk].
    cbn [app run_len List.length]. rewrite Hc, (IH Hk). reflexivity.
Qed.

Lemma finditer_runs (p : ascii -> bool) (k : str) (s : str) :
  forall prev skip,
    (skip = 0 /\ outside_before p prev = true)
    \/ (skip = run_len p s /\ outside_before p prev = false) ->
    (In k (map whole (finditer_from (Plus (Cls p)) prev s skip))
     <-> maximal_run p prev s k).
Proof.
  induction s as [|c t IH]; intros prev skip Hinv.
  - cbn [finditer_from map In]. split; [intros []|].
    intros (pre & post & E & Hne & _).
    destruct pre; [destruct k; [contradiction | discriminate] | discriminate].
  - assert (Hstep : forall pre post,
              c :: t = pre ++ k ++ post -> k <> [] -> forallb p k = true ->
              (pre = [] /\ p c = true /\ exists k', k = c :: k' /\ t = k' ++ post)
              \/ (exists pre', pre = c :: pre' /\ t = pre' ++ k ++ post)).
    { intros pre post E Hne Hk. destruct pre as [|d pre'].
      - left. destruct k as [|d k']; [contradiction|].
        cbn [app] in E. injection E as E1 E2. subst d.
        cbn [forallb] in Hk. apply andb_true_iff in Hk.
        split; [reflexivity|]. split; [apply Hk|].
        exists k'. split; [reflexivity | exact E2].
      - right. cbn [app] in E. injection E as E1 E2. subst d.
        exists pre'. split; [reflexivity | exact E2]. }
    assert (Hlift : maximal_run p (Some c) t k ->
                    maximal_run p prev (c :: t) k).
    { intros (pre & post & E & Hne & Hk & Hb & Ha).
      exists (c :: pre), post. cbn [app last_char]. rewrite <- E.
      repeat split; assumption. }
    assert (Hdrop : forall pre' post,
               t = pre' ++ k ++ post -> k <> [] -> forallb p k = true ->
               outside_before p (last_char prev (c :: pre')) = true ->
               outside_after p post = true ->
               maximal_run p (Some c) t k).
    { intros pre' post E Hne Hk Hb Ha. exists pre', post.
      repeat split; assumption. }
    destruct (p c) eqn:Ec.
    + destruct Hinv as [[Hs Hb]|[Hs Hb]]; subst skip.
      * cbn [finditer_from]. rewrite match_here_plus_cls.
        cbn [run_len]. rewrite Ec. cbn [map In whole].
        replace (S (run_len p t) - 1) with (run_len p t) by lia.
        rewrite (IH (Some c) (run_len p t)); cycle 1.
        { right. split; [reflexivity|]. cbn [outside_before].
          rewrite Ec. reflexivity. }
        split.
        -- intros [E|H]; [|exact (Hlift H)].
           subst k. exists [], (skipn (S (run_len p t)) (c :: t)).
           cbn [app last_char].
           destruct (run_len_firstn p (c :: t)) as [H1 H2].
           cbn [run_len] in H1, H2. rewrite Ec in H1, H2.
           split; [symmetry; apply firstn_skipn|].
           split; [discriminate|]. split; [exact H1|].
           split; [exact Hb | exact H2].
        -- intros (pre & post & E & Hne & Hk & Hb' & Ha).
           destruct (Hstep pre post E Hne Hk)
             as [(Hpre & _ & k' & Ek & Et) | (pre' & Hpre & Et)].
           ++ left. subst k t.
              cbn [forallb] in Hk. apply andb_true_iff in Hk.
              rewrite (@run_len_app p k' post (proj2 Hk) Ha).
              change (firstn (S (List.length k')) (c :: k' ++ post))
                with (c :: firstn (List.length k') (k' ++ post)).
              rewrite firstn_app, Nat.sub_diag, firstn_all.
              cbn [firstn]. rewrite app_nil_r. reflexivity.
           ++ right. subst pre. exact (Hdrop pre' post Et Hne Hk Hb' Ha).
      * cbn [run_len]. rewrite Ec. cbn [finditer_from].
        rewrite (IH (Some c) (run_len p t)); cycle 1.
        { right. split; [reflexivity|]. cbn [outside_before].
          rewrite Ec. reflexivity. }
        split; [exact Hlift|].
        intros (pre & post & E & Hne & Hk & Hb' & Ha).
        destruct (Hstep pre post E Hne Hk)
          as [(Hpre & _ & k' & Ek & Et) | (pre' & Hpre & Et)].
        -- subst pre. cbn [last_char] in Hb'. congruence.
        -- subst pre. exact (Hdrop pre' post Et Hne Hk Hb' Ha).
    + assert (Hskip : skip = 0).
      { destruct Hinv as [[Hs _]|[Hs _]]; [exact Hs|].
        cbn [run_len] in Hs. rewrite Ec in Hs. exact Hs. }
      subst skip. cbn [finditer_from]. rewrite match_here_plus_cls.
      cbn [run_len]. rewrite Ec.
      rewrite (IH (Some c) 0); cycle 1.
      { left. split; [reflexivity|]. cbn [outside_before].
        rewrite Ec. reflexivity. }
      split; [exact Hlift|].
      intros (pre & post & E & Hne & Hk & Hb' & Ha).
      destruct (Hstep pre post E Hne Hk)
        as [(Hpre & Hc & _) | (pre' & Hpre & Et)].
      * congruence.
      * subst pre. exact (Hdrop pre' post Et Hne Hk Hb' Ha).
Qed.

Lemma findall_runs (p : ascii -> bool) (s k : str) :
  In k (findall (Plus (Cls p)) s) <-> maximal_run p None s k.
Proof.
  unfold findall, finditer. apply finditer_runs.
  left. split; reflexivity.
Qed.

(** *** extract_keywords *)

(** X19.  The keywords [extract_keywords] returns are exactly the maximal
    runs of word characters, dots, hyphens and plus signs of the text
    whose length lies between [min_length] and [max_length]. *)
Theorem extract_keywords_characterised (text : str)
    (min_length max_length : Z) (k : str) :
  In k (Extractor.extract_keywords text min_length max_length)
  <-> (min_length <= Z.of_nat (List.length k) <= max_length)%Z
      /\ maximal_run Extractor.is_keyword_char None text k.
Proof.
  destruct text as [|c t].
  - cbn [Extractor.extract_keywords In]. split; [intros []|].
    intros (_ & pre & post & E & Hne & _).
    destruct pre; [destruct k; [contradiction | discriminate] | discriminate].
  - unfold Extractor.extract_keywords. cbv zeta.
    rewrite filter_In, findall_runs, andb_true_iff, !Z.leb_le.
    tauto.
Qed.

(** *** Pieces of a text *)

Lemma lstrip_piece (s : str) : exists pre, s = pre ++ lstrip s.
Proof.
  induction s as [|c t [pre IH]]; [exists []; reflexivity|].
  cbn [lstrip]. destruct (isspace c).
  - exists (c :: pre). cbn [app]. rewrite <- IH. reflexivity.
  - exists []. reflexivity.
Qed.

Lemma rstrip_piece (s : str) : exists post, s = rstrip s ++ post.
Proof.
  induction s as [|c t [post IH]]; [exists []; reflexivity|].
  cbn [rstrip]. destruct (rstrip t) as [|x r].
  - destruct (isspace c).
    + exists (c :: t). reflexivity.
    + exists post. cbn [app] in *. rewrite <- IH. reflexivity.
  - exists post. cbn [app] in *. rewrite <- IH. reflexivity.
Qed.

Lemma strip_piece (s : str) : piece_of s (strip s).
Proof.
  unfold strip. destruct (lstrip_piece s) as [pre E1].
  destruct (rstrip_piece (lstrip s)) as [post E2].
  exists pre, post. rewrite <- E2. exact E1.
Qed.

Lemma piece_of_trans (s t u : str) :
  piece_of s t -> piece_of t u -> piece_of s u.
Proof.
  intros (a & b & E1) (c & d & E2). subst s t.
  exists (a ++ c), (d ++ b). rewrite <- !app_assoc. reflexivity.
Qed.

(** *** re.split *)

Lemma re_split_pieces (r : regex) (t : str) (s : str) :
  forall prev skip cur,
    skip = 0 \/ cur = [] ->
    In t (re_split_from r prev s skip cur) ->
    piece_of s t
    \/ (skip = 0 /\ exists a b, t = rev cur ++ a /\ s = a ++ b).
Proof.
  induction s as [|c s' IH]; intros prev skip cur Hinv Hin.
  - cbn [re_split_from In] in Hin. destruct Hin as [E|[]]. subst t.
    destruct Hinv as [Hs|Hc].
    + right. split; [exact Hs|]. exists [], [].
      rewrite app_nil_r. split; reflexivity.
    + subst cur. left. exists [], []. reflexivity.
  - assert (Hnext : forall n,
              In t (re_split_from r (Some c) s' n []) -> piece_of (c :: s') t).
    { intros n H. destruct (IH (Some c) n [] (or_intror eq_refl) H)
        as [(a & b & E) | (_ & a & b & Et & E)].
      - exists (c :: a), b. cbn [app]. rewrite <- E. reflexivity.
      - exists [c], b. cbn [rev app] in *. subst t. rewrite <- E.
        reflexivity. }
    cbn [re_split_from] in Hin. destruct skip as [|n].
    + assert (Hkeep : In t (re_split_from r (Some c) s' 0 (c :: cur)) ->
                piece_of (c :: s') t
                \/ (0 = 0 /\ exists a b, t = rev cur ++ a /\ c :: s' = a ++ b)).
      { intro H. destruct (IH (Some c) 0 (c :: cur) (or_introl eq_refl) H)
          as [(a & b & E) | (_ & a & b & Et & E)].
        - left. exists (c :: a), b. cbn [app]. rewrite <- E. reflexivity.
        - right. split; [reflexivity|]. exists (c :: a), b.
          cbn [rev] in Et. rewrite <- app_assoc in Et. cbn [app] in *.
          split; [exact Et | rewrite <- E; reflexivity]. }
      destruct (match_here r prev (c :: s')) as [[[|m] f]|].
      * exact (Hkeep Hin).
      * destruct Hin as [E|H]; [|left; exact (Hnext _ H)].
        right. split; [reflexivity|]. exists [], (c :: s').
        rewrite app_nil_r. split; [symmetry; exact E | reflexivity].
      * exact (Hkeep Hin).
    + destruct Hinv as [Hs|Hc]; [discriminate|]. subst cur.
      left. exact (Hnext _ Hin).
Qed.

Lemma re_split_outside (p : ascii -> bool) (s : str) :
  forall prev skip cur,
    forallb (fun c => negb (p c)) cur = true ->
    Forall (fun t => forallb (fun c => negb (p c)) t = true)
           (re_split_from (Plus (Cls p)) prev s skip cur).
Proof.
  induction s as [|c s' IH]; intros prev skip cur Hcur.
  - cbn [re_split_from]. constructor; [|constructor].
    rewrite forallb_rev. exact Hcur.
  - cbn [re_split_from]. destruct skip as [|n]; [|apply IH, Hcur].
    rewrite match_here_plus_cls. cbn [run_len].
    destruct (p c) eqn:Ec.
    + constructor; [rewrite forallb_rev; exact Hcur | apply IH; reflexivity].
    + apply IH. cbn [forallb]. rewrite Ec, Hcur. reflexivity.
Qed.

(** *** extract_skills_from_section *)

(** X20.  Every skill [extract_skills_from_section] returns has 2 to 60
    characters, no white space at its ends and no delimiter (newline,
    comma, semicolon, pipe) inside, and is a piece of the section text;
    without a section text, or with an empty one, nothing is returned. *)
Theorem extract_skills_from_section_spec (section_text : option str)
    (s : str) :
  In s (Extractor.extract_skills_from_section section_text) ->
  2 <= List.length s <= 60
  /\ strip s = s
  /\ forallb (fun c => negb (Extractor.is_delimiter c)) s = true
  /\ exists text, section_text = Some text /\ piece_of text s.
Proof.
  destruct section_text as [[|c text]|]; [intros [] | | intros []].
  unfold Extractor.extract_skills_from_section. cbv zeta.
  rewrite in_flat_map. intros (t & Ht & Hs).
  destruct (Nat.leb 2 (List.length (strip t))
            && Nat.leb (List.length (strip t)) 60)%bool eqn:E;
    [|destruct Hs].
  destruct Hs as [Hs|[]]. subst s.
  apply andb_true_iff in E. destruct E as [E1 E2].
  apply Nat.leb_le in E1, E2.
  split; [split; assumption|]. split; [apply strip_idem|]. split.
  - pose proof (@re_split_outside Extractor.is_delimiter (c :: text)
                  None 0 [] eq_refl) as H.
    rewrite Forall_forall in H. specialize (H t Ht).
    rewrite forallb_forall in *. intros x Hx. apply H, strip_incl, Hx.
  - exists (c :: text). split; [reflexivity|].
    apply piece_of_trans with (t := t); [|apply strip_piece].
    destruct (@re_split_pieces _ t (c :: text) None 0 [] (or_introl eq_refl) Ht)
      as [H | (_ & a & b & Et & E)]; [exact H|].
    exists [], b. cbn [rev app] in *. subst t. exact E.
Qed.

(** The skill Java of the section text [Python, Java|C]. *)
Lemma extract_skills_from_section_spec_witness :
  2 <= List.length (lit "Java") <= 60
  /\ strip (lit "Java") = lit "Java"
  /\ forallb (fun c => negb (Extractor.is_delimiter c)) (lit "Java") = true
  /\ exists text, Some (lit "Python, Java|C") = Some text
                  /\ piece_of text (lit "Java").
Proof.
  apply (@extract_skills_from_section_spec (Some (lit "Python, Java|C"))).
  vm_compute. right. left. reflexivity.
Defined.

(** *** Lines of a text *)

Lemma linebreak_isspace (c : ascii) : is_linebreak c = true -> isspace c = true.
Proof.
  destruct c as [[|] [|] [|] [|] [|] [|] [|] [|]]; intro H;
    try reflexivity; vm_compute in H; discriminate H.
Qed.

Lemma newline_linebreak (c : ascii) :
  N.eqb (code c) 10 = true -> is_linebreak c = true.
Proof.
  destruct c as [[|] [|] [|] [|] [|] [|] [|] [|]]; intro H;
    try reflexivity; vm_compute in H; discriminate H.
Qed.

Lemma splitlines_acc_break (c : ascii) (t cur : str) :
  is_linebreak c = true ->
  exists u,
    (u = t \/ exists d, t = d :: u /\ N.eqb (code d) 10 = true)
    /\ splitlines_acc cur (c :: t) = rev cur :: splitlines_acc [] u.
Proof.
  intro H. cbn [splitlines_acc]. rewrite H. destruct t as [|d t'].
  - exists []. split; [left; reflexivity | reflexivity].
  - destruct (N.eqb (code c) 13 && N.eqb (code d) 10)%bool eqn:E.
    + exists t'. split; [|reflexivity]. right. exists d.
      apply andb_true_iff in E. split; [reflexivity | apply E].
    + exists (d :: t'). split; [left; reflexivity | reflexivity].
Qed.

Lemma splitlines_acc_keep (c : ascii) (t cur : str) :
  is_linebreak c = false ->
  splitlines_acc cur (c :: t) = splitlines_acc (c :: cur) t.
Proof. intro H. cbn [splitlines_acc]. rewrite H. reflexivity. Qed.

Lemma splitlines_acc_chars (n : nat) : forall s cur ln c,
  List.length s <= n ->
  In ln (splitlines_acc cur s) -> In c ln -> In c cur \/ In c s.
Proof.
  induction n as [|n IH]; intros s cur ln c Hn Hln Hc.
  - destruct s; [|cbn [List.length] in Hn; lia].
    cbn [splitlines_acc] in Hln. destruct cur as [|x cur]; [destruct Hln|].
    destruct Hln as [E|[]]. subst ln. left. apply in_rev, Hc.
  - destruct s as [|d t].
    + cbn [splitlines_acc] in Hln. destruct cur as [|x cur]; [destruct Hln|].
      destruct Hln as [E|[]]. subst ln. left. apply in_rev, Hc.
    + cbn [List.length] in Hn. destruct (is_linebreak d) eqn:Ed.
      * destruct (@splitlines_acc_break d t cur Ed) as (u & Hu & E).
        rewrite E in Hln. destruct Hln as [El|Hln].
        -- subst ln. left. apply in_rev, Hc.
        -- right. right.
           assert (Hlen : List.length u <= n).
           { destruct Hu as [Eu|(x & Eu & _)]; subst t;
               cbn [List.length] in Hn; lia. }
           destruct (IH u [] ln c Hlen Hln Hc) as [[]|H].
           destruct Hu as [Eu|(x & Eu & _)]; subst t; [exact H|].
           right. exact H.
      * rewrite (@splitlines_acc_keep d t cur Ed) in Hln.
        destruct (IH t (d :: cur) ln c ltac:(lia) Hln Hc) as [[H|H]|H].
        -- right. left. exact H.
        -- left. exact H.
        -- right. right. exact H.
Qed.

Lemma splitlines_acc_covers (n : nat) : forall s cur c,
  List.length s <= n ->
  is_linebreak c = false -> In c cur \/ In c s ->
  exists ln, In ln (splitlines_acc cur s) /\ In c ln.
Proof.
  assert (Hend : forall cur c, In c cur ->
            exists ln, In ln (splitlines_acc cur []) /\ In c ln).
  { intros cur c H. destruct cur as [|x cur]; [destruct H|].
    exists (rev (x :: cur)). split; [left; reflexivity|].
    apply in_rev in H. exact H. }
  induction n as [|n IH]; intros s cur c Hn Hc Hin.
  - destruct s; [|cbn [List.length] in Hn; lia].
    destruct Hin as [H|[]]. exact (Hend _ _ H).
  - destruct s as [|d t].
    + destruct Hin as [H|[]]. exact (Hend _ _ H).
    + cbn [List.length] in Hn. destruct (is_linebreak d) eqn:Ed.
      * destruct (@splitlines_acc_break d t cur Ed) as (u & Hu & E).
        rewrite E. destruct Hin as [H|H].
        -- exists (rev cur). split; [left; reflexivity|].
           apply in_rev in H. exact H.
        -- assert (Hcd : In c t).
           { destruct H as [H|H]; [|exact H]. subst d. congruence. }
           assert (Hcu : In c u).
           { destruct Hu as [Eu|(x & Eu & Ex)]; subst t; [exact Hcd|].
             destruct Hcd as [Hx|Hx]; [|exact Hx]. subst x.
             apply newline_linebreak in Ex. congruence. }
           assert (Hlen : List.length u <= n).
           { destruct Hu as [Eu|(x & Eu & _)]; subst t;
               cbn [List.length] in Hn; lia. }
           destruct (IH u [] c Hlen Hc (or_intror Hcu)) as (ln & H1 & H2).
           exists ln. split; [right; exact H1 | exact H2].
      * rewrite (@splitlines_acc_keep d t cur Ed).
        apply (IH t (d :: cur) c); [lia | exact Hc |].
        destruct Hin as [H|[H|H]].
        -- left. right. exact H.
        -- left. left. exact H.
        -- right. exact H.
Qed.

Lemma lstrip_keeps (s : str) (c : ascii) :
  In c s -> isspace c = false -> In c (lstrip s).
Proof.
  intros Hin Hc. induction s as [|d t IH]; [destruct Hin|].
  cbn [lstrip]. destruct (isspace d) eqn:Ed; [|exact Hin].
  destruct Hin as [H|H]; [subst d; congruence | exact (IH H)].
Qed.

Lemma rstrip_keeps (s : str) (c : ascii) :
  In c s -> isspace c = false -> In c (rstrip s).
Proof.
  intros Hin Hc. induction s as [|d t IH]; [destruct Hin|].
  cbn [rstrip]. destruct Hin as [H|H].
  - subst d. destruct (rstrip t); [rewrite Hc|]; left; reflexivity.
  - specialize (IH H). destruct (rstrip t) as [|x r]; [destruct IH|].
    right. exact IH.
Qed.

Lemma strip_keeps (s : str) (c : ascii) :
  In c s -> isspace c = false -> In c (strip s).
Proof.
  intros Hin Hc. apply rstrip_keeps; [apply lstrip_keeps|]; assumption.
Qed.

Lemma strip_blank (s : str) : forallb isspace s = true -> strip s = [].
Proof. intro H. unfold strip. rewrite (lstrip_blank _ H). reflexivity. Qed.

Lemma forallb_false_ex (A : Type) (p : A -> bool) (l : list A) :
  forallb p l = false -> exists x, In x l /\ p x = false.
Proof.
  induction l as [|a l IH]; [discriminate|].
  cbn [forallb]. destruct (p a) eqn:E.
  - intro H. destruct (IH H) as (x & Hx & Hp).
    exists x. split; [right; exact Hx | exact Hp].
  - intros _. exists a. split; [left; reflexivity | exact E].
Qed.

Lemma filter_none (A : Type) (p : A -> bool) (l : list A) :
  (forall x, In x l -> p x = false) -> filter p l = [].
Proof.
  induction l as [|a l IH]; intro H; [reflexivity|].
  cbn [filter]. rewrite (H a (or_introl eq_refl)).
  apply IH. intros x Hx. apply H. right. exact Hx.
Qed.

Lemma existsb_false_in (A : Type) (p : A -> bool) (l : list A) (x : A) :
  existsb p l = false -> In x l -> p x = false.
Proof.
  intros H Hx. destruct (p x) eqn:E; [|reflexivity].
  assert (existsb p l = true) by (apply existsb_exists; exists x; auto).
  congruence.
Qed.

Lemma existsb_false_sub (A : Type) (p : A -> bool) (l l' : list A) :
  (forall x, In x l' -> In x l) -> existsb p l = false ->
  existsb p l' = false.
Proof.
  intros Hsub H. destruct (existsb p l') eqn:E; [|reflexivity].
  apply existsb_exists in E. destruct E as (x & Hx & Hp).
  rewrite (existsb_false_in _ _ _ H (Hsub x Hx)) in Hp. discriminate.
Qed.

(** *** detect_formatting_risks *)

(** X21.  [detect_formatting_risks] returns no risk, or the one risk
    "Empty or unreadable document", or the one risk "Excessive ALL-CAPS
    lines"; the first exactly when the text has white space only, and the
    second never for a text without an upper-case letter. *)
Theorem detect_formatting_risks_spec (text : str) :
  let risks := TextCleaner.detect_formatting_risks text in
  (risks = [] \/ risks = [lit "Empty or unreadable document"]
   \/ risks = [lit "Excessive ALL-CAPS lines"])
  /\ (risks = [lit "Empty or unreadable document"]
      <-> forallb isspace text = true)
  /\ (existsb is_upper_char text = false ->
      risks <> [lit "Excessive ALL-CAPS lines"]).
Proof.
  cbv zeta. unfold TextCleaner.detect_formatting_risks. cbv zeta.
  set (nonblank := fun ln : str =>
                     match strip ln with [] => false | _ => true end).
  set (lines := filter nonblank (splitlines text)).
  set (caps := fun ln : str =>
                 (isupper (strip ln)
                  && Nat.ltb 10 (List.length (strip ln)))%bool).
  assert (Hchars : forall ln c, In ln lines -> In c ln -> In c text).
  { intros ln c Hln Hc. apply filter_In in Hln. destruct Hln as [Hln _].
    destruct (@splitlines_acc_chars (List.length text) text [] ln c
                (le_n _) Hln Hc) as [[]|H]. exact H. }
  split; [|split].
  - destruct lines as [|l ls]; [right; left; reflexivity|].
    destruct (Py.ltb _ _); [right; right | left]; reflexivity.
  - split.
    + intro H. destruct (forallb isspace text) eqn:E; [reflexivity|].
      exfalso. destruct (forallb_false_ex _ _ E) as (c & Hc & Hs).
      assert (Hb : is_linebreak c = false).
      { destruct (is_linebreak c) eqn:Eb; [|reflexivity].
        apply linebreak_isspace in Eb. congruence. }
      destruct (@splitlines_acc_covers (List.length text) text [] c
                  (le_n _) Hb (or_intror Hc)) as (ln & Hln & Hcl).
      assert (Hl : In ln lines).
      { apply filter_In. split; [exact Hln|]. unfold nonblank.
        pose proof (strip_keeps _ _ Hcl Hs) as Hk.
        destruct (strip ln); [destruct Hk | reflexivity]. }
      destruct lines as [|l ls]; [destruct Hl|].
      destruct (Py.ltb _ _); vm_compute in H; discriminate H.
    + intro H.
      assert (E : lines = []).
      { apply filter_none. intros ln Hln. unfold nonblank.
        rewrite strip_blank; [reflexivity|].
        apply forallb_forall. intros c Hc.
        rewrite forallb_forall in H. apply H.
        destruct (@splitlines_acc_chars (List.length text) text [] ln c
                    (le_n _) Hln Hc) as [[]|H']. exact H'. }
      rewrite E. reflexivity.
  - intro Hup. destruct lines as [|l ls] eqn:El.
    + intro H. vm_compute in H. discriminate H.
    + rewrite <- El.
      assert (E : filter caps lines = []).
      { apply filter_none. intros ln Hln. unfold caps, isupper.
        rewrite (@existsb_false_sub _ is_upper_char text (strip ln));
          [reflexivity | | exact Hup].
        intros c Hc. rewrite El in Hln.
        apply (Hchars ln c Hln), strip_incl, Hc. }
      rewrite E. cbn [List.length].
      assert (Hr : Py.ltb 0.2%Q
                     (inject_Z (Z.of_nat 0)
                      / inject_Z (Z.of_nat (Nat.max 1 (List.length lines))))%Q
                   = false).
      { unfold Py.ltb. apply negb_false_iff, Qle_bool_iff.
        unfold Qdiv. change (inject_Z (Z.of_nat 0)) with 0%Q.
        rewrite Qmult_0_l. vm_compute. discriminate. }
      rewrite Hr. discriminate.
Qed.

(** *** normalize_skill *)

Lemma squeeze_lstrip (y : str) : squeeze false (lstrip y) = squeeze true y.
Proof.
  induction y as [|c t IH]; [reflexivity|].
  cbn [lstrip squeeze]. destruct (isspace c) eqn:E; [exact IH|].
  cbn [squeeze]. rewrite E. reflexivity.
Qed.

Lemma rstrip_some_nonspace (y : str) :
  rstrip y <> [] -> existsb nonspace (rstrip y) = true.
Proof.
  induction y as [|c t IH]; [intro H; contradiction|].
  cbn [rstrip]. destruct (rstrip t) as [|x r].
  - destruct (isspace c) eqn:E; [intro H; contradiction|].
    intros _. cbn [existsb]. unfold nonspace. rewrite E. reflexivity.
  - intros _. cbn [existsb] in *. rewrite IH by discriminate.
    apply orb_true_r.
Qed.

Lemma squeeze_some_nonspace (y : str) : forall b,
  existsb nonspace y = true -> squeeze b y <> [].
Proof.
  induction y as [|c t IH]; intros b H; [discriminate|].
  cbn [squeeze]. cbn [existsb] in H. unfold nonspace at 1 in H.
  destruct (isspace c); [|discriminate].
  cbn [negb orb] in H. destruct b; [apply IH, H | discriminate].
Qed.

Lemma squeeze_cons (b : bool) (c : ascii) (t : str) :
  squeeze b (c :: t)
  = if isspace c
    then if b then squeeze true t else sp :: squeeze true t
    else c :: squeeze false t.
Proof. reflexivity. Qed.

Lemma rstrip_cons (c : ascii) (t : str) :
  rstrip (c :: t)
  = match rstrip t with
    | [] => if isspace c then [] else [c]
    | x :: r => c :: x :: r
    end.
Proof. reflexivity. Qed.

Lemma squeeze_rstrip (y : str) : forall b,
  squeeze b (rstrip y) = rstrip (squeeze b y).
Proof.
  induction y as [|c t IH]; intro b; [reflexivity|].
  rewrite rstrip_cons, (squeeze_cons b c t).
  destruct (rstrip t) as [|x r] eqn:Er.
  - destruct (isspace c) eqn:E.
    + destruct b.
      * exact (IH true).
      * rewrite rstrip_cons, <- (IH true). reflexivity.
    + rewrite rstrip_cons, <- (IH false), squeeze_cons, E. reflexivity.
  - assert (Hne : forall b', squeeze b' (x :: r) <> []).
    { intro b'. apply squeeze_some_nonspace. rewrite <- Er.
      apply rstrip_some_nonspace. rewrite Er. discriminate. }
    rewrite (squeeze_cons b c (x :: r)).
    destruct (isspace c) eqn:E.
    + destruct b.
      * exact (IH true).
      * rewrite rstrip_cons, <- (IH true).
        destruct (squeeze true (x :: r)) eqn:Es; [|reflexivity].
        exfalso. exact (Hne true Es).
    + rewrite rstrip_cons, <- (IH false).
      destruct (squeeze false (x :: r)) eqn:Es; [|reflexivity].
      exfalso. exact (Hne false Es).
Qed.

Lemma squash_words (y : str) : squash y = join (lit " ") (split y).
Proof.
  unfold squash, strip. rewrite sub_spaces, squeeze_rstrip, squeeze_lstrip.
  apply rstrip_squeeze.
Qed.

Lemma normalize_skill_words (skill : str) :
  Extractor.normalize_skill skill = join (lit " ") (split (lower skill)).
Proof.
  destruct skill as [|c t]; [reflexivity|].
  rewrite normalize_skill_squash by discriminate. apply squash_words.
Qed.

Lemma lower_char_idem (c : ascii) : lower_char (lower_char c) = lower_char c.
Proof.
  destruct c as [[|] [|] [|] [|] [|] [|] [|] [|]]; reflexivity.
Qed.

Lemma lower_idem (s : str) : lower (lower s) = lower s.
Proof.
  unfold lower. rewrite map_map. apply map_ext. exact lower_char_idem.
Qed.

Lemma squeeze_chars (y : str) (c : ascii) : forall b,
  In c (squeeze b y) -> c = sp \/ In c y.
Proof.
  induction y as [|d t IH]; intros b H; [destruct H|].
  cbn [squeeze] in H. destruct (isspace d).
  - destruct b.
    + destruct (IH _ H) as [E|E]; [left; exact E | right; right; exact E].
    + destruct H as [H|H]; [left; symmetry; exact H|].
      destruct (IH _ H) as [E|E]; [left; exact E | right; right; exact E].
  - destruct H as [H|H]; [right; left; exact H|].
    destruct (IH _ H) as [E|E]; [left; exact E | right; right; exact E].
Qed.

Lemma join_split_chars (y : str) (c : ascii) :
  In c (join (lit " ") (split y)) -> c = sp \/ In c y.
Proof.
  intro H. pose proof (proj1 (rstrip_squeeze y)) as E.
  change (join (lit " ") (split y)) with (join [sp] (split_acc [] y)) in H.
  rewrite <- E in H. apply rstrip_incl in H.
  exact (squeeze_chars _ _ _ H).
Qed.

Lemma normalize_skill_lower (skill : str) :
  lower (Extractor.normalize_skill skill) = Extractor.normalize_skill skill.
Proof.
  rewrite normalize_skill_words. unfold lower at 1.
  rewrite <- (map_id (join (lit " ") (split (lower skill)))) at 2.
  apply map_ext_in. intros c Hc.
  destruct (join_split_chars _ _ Hc) as [E|E].
  - subst c. reflexivity.
  - unfold lower in E. apply in_map_iff in E. destruct E as (d & Ed & _).
    subst c. apply lower_char_idem.
Qed.

(** X23.  [normalize_skill] returns the words of the lower-cased skill
    joined by single blanks: normalising again changes nothing, the letter
    case of the skill does not matter, and the result is lower-case with
    no white space at its ends. *)
Theorem normalize_skill_spec (skill : str) :
  let n := Extractor.normalize_skill skill in
  n = join (lit " ") (split (lower skill))
  /\ Extractor.normalize_skill n = n
  /\ Extractor.normalize_skill (lower skill) = n
  /\ strip n = n /\ lower n = n.
Proof.
  cbv zeta. split; [apply normalize_skill_words|].
  split; [|split; [|split]].
  - rewrite (normalize_skill_words (Extractor.normalize_skill skill)).
    rewrite normalize_skill_lower, normalize_skill_words.
    rewrite split_join_split. reflexivity.
  - rewrite !normalize_skill_words, lower_idem. reflexivity.
  - rewrite normalize_skill_words.
    apply (join_plain_edges (split_plain (lower skill))).
  - apply normalize_skill_lower.
Qed.

End Texts.

(** ** Reading the uploaded file *)

Lemma safe_extract_text_cases (bytes : Type)
    (extract_text_from_pdf : bytes -> Parser.outcome (option Py.str))
    (docx_paragraphs : bytes -> Parser.outcome (list Py.str))
    (file_bytes : bytes) (filename : Py.str) :
  let result :=
    Parser.safe_extract_text extract_text_from_pdf docx_paragraphs
      file_bytes filename in
  snd result = [] \/ (fst result = [] /\ exists e, snd result = [e]).
Proof.
  cbv zeta. unfold Parser.safe_extract_text, Parser.extract_text_from_docx_bytes.
  cbv zeta.
  destruct (Py.endswith _ _).
  - destruct (extract_text_from_pdf file_bytes) as [t|e]; cbn [fst snd].
    + left. reflexivity.
    + right. split; [reflexivity | eexists; reflexivity].
  - destruct (_ || _)%bool.
    + destruct (docx_paragraphs file_bytes) as [t|e]; cbn [fst snd].
      * left. reflexivity.
      * right. split; [reflexivity | eexists; reflexivity].
    + right. split; [reflexivity | eexists; reflexivity].
Qed.

(** X24.  [safe_extract_text] decides by the end of the lower-cased file
    name.  For .pdf it returns the text pdfminer returns with no error
    (the empty text for [None]), or the empty text with the one message
    "PDF parsing error: ..." when pdfminer raises; for .docx and .doc it
    returns the paragraphs joined by newlines with no error, or the empty
    text with the one message "DOCX parsing error: ..."; for every other
    name it returns the empty text with "Unsupported file extension",
    calling no parser.  So there is at most one error, and then the text
    is empty; and the letter case of the file name does not matter. *)
Theorem safe_extract_text_outcome (bytes : Type)
    (extract_text_from_pdf : bytes -> Parser.outcome (option Py.str))
    (docx_paragraphs : bytes -> Parser.outcome (list Py.str))
    (file_bytes : bytes) (filename : Py.str) :
  let safe_extract_text :=
    Parser.safe_extract_text extract_text_from_pdf docx_paragraphs in
  let result := safe_extract_text file_bytes filename in
  let pdf := Py.endswith (Py.lit ".pdf") (Py.lower filename) in
  let doc :=
    (Py.endswith (Py.lit ".docx") (Py.lower filename)
     || Py.endswith (Py.lit ".doc") (Py.lower filename))%bool in
  (pdf = true ->
     (forall text, extract_text_from_pdf file_bytes
                   = Parser.Returns (Some text) ->
                   result = (text, []))
     /\ (extract_text_from_pdf file_bytes = Parser.Returns None ->
         result = ([], []))
     /\ (forall e, extract_text_from_pdf file_bytes = Parser.Raises e ->
                   result = ([], [Py.lit "PDF parsing error: " ++ e])))
  /\ (pdf = false -> doc = true ->
        (forall paragraphs, docx_paragraphs file_bytes
                            = Parser.Returns paragraphs ->
                            result = (Py.join ["010"%char] paragraphs, []))
        /\ (forall e, docx_paragraphs file_bytes = Parser.Raises e ->
                      result = ([], [Py.lit "DOCX parsing error: " ++ e])))
  /\ (pdf = false -> doc = false ->
        result = ([], [Py.lit "Unsupported file extension"]))
  /\ (snd result = [] \/ (fst result = [] /\ exists e, snd result = [e]))
  /\ safe_extract_text file_bytes (Py.lower filename) = result.
Proof.
  cbv zeta. split; [|split; [|split; [|split]]].
  - intro Hp. unfold Parser.safe_extract_text. cbv zeta. rewrite Hp.
    split; [|split].
    + intros text E. rewrite E. reflexivity.
    + intro E. rewrite E. reflexivity.
    + intros e E. rewrite E. reflexivity.
  - intros Hp Hd.
    unfold Parser.safe_extract_text, Parser.extract_text_from_docx_bytes.
    cbv zeta. rewrite Hp, Hd. split.
    + intros paragraphs E. rewrite E. reflexivity.
    + intros e E. rewrite E. reflexivity.
  - intros Hp Hd. unfold Parser.safe_extract_text. cbv zeta.
    rewrite Hp, Hd. reflexivity.
  - apply safe_extract_text_cases.
  - unfold Parser.safe_extract_text. cbv zeta. rewrite lower_idem.
    reflexivity.
Qed.

(** X25.  In the route the errors handed to [compute_heuristics] are those
    of [safe_extract_text], at most one: the parsing penalty of an uploaded
    resume is 0 or -5, never the -10 of two errors, and it is -5 exactly
    when the file could not be read, in which case the text is empty. *)
Theorem upload_penalty_at_most_five (bytes : Type)
    (extract_text_from_pdf : bytes -> Parser.outcome (option Py.str))
    (docx_paragraphs : bytes -> Parser.outcome (list Py.str))
    (file_bytes : bytes) (filename : Py.str) (parsed : Scorer.sections) :
  let extracted :=
    Parser.safe_extract_text extract_text_from_pdf docx_paragraphs
      file_bytes filename in
  let raw_text := fst extracted in
  let parsing_errors := snd extracted in
  let heur_breakdown :=
    snd (Scorer.compute_heuristics raw_text parsed parsing_errors) in
  (parsing_errors = [] /\ Scorer.parsingPenalty heur_breakdown == 0)
  \/ (parsing_errors <> [] /\ raw_text = []
      /\ Scorer.parsingPenalty heur_breakdown == - (5)).
Proof.
  cbv zeta. rewrite compute_heuristics_penalty.
  destruct (safe_extract_text_cases extract_text_from_pdf docx_paragraphs
              file_bytes filename) as [E | (Et & e & E)]; rewrite E.
  - left. split; reflexivity.
  - right. split; [discriminate|]. split; [exact Et | reflexivity].
Qed.

(** ** The relevance estimator *)

Section RelevanceEstimator.

Local Open Scope float_scope.

Variable matrix : Type.
Variable fit_transform : list Py.str -> Parser.outcome matrix.
Variable shape0 : matrix -> Z.
Variable tfidf_similarity : matrix -> Parser.outcome float.
Variable model : Type.
Variable embedding : Type.
Variable encode : model -> list Py.str -> Parser.outcome embedding.
Variable embedding_similarity :
  embedding -> embedding -> Parser.outcome float.






End RelevanceEstimator.
